(** * EchoMind: the real-time relay and its session lifecycle

    A shallow embedding of the relay core of EchoMind:

    - [Recorder]: the sample quantisation of [useRecorder.convertToBase64]
      (client/src/websocket.js, second document);
    - [AudioProcessor]: the audio worklet that cuts the microphone stream
      into fixed-length frames (audio-processor.js);
    - [WebSocketManager]: the client session channel with its bounded
      reconnection (client/src/websocket.js);
    - [AssemblyAIStreaming]: the upstream transcription client and its
      event classification (assemblyai-streaming.js);
    - [Server]: the per-connection session proxy of
      [setupWebSocketHandlers] (server index), each handler run to its
      end;
    - [EventLoop]: the same handlers cut at their [await]s, with the
      queue of the continuations that wait;
    - [JSString], [Timer], [CodeBlock], [OpenAI], [App]: the strings, the
      elapsed-time display, the fenced code blocks, the prompts of the
      question-answering routes and the message handler of the
      application.

    JavaScript numbers are binary64 floats and are modelled by Rocq's
    primitive floats where the code computes with samples; counters and
    close codes, which stay small integers, are modelled by [Z] and [nat].
    A handler without [await] runs to completion on the single-threaded
    event loop, so it is a function from the state before it to the state
    after it, together with the effects it performed in order.  The
    handler of an audio frame waits at an [await] when it opens the
    upstream connection: [Server] describes it when nothing is handled
    before it resumes, [EventLoop] in every schedule. *)

From Stdlib Require Import ZArith String Ascii List Bool Lia Floats.
From stdpp Require Import base list pretty.
Import ListNotations.

Open Scope Z_scope.

(** ** Shared JavaScript notions *)

Module JS.

(** [WebSocket.readyState]: CONNECTING = 0, OPEN = 1, CLOSING = 2,
    CLOSED = 3. *)
Inductive ReadyState : Type := CONNECTING | OPEN | CLOSING | CLOSED.

Definition readyState_code (r : ReadyState) : Z :=
  match r with CONNECTING => 0 | OPEN => 1 | CLOSING => 2 | CLOSED => 3 end.

Definition is_open (r : ReadyState) : bool :=
  match r with OPEN => true | _ => false end.

(** Truthiness of a string: only the empty string is falsy. *)
Definition truthy (s : string) : bool :=
  match s with EmptyString => false | String _ _ => true end.

(** [Math.min] and [Math.max] on two numbers: NaN is contagious and
    the negative zero is below the positive one. *)
Definition Math_min (a b : float) : float :=
  if (PrimFloat.is_nan a || PrimFloat.is_nan b)%bool then nan
  else if PrimFloat.ltb a b then a
  else if PrimFloat.ltb b a then b
  else if PrimFloat.get_sign a then a else b.

Definition Math_max (a b : float) : float :=
  if (PrimFloat.is_nan a || PrimFloat.is_nan b)%bool then nan
  else if PrimFloat.ltb a b then b
  else if PrimFloat.ltb b a then a
  else if PrimFloat.get_sign a then b else a.

(** The integer part of a number, rounding toward zero; NaN, the
    infinities and the zeros give 0, as in [ToInt16]. *)
Definition truncate (x : float) : Z :=
  match Prim2SF x with
  | S754_finite s m e =>
      let mag := if 0 <=? e then Z.shiftl (Z.pos m) e
                 else Z.shiftr (Z.pos m) (- e) in
      if s then - mag else mag
  | _ => 0
  end.

(** [ToInt16]: the conversion a store into an [Int16Array] performs:
    truncate, reduce modulo 2^16, read as two's complement. *)
Definition ToInt16 (x : float) : Z :=
  let int16bit := truncate x mod 65536 in
  if 32768 <=? int16bit then int16bit - 65536 else int16bit.

(** The values found in the messages of the relay, and objects as lists
    of fields in the order they are written. *)
Inductive Value : Type :=
| VString (s : string)
| VBool (b : bool)
| VNumber (x : float)
| VUndefined.

Definition Obj : Type := list (string * Value).

(** [s.includes(needle)]. *)
Fixpoint includes (needle s : string) : bool :=
  if String.prefix needle s then true
  else match s with
       | EmptyString => false
       | String _ s' => includes needle s'
       end.

(** [/[A-Z]/.test(s)]: some character lies between "A" and "Z". *)
Definition in_A_Z (c : ascii) : bool :=
  ((65 <=? N_of_ascii c) && (N_of_ascii c <=? 90))%N.

Definition test_A_Z (s : string) : bool :=
  existsb in_A_Z (list_ascii_of_string s).

(** The upper-case letters among the code units below 256: A to Z, and the
    accented capitals from U+00C0 to U+00DE, the multiplication sign
    excepted. *)
Definition is_upper_case (c : ascii) : bool :=
  let n := N_of_ascii c in
  ((65 <=? n) && (n <=? 90)
   || (192 <=? n) && (n <=? 222) && negb (n =? 215))%N.

End JS.

(** ** Completions: normal return or exception

    A computation takes the state to the state it leaves, with its result
    or the message of the error it throws; what it did to the state before
    throwing stays done. *)

Inductive Completion (A : Type) : Type :=
| Normal (a : A)
| Throw (error : string).

Arguments Normal {A} a.
Arguments Throw {A} error.

Definition M (S A : Type) : Type := S -> Completion A * S.

#[global] Instance M_ret {S : Type} : MRet (M S) :=
  fun A a s => (Normal a, s).

#[global] Instance M_bind {S : Type} : MBind (M S) :=
  fun A B k c s =>
    match c s with
    | (Normal a, s') => k a s'
    | (Throw error, s') => (Throw error, s')
    end.

Definition throw {S A : Type} (error : string) : M S A :=
  fun s => (Throw error, s).

(** [try { body } catch (error) { handler }]. *)
Definition try_catch {S A : Type} (body : M S A) (handler : string -> M S A) : M S A :=
  fun s =>
    match body s with
    | (Normal a, s') => (Normal a, s')
    | (Throw error, s') => handler error s'
    end.

(** [try { body } finally { after }]. *)
Definition try_finally {S A : Type} (body : M S A) (after : M S unit) : M S A :=
  fun s =>
    match body s with
    | (r, s') =>
        match after s' with
        | (Normal _, s'') => (r, s'')
        | (Throw error, s'') => (Throw error, s'')
        end
    end.

Definition gets {S A : Type} (f : S -> A) : M S A :=
  fun s => (Normal (f s), s).

Definition modify {S : Type} (f : S -> S) : M S unit :=
  fun s => (Normal tt, f s).

(** ** The server side of a client connection *)

Module Node.

(** A socket of the [ws] library towards the transcription service: its
    ready state, the binary frames handed to [send] (as the base64 text
    they were decoded from) and the arguments of [close]. *)
Record Socket : Type := mkSocket {
  readyState : JS.ReadyState;
  frames : list string;
  closeArgs : option (Z * string)
}.

(** What the libraries may do that the relay does not decide: whether
    [client.send] throws, whether the [WebSocket] constructor throws (with
    which message), whether [close] and [send] of an upstream socket
    throw. *)
Record Env : Type := mkEnv {
  client_send_throws : bool;
  WebSocket_throws : option string;
  ws_close_throws : bool;
  ws_send_throws : bool
}.

(** The state one client connection owns: the two variables captured by
    the handlers of [setupWebSocketHandlers], the two fields of the
    [AssemblyAIStreaming] object, the upstream sockets created so far (by
    rank of creation), and the objects passed to [client.send], oldest
    first (a call that throws is recorded too). *)
Record World : Type := mk {
  isSessionActive : bool;
  isTerminating : bool;
  apiKey : option string;
  ws : option nat;
  sockets : list Socket;
  outbox : list JS.Obj;
  env : Env
}.

Definition set_isSessionActive (v : bool) (w : World) : World :=
  mk v (isTerminating w) (apiKey w) (ws w) (sockets w) (outbox w) (env w).

Definition set_isTerminating (v : bool) (w : World) : World :=
  mk (isSessionActive w) v (apiKey w) (ws w) (sockets w) (outbox w) (env w).

Definition set_ws (v : option nat) (w : World) : World :=
  mk (isSessionActive w) (isTerminating w) (apiKey w) v (sockets w) (outbox w)
     (env w).

Definition set_sockets (v : list Socket) (w : World) : World :=
  mk (isSessionActive w) (isTerminating w) (apiKey w) (ws w) v (outbox w)
     (env w).

Definition set_outbox (v : list JS.Obj) (w : World) : World :=
  mk (isSessionActive w) (isTerminating w) (apiKey w) (ws w) (sockets w) v
     (env w).

(** [client.send(JSON.stringify(payload))]. *)
Definition client_send (payload : JS.Obj) : M World unit :=
  fun w =>
    let w' := set_outbox (outbox w ++ [payload]) w in
    if client_send_throws (env w) then (Throw "client.send failed", w')
    else (Normal tt, w').

(** [new WebSocket(url, options)]: the new socket is [CONNECTING]. *)
Definition new_WebSocket : M World nat :=
  fun w =>
    match WebSocket_throws (env w) with
    | Some error => (Throw error, w)
    | None =>
        (Normal (length (sockets w)),
         set_sockets (sockets w ++ [mkSocket JS.CONNECTING [] None]) w)
    end.

(** [socket.send(frame)] and [socket.close(code, reason)] on the socket
    number [k]. *)
Definition socket_send (k : nat) (frame : string) : M World unit :=
  fun w =>
    if ws_send_throws (env w) then (Throw "socket.send failed", w)
    else
      (Normal tt,
       set_sockets
         (alter (fun s => mkSocket (readyState s) (frames s ++ [frame]) (closeArgs s))
            k (sockets w)) w).

Definition socket_close (k : nat) (code : Z) (reason : string) : M World unit :=
  fun w =>
    if ws_close_throws (env w) then (Throw "socket.close failed", w)
    else
      (Normal tt,
       set_sockets
         (alter (fun s => mkSocket JS.CLOSING (frames s) (Some (code, reason)))
            k (sockets w)) w).

(** [this.ws && this.ws.readyState === WebSocket.OPEN]. *)
Definition ws_is_open (w : World) : bool :=
  match ws w with
  | None => false
  | Some k => match sockets w !! k with
              | Some s => JS.is_open (readyState s)
              | None => false
              end
  end.

End Node.

(** ** AssemblyAIStreaming: the upstream transcription client *)

Module AssemblyAIStreaming.

Import Node.

(** A parsed upstream message, by the fields the handler reads; a string
    field that is absent is empty, a flag that is absent is [false]. *)
Record Message : Type := mkMessage {
  type : string;
  message_type : string;
  transcript : string;
  end_of_turn : bool;
  end_of_turn_confidence : JS.Value
}.

Definition hasProperFormatting (transcript : string) : bool :=
  JS.includes "." transcript
  || JS.includes "," transcript
  || JS.includes "!" transcript
  || JS.includes "?" transcript
  || JS.test_A_Z transcript.

(** The objects handed to [onMessage]. *)
Definition turn (text : string) (partial final : bool) (confidence : JS.Value)
  : JS.Obj :=
  [("text", JS.VString text); ("partial", JS.VBool partial);
   ("final", JS.VBool final); ("confidence", confidence)]%string.

Definition session_begins : JS.Obj :=
  [("type", JS.VString "session_begins");
   ("message", JS.VString "Session started")]%string.

Definition session_terminated : JS.Obj :=
  [("type", JS.VString "session_terminated");
   ("message", JS.VString "Session terminated")]%string.

(** The body of the "message" handler, as a function of the parsed
    message: the object it passes to [onMessage], if any. *)
Definition classify (message : Message) : option JS.Obj :=
  if String.eqb (type message) "Turn" then
    if JS.truthy (transcript message) then
      let isPartial := negb (end_of_turn message) in
      if isPartial then
        Some (turn (transcript message) true false (end_of_turn_confidence message))
      else if end_of_turn message then
        if hasProperFormatting (transcript message) then
          Some (turn (transcript message) false true (end_of_turn_confidence message))
        else None
      else None
    else None
  else if String.eqb (message_type message) "SessionBegins" then
    Some session_begins
  else if String.eqb (message_type message) "SessionTerminated" then
    Some session_terminated
  else None.

(** The text has recognisable sentence formatting, in the words of the
    specification: it contains one of the marks . , ! ? or an upper-case
    letter. *)
Definition spec_formatted (text : string) : Prop :=
  exists c : ascii,
    In c (list_ascii_of_string text)
    /\ (c = "."%char \/ c = ","%char \/ c = "!"%char \/ c = "?"%char
        \/ JS.is_upper_case c = true).

(** The rule of the specification for an end-of-turn message: the final
    event is emitted exactly when the text is formatted. *)
Definition spec_formatting_rule : Prop :=
  forall message : Message,
    type message = "Turn"%string -> end_of_turn message = true ->
    (spec_formatted (transcript message)
     <-> classify message
         = Some (turn (transcript message) false true
                   (end_of_turn_confidence message))).

(** The narrower formatting that the code tests: one of the marks . , ! ?
    or a letter from A to Z. *)
Definition formatted (text : string) : Prop :=
  exists c : ascii,
    In c (list_ascii_of_string text)
    /\ (c = "."%char \/ c = ","%char \/ c = "!"%char \/ c = "?"%char
        \/ (65 <= N_of_ascii c <= 90)%N).

(** [connect(onMessage, onError, onClose)].  The handlers it installs on
    the socket are the four functions that follow, which receive the
    callback they call. *)
Definition connect (onMessage : JS.Obj -> M World unit)
    (onError : string -> M World unit)
    (onClose : Z -> string -> M World unit) : M World unit :=
  try_catch
    (key ← gets apiKey;
     if match key with Some k => JS.truthy k | None => false end
     then k ← new_WebSocket; modify (set_ws (Some k))
     else throw "AssemblyAI API key is required")
    (fun error => onError error).

(** The event handlers of the socket number [k].  [data] is [None] when
    [JSON.parse] throws; whatever is thrown under the "message" handler is
    swallowed. *)
Definition on_open (k : nat) : M World unit := mret tt.

Definition on_message (onMessage : JS.Obj -> M World unit)
    (k : nat) (data : option Message) : M World unit :=
  try_catch
    match data with
    | None => throw "SyntaxError"
    | Some message =>
        match classify message with
        | Some event => onMessage event
        | None => mret tt
        end
    end
    (fun _ => mret tt).

Definition on_error (onError : string -> M World unit)
    (k : nat) (error : string) : M World unit := onError error.

Definition on_close (onClose : Z -> string -> M World unit)
    (k : nat) (code : Z) (reason : string) : M World unit :=
  onClose code reason.

(** [sendAudio(base64AudioChunk)]. *)
Definition sendAudio (base64AudioChunk : string) : M World unit :=
  w ← gets id;
  if ws_is_open w then
    match ws w with
    | Some k => try_catch (socket_send k base64AudioChunk) (fun error => throw error)
    | None => throw "AssemblyAI WebSocket not connected"
    end
  else throw "AssemblyAI WebSocket not connected".

(** [terminate()]. *)
Definition terminate : M World unit :=
  w ← gets id;
  (if ws_is_open w then
     match ws w with
     | Some k =>
         try_catch (socket_close k 1000 "Session terminated by user")
           (fun _ => mret tt)
     | None => mret tt
     end
   else mret tt);;
  modify (set_ws None).

End AssemblyAIStreaming.

(** ** The session proxy: the connection handler of the server *)

Module Server.

Import Node.

Open Scope string_scope.

(** The messages of the server to its client. *)
Definition connection_established : JS.Obj :=
  [("type", JS.VString "connection_established");
   ("message", JS.VString "WebSocket connection established successfully")].

Definition assemblyai_connected : JS.Obj :=
  [("type", JS.VString "assemblyai_connected");
   ("message", JS.VString "AssemblyAI connection established successfully")].

Definition assemblyai_error (message : string) : JS.Obj :=
  [("type", JS.VString "assemblyai_error");
   ("error", JS.VString ("Failed to connect to AssemblyAI: " ++ message))].

Definition session_terminated : JS.Obj :=
  [("type", JS.VString "session_terminated");
   ("message", JS.VString "AssemblyAI session terminated successfully")].

Definition termination_error (message : string) : JS.Obj :=
  [("type", JS.VString "termination_error");
   ("error", JS.VString ("Failed to terminate AssemblyAI session: " ++ message))].

Definition error (message : string) : JS.Obj :=
  [("error", JS.VString message)].

(** [try { client.send(...) } catch (sendError) { }]. *)
Definition try_send (payload : JS.Obj) : M World unit :=
  try_catch (client_send payload) (fun _ => mret tt).

(** The state of [wss.on("connection")] once it has greeted the client. *)
Definition connection (assemblyAIKey : option string) (e : Env) : World :=
  {| isSessionActive := false; isTerminating := false;
     apiKey := assemblyAIKey; ws := None; sockets := [];
     outbox := [connection_established]; env := e |}.

(** The callbacks [connectToAssemblyAI] gives to [assemblyAI.connect]. *)
Definition onMessage (data : JS.Obj) : M World unit := try_send data.

Definition onError (message : string) : M World unit :=
  modify (set_isSessionActive false);;
  try_send (error ("AssemblyAI connection error: " ++ message)).

Definition onClose (code : Z) (reason : string) : M World unit :=
  modify (set_isSessionActive false);;
  try_catch
    (if (code =? 4001)%Z then client_send (error "Invalid AssemblyAI API key")
     else if (code =? 4105)%Z then client_send (error "AssemblyAI model deprecated")
     else client_send
            (error ("AssemblyAI connection closed: " ++ pretty code ++ " - " ++ reason)))
    (fun _ => mret tt).

(** [connectToAssemblyAI()] run to its end: the part before
    [await assemblyAI.connect(...)] followed at once by the part after it,
    as when nothing else is handled in between.  [EventLoop] below cuts
    the function at the [await]. *)
Definition connectToAssemblyAI : M World unit :=
  w ← gets id;
  if isSessionActive w || isTerminating w then mret tt
  else
    try_catch
      (AssemblyAIStreaming.connect onMessage onError onClose;;
       modify (set_isSessionActive true);;
       try_send assemblyai_connected)
      (fun connectionError =>
         modify (set_isSessionActive false);;
         try_send (assemblyai_error connectionError)).

(** A parsed client message, by the fields the handler reads. *)
Record ClientData : Type := mkClientData {
  terminate_session : bool;
  audio_data : string
}.

(** The audio-data branch of the "message" handler, run to its end in the
    same way: [await connectToAssemblyAI()] followed at once by the test
    that guards [sendAudio]. *)
Definition forward_audio (data : ClientData) : M World unit :=
  w ← gets id;
  (if negb (isSessionActive w) && negb (isTerminating w)
   then connectToAssemblyAI else mret tt);;
  w ← gets id;
  if isSessionActive w && negb (isTerminating w) && ws_is_open w
  then try_catch (AssemblyAIStreaming.sendAudio (audio_data data))
         (fun _ => mret tt)
  else mret tt.

(** The terminate-session branch of the "message" handler. *)
Definition terminate_branch : M World unit :=
  modify (set_isSessionActive false);;
  modify (set_isTerminating true);;
  try_finally
    (try_catch
       (AssemblyAIStreaming.terminate;;
        try_send session_terminated)
       (fun message => try_send (termination_error message)))
    (modify (set_isTerminating false)).

(** [client.on("message")]; [msg] is [None] when [JSON.parse] throws. *)
Definition on_message (msg : option ClientData) : M World unit :=
  try_catch
    match msg with
    | None => throw "SyntaxError"
    | Some data =>
        if terminate_session data then terminate_branch
        else if JS.truthy (audio_data data) then forward_audio data
        else mret tt
    end
    (fun _ => client_send (error "Invalid message format")).

(** [client.on("close")] and [client.on("error")]. *)
Definition on_close : M World unit :=
  w ← gets id;
  if isSessionActive w
  then AssemblyAIStreaming.terminate;; modify (set_isSessionActive false)
  else mret tt.

Definition on_error : M World unit := on_close.

(** The events of a connection: those of the client channel and those of
    the upstream sockets (the library updates the ready state before it
    runs the handler). *)
Inductive Event : Type :=
| ClientMessage (msg : option ClientData)
| ClientClose
| ClientError
| UpstreamOpen (k : nat)
| UpstreamMessage (k : nat) (data : option AssemblyAIStreaming.Message)
| UpstreamError (k : nat) (message : string)
| UpstreamClose (k : nat) (code : Z) (reason : string).

Definition set_readyState (k : nat) (r : JS.ReadyState) : M World unit :=
  modify (fun w =>
    set_sockets
      (alter (fun s => mkSocket r (frames s) (closeArgs s)) k (sockets w)) w).

Definition step (e : Event) : M World unit :=
  match e with
  | ClientMessage msg => on_message msg
  | ClientClose => on_close
  | ClientError => on_error
  | UpstreamOpen k => set_readyState k JS.OPEN;; AssemblyAIStreaming.on_open k
  | UpstreamMessage k data => AssemblyAIStreaming.on_message onMessage k data
  | UpstreamError k message => AssemblyAIStreaming.on_error onError k message
  | UpstreamClose k code reason =>
      set_readyState k JS.CLOSED;; AssemblyAIStreaming.on_close onClose k code reason
  end.

(** A trace of events, each handled to its end before the next one is
    delivered; an exception that escapes a handler is lost.  The traces
    in which an event is delivered while the handler of an audio frame
    waits at an [await] are those of [EventLoop.run]. *)
Fixpoint run (events : list Event) (w : World) : World :=
  match events with
  | [] => w
  | e :: events' => run events' (snd (step e w))
  end.

(** The upstream connection the proxy holds is live: its handle refers to
    a socket that is connecting or open. *)
Definition live_upstream (w : World) : bool :=
  match ws w with
  | None => false
  | Some k => match sockets w !! k with
              | Some s => match readyState s with
                          | JS.CONNECTING | JS.OPEN => true
                          | _ => false
                          end
              | None => false
              end
  end.

(** The states of the proxy, read from its two flags.  The code keeps no
    flag for Connecting: that state lasts while a handler waits for
    [assemblyAI.connect]. *)
Inductive ProxyState : Type := Idle | Active | Terminating.

Definition state (w : World) : ProxyState :=
  if isTerminating w then Terminating
  else if isSessionActive w then Active else Idle.

(** The specification's rule for a failed upstream connection: an audio
    frame that finds the proxy idle and leaves it without a live upstream
    connection leaves it idle, with an error sent to the client and no
    [assemblyai_connected]. *)
Definition spec_connect_failure_rule : Prop :=
  forall (w : World) (data : ClientData),
    state w = Idle ->
    terminate_session data = false -> JS.truthy (audio_data data) = true ->
    let w' := snd (on_message (Some data) w) in
    live_upstream w' = false ->
    state w' = Idle
    /\ (exists message, In (error message) (drop (length (outbox w)) (outbox w')))
    /\ ~ In assemblyai_connected (drop (length (outbox w)) (outbox w')).

(** The event is an audio frame that finds the proxy inactive: the only
    event that opens an upstream connection. *)
Definition opens_upstream (e : Event) (w : World) : bool :=
  match e with
  | ClientMessage (Some data) =>
      negb (terminate_session data)
      && JS.truthy (audio_data data)
      && negb (isSessionActive w) && negb (isTerminating w)
  | _ => false
  end.

(** The socket number [k] of a list has never been sent a frame nor been
    asked to close; it is out of reach when moreover the proxy holds no
    handle to it. *)
Definition untouched (k : nat) (l : list Socket) : Prop :=
  exists s, l !! k = Some s /\ closeArgs s = None /\ frames s = [].

Definition out_of_reach (k : nat) (w : World) : Prop :=
  ws w <> Some k /\ untouched k (sockets w).

(** The handle, when there is one, refers to a socket that exists. *)
Definition handle_valid (w : World) : Prop :=
  forall k, ws w = Some k -> (k < length (sockets w))%nat.

End Server.

(** ** The session proxy and the event loop

    The "message" handler of the client channel and [connectToAssemblyAI]
    are [async] functions: at an [await] they return to the event loop,
    and what follows the [await] runs later, as a microtask.  Events that
    the loop delivers in the meantime find the state the first part left.
    Here the handlers are cut at their [await]s, and a trace says when
    each continuation runs. *)

Module EventLoop.

Import Node.

Open Scope string_scope.

(** The continuations that wait in the microtask queue: what follows
    [await assemblyAI.connect(...)] in [connectToAssemblyAI], with the
    outcome of the promise awaited, and what follows
    [await connectToAssemblyAI()] in the handler of the frame [data]. *)
Inductive Task : Type :=
| AfterConnect (outcome : Completion unit) (data : Server.ClientData)
| AfterConnectToAssemblyAI (data : Server.ClientData).

(** [connectToAssemblyAI()] up to its [await]: [None] when it returns at
    its first line, otherwise the outcome of [assemblyAI.connect(...)],
    which has run to its end ([connect] contains no [await]). *)
Definition connectToAssemblyAI_begin : M World (option (Completion unit)) :=
  fun w =>
    if isSessionActive w || isTerminating w then (Normal None, w)
    else
      let '(outcome, w') :=
        AssemblyAIStreaming.connect Server.onMessage Server.onError Server.onClose w in
      (Normal (Some outcome), w').

(** [connectToAssemblyAI()] from its [await] on: a rejected promise makes
    the [await] throw into the [catch]. *)
Definition connectToAssemblyAI_resume (outcome : Completion unit) : M World unit :=
  try_catch
    (match outcome with
     | Normal _ => mret tt
     | Throw connectionError => throw connectionError
     end;;
     modify (set_isSessionActive true);;
     Server.try_send Server.assemblyai_connected)
    (fun connectionError =>
       modify (set_isSessionActive false);;
       Server.try_send (Server.assemblyai_error connectionError)).

(** The second test of the audio-data branch, with [sendAudio]. *)
Definition send_if_open (data : Server.ClientData) : M World unit :=
  w ← gets id;
  if isSessionActive w && negb (isTerminating w) && ws_is_open w
  then try_catch (AssemblyAIStreaming.sendAudio (Server.audio_data data))
         (fun _ => mret tt)
  else mret tt.

(** The audio-data branch up to [await connectToAssemblyAI()], with the
    continuation it leaves; when the first test fails there is no [await]
    and the branch runs to its end. *)
Definition forward_audio_begin (data : Server.ClientData) : M World (list Task) :=
  w ← gets id;
  if negb (isSessionActive w) && negb (isTerminating w) then
    promise ← connectToAssemblyAI_begin;
    match promise with
    | Some outcome => mret [AfterConnect outcome data]
    | None => mret [AfterConnectToAssemblyAI data]
    end
  else send_if_open data;; mret [].

(** [client.on("message")] up to its first [await]. *)
Definition on_message_begin (msg : option Server.ClientData) : M World (list Task) :=
  try_catch
    match msg with
    | None => throw "SyntaxError"
    | Some data =>
        if Server.terminate_session data then Server.terminate_branch;; mret []
        else if JS.truthy (Server.audio_data data) then forward_audio_begin data
        else mret []
    end
    (fun _ => client_send (Server.error "Invalid message format");; mret []).

(** A continuation runs: once [connectToAssemblyAI] has returned, the
    handler that awaits it is queued in its turn; the rest of the handler
    is still under its [try]. *)
Definition resume (task : Task) : M World (list Task) :=
  match task with
  | AfterConnect outcome data =>
      connectToAssemblyAI_resume outcome;;
      mret [AfterConnectToAssemblyAI data]
  | AfterConnectToAssemblyAI data =>
      try_catch (send_if_open data;; mret [])
        (fun _ => client_send (Server.error "Invalid message format");; mret [])
  end.

(** An event is delivered: its handler runs up to its first [await].
    Only the handler of a client message has one. *)
Definition deliver (e : Server.Event) : M World (list Task) :=
  match e with
  | Server.ClientMessage msg => on_message_begin msg
  | _ => Server.step e;; mret []
  end.

(** The state of a connection with the continuations that wait, first
    queued first. *)
Record t : Type := mk {
  world : World;
  microtasks : list Task
}.

(** What the loop does next: it delivers an event, or it runs the first
    continuation of the queue.  Node empties the queue before it takes the
    next event from the network, except between the frames that arrive
    together, whose events are emitted one after the other; a trace may
    deliver an event at any time, which covers both. *)
Inductive Action : Type :=
| Deliver (e : Server.Event)
| Microtask.

Definition spawned (r : Completion (list Task)) : list Task :=
  match r with Normal tasks => tasks | Throw _ => [] end.

Definition step (a : Action) (l : t) : t :=
  match a with
  | Deliver e =>
      let '(r, w) := deliver e (world l) in
      mk w (microtasks l ++ spawned r)
  | Microtask =>
      match microtasks l with
      | [] => l
      | task :: queue =>
          let '(r, w) := resume task (world l) in
          mk w (queue ++ spawned r)
      end
  end.

Fixpoint run (actions : list Action) (l : t) : t :=
  match actions with
  | [] => l
  | a :: actions' => run actions' (step a l)
  end.

Definition start (w : World) : t := mk w [].

(** An event handled alone: it is delivered, and the continuations of its
    handler, two at most, run before anything else is delivered. *)
Definition alone (e : Server.Event) : list Action :=
  [Deliver e; Microtask; Microtask].

(** The result of a handler that leaves no continuation. *)
Definition no_task (r : Completion unit * World)
  : Completion (list Task) * World :=
  (match fst r with Normal _ => Normal [] | Throw error => Throw error end,
   snd r).

(** The state once a socket has been created and taken as the handle,
    once a payload has been passed to [client.send], and once a frame has
    been handed to the socket of the handle. *)
Definition opened (w : World) : World :=
  set_ws (Some (length (sockets w)))
    (set_sockets (sockets w ++ [mkSocket JS.CONNECTING [] None]) w).

Definition told (payload : JS.Obj) (w : World) : World :=
  set_outbox (outbox w ++ [payload]) w.

Definition handed (data : Server.ClientData) (w : World) : World :=
  match ws w with
  | Some k =>
      if ws_is_open w && negb (ws_send_throws (env w))
      then set_sockets
             (alter (fun s => mkSocket (readyState s)
                                (frames s ++ [Server.audio_data data])
                                (closeArgs s)) k (sockets w)) w
      else w
  | None => w
  end.

(** The event that ends the session the proxy holds: a terminate-session
    request, or the close or the error of the client channel once
    [connectToAssemblyAI] has resumed, which [n] continuations run after
    the first frame ensure when [n] is not zero. *)
Definition ends_session_after (n : nat) (e : Server.Event) : Prop :=
  match e with
  | Server.ClientMessage (Some stop) => Server.terminate_session stop = true
  | Server.ClientClose | Server.ClientError => (1 <= n)%nat
  | _ => False
  end.

End EventLoop.

(** ** useRecorder: sample quantisation *)

Module Recorder.

(** One iteration of the loop of [convertToBase64]:
    [int16Array[i] = Math.max(-32768, Math.min(32767, float32Array[i] * 32768))]. *)
Definition convertSample (x : float) : Z :=
  JS.ToInt16
    (JS.Math_max (-32768)%float (JS.Math_min 32767%float (x * 32768)%float)).

Definition toInt16Array (float32Array : list float) : list Z :=
  map convertSample float32Array.

(** The [Uint8Array] view of the [Int16Array] buffer: two bytes per
    sample, low byte first. *)
Definition sample_bytes (v : Z) : list Z :=
  let u := v mod 65536 in [u mod 256; u / 256].

Definition toUint8Array (int16Array : list Z) : list Z :=
  flat_map sample_bytes int16Array.

(** Reading a little-endian byte pair back as a signed 16-bit sample. *)
Definition decode_sample (lo hi : Z) : Z :=
  let u := lo + 256 * hi in
  if 32768 <=? u then u - 65536 else u.

End Recorder.


(** ** AudioProcessor: the framing worklet *)

Module AudioProcessor.

Section Worklet.

(** The type of a sample (a float32 in the browser), with the value a
    fresh [Float32Array] is filled with. *)
Context {A : Type} (zero : A).

(** The fields of the processor, and [port]: the messages posted on
    [this.port] so far, oldest first. *)
Record t : Type := mk {
  bufferSize : nat;
  buffer : list A;
  bufferIndex : nat;
  port : list (list A)
}.

Definition constructor : t :=
  {| bufferSize := 4096;
     buffer := replicate 4096 zero;
     bufferIndex := 0;
     port := [] |}.

(** The body of the [for] loop of [process] for one sample: store it,
    advance the index, and post a copy of the buffer when it is full.  A
    store outside a typed array is ignored, as is an insertion outside a
    list. *)
Definition store (p : t) (sample : A) : t :=
  let buffer' := <[bufferIndex p := sample]> (buffer p) in
  let bufferIndex' := S (bufferIndex p) in
  if (bufferSize p <=? bufferIndex')%nat
  then {| bufferSize := bufferSize p; buffer := buffer';
          bufferIndex := 0; port := port p ++ [buffer'] |}
  else {| bufferSize := bufferSize p; buffer := buffer';
          bufferIndex := bufferIndex'; port := port p |}.

(** [process(inputs)], applied to [input = inputs[0]], the channels of
    the single input of the node: only the first channel is read, and a
    call without channels does nothing. *)
Definition process (p : t) (input : list (list A)) : t :=
  match input with
  | [] => p
  | inputData :: _ => fold_left store inputData p
  end.

(** The render quanta of a capture, in order. *)
Definition run (p : t) (calls : list (list (list A))) : t :=
  fold_left process calls p.

(** The samples a call captures, and those of a whole capture. *)
Definition captured (input : list (list A)) : list A :=
  match input with [] => [] | inputData :: _ => inputData end.

Definition samples (calls : list (list (list A))) : list A :=
  concat (map captured calls).

(** What holds of a processor that has consumed the samples [s] since it
    was built: the frames posted so far followed by the filled part of the
    buffer are [s], and every posted frame is a full buffer. *)
Record framed (p : t) (s : list A) : Prop := {
  framed_size : (0 < bufferSize p)%nat;
  framed_buffer : length (buffer p) = bufferSize p;
  framed_index : (bufferIndex p < bufferSize p)%nat;
  framed_frames : Forall (fun f => length f = bufferSize p) (port p);
  framed_data : concat (port p) ++ take (bufferIndex p) (buffer p) = s
}.

End Worklet.

Arguments t : clear implicits.

End AudioProcessor.

(** ** WebSocketManager: the client session channel *)

Module WebSocketManager.

(** A registered observer is known by its identity; a JavaScript [Set]
    keeps its members in insertion order, without repetition. *)
Definition Handler : Type := nat.

Definition Set_add (h : Handler) (s : list Handler) : list Handler :=
  if bool_decide (h ∈ s) then s else s ++ [h].

Definition Set_delete (h : Handler) (s : list Handler) : list Handler :=
  filter (fun x => x ≠ h) s.

(** The timers the manager sets: the connection timeout of the socket
    number [k], and the delayed reconnection. *)
Inductive Timer : Type :=
| ConnectionTimeout (k : nat)
| Reconnect.

(** What a method or a callback does to the world outside the object, in
    the order it does it.  [Resolve k] and [Reject k] settle the promise
    returned by the call of [connect] that created the socket [k]; only
    the first settlement of a promise has an effect. *)
Inductive Effect : Type :=
| NewWebSocket (k : nat) (url : string)
| SetTimeout (timer : Timer) (ms : Z)
| ClearTimeout (timer : Timer)
| ReturnResolved
| Resolve (k : nat)
| Reject (k : nat) (error : string)
| CallMessageHandler (h : Handler) (data : string)
| CallErrorHandler (h : Handler) (error : string)
| CallCloseHandler (h : Handler) (code : Z)
| SocketSend (k : nat) (message : string)
| SocketClose (k : nat)
| Uncaught (error : string).

(** The fields of the object, followed by [sockets]: the ready state of
    the [WebSocket] objects created so far, which belong to the browser
    and are referred to by their rank of creation. *)
Record t : Type := mk {
  url : string;
  ws : option nat;
  isConnected : bool;
  isConnecting : bool;
  reconnectAttempts : nat;
  maxReconnectAttempts : nat;
  reconnectDelay : Z;
  intentionalClose : bool;
  messageHandlers : list Handler;
  errorHandlers : list Handler;
  closeHandlers : list Handler;
  sockets : list JS.ReadyState
}.

Definition constructor (url : string) : t :=
  {| url := url; ws := None; isConnected := false; isConnecting := false;
     reconnectAttempts := 0; maxReconnectAttempts := 5; reconnectDelay := 1000;
     intentionalClose := false;
     messageHandlers := []; errorHandlers := []; closeHandlers := [];
     sockets := [] |}.

Definition set_ws (v : option nat) (m : t) : t :=
  mk (url m) v (isConnected m) (isConnecting m) (reconnectAttempts m)
     (maxReconnectAttempts m) (reconnectDelay m) (intentionalClose m)
     (messageHandlers m) (errorHandlers m) (closeHandlers m) (sockets m).

Definition set_isConnected (v : bool) (m : t) : t :=
  mk (url m) (ws m) v (isConnecting m) (reconnectAttempts m)
     (maxReconnectAttempts m) (reconnectDelay m) (intentionalClose m)
     (messageHandlers m) (errorHandlers m) (closeHandlers m) (sockets m).

Definition set_isConnecting (v : bool) (m : t) : t :=
  mk (url m) (ws m) (isConnected m) v (reconnectAttempts m)
     (maxReconnectAttempts m) (reconnectDelay m) (intentionalClose m)
     (messageHandlers m) (errorHandlers m) (closeHandlers m) (sockets m).

Definition set_reconnectAttempts (v : nat) (m : t) : t :=
  mk (url m) (ws m) (isConnected m) (isConnecting m) v
     (maxReconnectAttempts m) (reconnectDelay m) (intentionalClose m)
     (messageHandlers m) (errorHandlers m) (closeHandlers m) (sockets m).

Definition set_intentionalClose (v : bool) (m : t) : t :=
  mk (url m) (ws m) (isConnected m) (isConnecting m) (reconnectAttempts m)
     (maxReconnectAttempts m) (reconnectDelay m) v
     (messageHandlers m) (errorHandlers m) (closeHandlers m) (sockets m).

Definition set_messageHandlers (v : list Handler) (m : t) : t :=
  mk (url m) (ws m) (isConnected m) (isConnecting m) (reconnectAttempts m)
     (maxReconnectAttempts m) (reconnectDelay m) (intentionalClose m)
     v (errorHandlers m) (closeHandlers m) (sockets m).

Definition set_errorHandlers (v : list Handler) (m : t) : t :=
  mk (url m) (ws m) (isConnected m) (isConnecting m) (reconnectAttempts m)
     (maxReconnectAttempts m) (reconnectDelay m) (intentionalClose m)
     (messageHandlers m) v (closeHandlers m) (sockets m).

Definition set_closeHandlers (v : list Handler) (m : t) : t :=
  mk (url m) (ws m) (isConnected m) (isConnecting m) (reconnectAttempts m)
     (maxReconnectAttempts m) (reconnectDelay m) (intentionalClose m)
     (messageHandlers m) (errorHandlers m) v (sockets m).

Definition set_sockets (v : list JS.ReadyState) (m : t) : t :=
  mk (url m) (ws m) (isConnected m) (isConnecting m) (reconnectAttempts m)
     (maxReconnectAttempts m) (reconnectDelay m) (intentionalClose m)
     (messageHandlers m) (errorHandlers m) (closeHandlers m) v.

(** Observer registration. *)
Definition onMessage (h : Handler) (m : t) : t :=
  set_messageHandlers (Set_add h (messageHandlers m)) m.
Definition offMessage (h : Handler) (m : t) : t :=
  set_messageHandlers (Set_delete h (messageHandlers m)) m.
Definition onError (h : Handler) (m : t) : t :=
  set_errorHandlers (Set_add h (errorHandlers m)) m.
Definition offError (h : Handler) (m : t) : t :=
  set_errorHandlers (Set_delete h (errorHandlers m)) m.
Definition onClose (h : Handler) (m : t) : t :=
  set_closeHandlers (Set_add h (closeHandlers m)) m.
Definition offClose (h : Handler) (m : t) : t :=
  set_closeHandlers (Set_delete h (closeHandlers m)) m.

(** [this.ws && this.ws.readyState === WebSocket.OPEN]. *)
Definition ws_is_open (m : t) : bool :=
  match ws m with
  | None => false
  | Some j => match sockets m !! j with
              | Some r => JS.is_open r
              | None => false
              end
  end.

(** [connect()]: returns at once when connected or connecting; otherwise
    creates the socket, arms its 10000 ms timeout and installs the four
    callbacks below. *)
Definition connect (m : t) : t * list Effect :=
  if isConnecting m || isConnected m then (m, [ReturnResolved])
  else
    let k := length (sockets m) in
    (set_sockets (sockets m ++ [JS.CONNECTING])
       (set_ws (Some k) (set_isConnecting true m)),
     [NewWebSocket k (url m); SetTimeout (ConnectionTimeout k) 10000]).

(** The callback of the connection timeout armed with the socket [k].  It
    reads [this.ws], the handle of the manager at the time it runs. *)
Definition connectionTimeout (k : nat) (m : t) : t * list Effect :=
  match ws m with
  | None => (m, [Uncaught "TypeError: Cannot read properties of null"])
  | Some j =>
      if match sockets m !! j with Some r => JS.is_open r | None => false end
      then (m, [])
      else (set_isConnecting false m, [Reject k "Connection timeout"])
  end.

(** [this.ws.onopen] of the socket [k]. *)
Definition onopen (k : nat) (m : t) : t * list Effect :=
  (set_reconnectAttempts 0 (set_isConnecting false (set_isConnected true m)),
   [ClearTimeout (ConnectionTimeout k); Resolve k]).

(** [this.ws.onmessage]: [data] is [None] when [JSON.parse] throws; an
    observer that throws does not stop the others. *)
Definition onmessage (data : option string) (m : t) : t * list Effect :=
  match data with
  | None => (m, [])
  | Some d => (m, map (fun h => CallMessageHandler h d) (messageHandlers m))
  end.

(** [attemptReconnect()]. *)
Definition attemptReconnect (m : t) : t * list Effect :=
  if (maxReconnectAttempts m <=? reconnectAttempts m)%nat then (m, [])
  else
    let m' := set_reconnectAttempts (S (reconnectAttempts m)) m in
    let delay := reconnectDelay m' * 2 ^ Z.of_nat (reconnectAttempts m' - 1) in
    (m', [SetTimeout Reconnect delay]).

(** [this.ws.onclose] of the socket [k], for a close event with [code]. *)
Definition onclose (k : nat) (code : Z) (m : t) : t * list Effect :=
  let m1 := set_isConnecting false (set_isConnected false m) in
  let notify := map (fun h => CallCloseHandler h code) (closeHandlers m1) in
  let '(m2, scheduled) :=
    if negb (code =? 1000)
       && (reconnectAttempts m1 <? maxReconnectAttempts m1)%nat
       && negb (intentionalClose m1)
    then attemptReconnect m1
    else (m1, []) in
  (set_intentionalClose false m2,
   ClearTimeout (ConnectionTimeout k) :: notify ++ scheduled).

(** [this.ws.onerror] of the socket [k]. *)
Definition onerror (k : nat) (error : string) (m : t) : t * list Effect :=
  let m1 := set_isConnecting false (set_isConnected false m) in
  (m1,
   ClearTimeout (ConnectionTimeout k)
     :: map (fun h => CallErrorHandler h error) (errorHandlers m1)
     ++ [Reject k error]).

(** The callback of the reconnection timer: [connect()], a rejection of
    which is swallowed. *)
Definition reconnect (m : t) : t * list Effect := connect m.

(** [send(data)].  The result is [None] when the method throws
    "WebSocket not connected". *)
Definition send (message : string) (m : t) : option bool * list Effect :=
  match ws m with
  | Some j => if ws_is_open m then (Some true, [SocketSend j message])
              else (None, [])
  | None => (None, [])
  end.

(** [close()]: closing a socket that is not yet closed makes it
    [CLOSING]; its close event comes later. *)
Definition close (m : t) : t * list Effect :=
  match ws m with
  | Some j =>
      let closing r :=
        match r with JS.CLOSED => JS.CLOSED | _ => JS.CLOSING end in
      (set_isConnecting false (set_isConnected false
         (set_ws None (set_sockets (alter closing j (sockets m)) m))),
       [SocketClose j])
  | None => (set_isConnecting false (set_isConnected false m), [])
  end.

(** [closeIntentionally()]. *)
Definition closeIntentionally (m : t) : t * list Effect :=
  close (set_intentionalClose true m).

(** The events of a channel: the calls of its user, the events of its
    sockets (the browser updates the ready state before it runs the
    callback) and the timers. *)
Inductive Event : Type :=
| CallConnect
| CallClose
| CallCloseIntentionally
| SocketOpen (k : nat)
| SocketMessage (k : nat) (data : option string)
| SocketError (k : nat) (error : string)
| SocketClosed (k : nat) (code : Z)
| ConnectionTimeoutFires (k : nat)
| ReconnectFires.

Definition step (e : Event) (m : t) : t * list Effect :=
  match e with
  | CallConnect => connect m
  | CallClose => close m
  | CallCloseIntentionally => closeIntentionally m
  | SocketOpen k => onopen k (set_sockets (<[k := JS.OPEN]> (sockets m)) m)
  | SocketMessage k data => onmessage data m
  | SocketError k error => onerror k error m
  | SocketClosed k code =>
      onclose k code (set_sockets (<[k := JS.CLOSED]> (sockets m)) m)
  | ConnectionTimeoutFires k => connectionTimeout k m
  | ReconnectFires => reconnect m
  end.

Fixpoint run (events : list Event) (m : t) : t * list Effect :=
  match events with
  | [] => (m, [])
  | e :: events' =>
      let '(m1, effects1) := step e m in
      let '(m2, effects2) := run events' m1 in
      (m2, effects1 ++ effects2)
  end.

(** The delays of the reconnections scheduled by a list of effects. *)
Definition scheduled (effects : list Effect) : list Z :=
  flat_map (fun e => match e with
                     | SetTimeout Reconnect ms => [ms]
                     | _ => []
                     end) effects.

(** Whether an error observer is invoked by a list of effects. *)
Definition notifies_error (h : Handler) (effects : list Effect) : bool :=
  existsb (fun e => match e with
                    | CallErrorHandler h' _ => Nat.eqb h h'
                    | _ => false
                    end) effects.

(** Whether the promise of the socket [k] is rejected with [error]. *)
Definition rejects (k : nat) (error : string) (effects : list Effect) : bool :=
  existsb (fun e => match e with
                    | Reject k' error' => Nat.eqb k k' && String.eqb error error'
                    | _ => false
                    end) effects.

(** The delay as the specification words it, from the counter once it has
    been incremented: [baseDelay * 2^attempts]. *)
Definition spec_delay (m' : t) : Z :=
  reconnectDelay m' * 2 ^ Z.of_nat (reconnectAttempts m').

(** The condition under which the close callback calls
    [attemptReconnect]. *)
Definition reconnects (m : t) (code : Z) : bool :=
  negb (code =? 1000)
  && (reconnectAttempts m <? maxReconnectAttempts m)%nat
  && negb (intentionalClose m).

(** Traces: the abnormal closes of a trace, and the traces without a
    successful opening, without a close event or without a deliberate
    close. *)
Definition is_abnormal_close (e : Event) : bool :=
  match e with SocketClosed _ code => negb (code =? 1000) | _ => false end.

Definition abnormal_closes (events : list Event) : nat :=
  length (List.filter is_abnormal_close events).

Definition never_opens (events : list Event) : bool :=
  forallb (fun e => match e with SocketOpen _ => false | _ => true end) events.

Definition never_closes (events : list Event) : bool :=
  forallb (fun e => match e with SocketClosed _ _ => false | _ => true end) events.

Definition never_intentional (events : list Event) : bool :=
  forallb (fun e => match e with CallCloseIntentionally => false | _ => true end)
    events.

(** The specification's reading of the reconnection rule: an abnormal,
    unintentional close below the ceiling schedules one reconnection after
    [spec_delay] of the state it leaves. *)
Definition spec_reconnect_rule : Prop :=
  forall (m : t) (k : nat) (code : Z),
    code <> 1000 -> intentionalClose m = false ->
    (reconnectAttempts m < maxReconnectAttempts m)%nat ->
    scheduled (snd (onclose k code m)) = [spec_delay (fst (onclose k code m))].

(** The specification's reading of the connection timeout: when the timer
    armed by [connect()] fires on a socket that has not opened, the
    promise is rejected and every registered error observer is called. *)
Definition spec_timeout_rule : Prop :=
  forall (m : t) (h : Handler),
    isConnecting m = false -> isConnected m = false ->
    h ∈ errorHandlers m ->
    let k := length (sockets m) in
    let effects := snd (connectionTimeout k (fst (connect m))) in
    rejects k "Connection timeout" effects = true
    /\ notifies_error h effects = true.

(** What may happen between [connect()] and the firing of the timeout it
    armed for the socket [k], when no open acknowledgment arrives, the
    user does not close the channel and the socket [k] reports neither an
    error nor a close: calls of [connect()], messages, timers, and the
    events of other sockets. *)
Definition keeps_waiting (k : nat) (e : Event) : bool :=
  match e with
  | SocketOpen _ | CallClose | CallCloseIntentionally => false
  | SocketError k' _ | SocketClosed k' _ | ConnectionTimeoutFires k' =>
      negb (Nat.eqb k' k)
  | CallConnect | SocketMessage _ _ | ReconnectFires => true
  end.

(** The effect disarms the timeout of the socket [k] or settles the
    promise of its [connect()]. *)
Definition settles (k : nat) (effect : Effect) : bool :=
  match effect with
  | ClearTimeout (ConnectionTimeout k') | Resolve k' | Reject k' _ => Nat.eqb k' k
  | _ => false
  end.

(** The channel still waits for an open acknowledgment: its handle refers
    to the socket [k] or to a later one, and no socket from [k] on is
    open. *)
Definition waiting (k : nat) (m : t) : Prop :=
  (exists j, ws m = Some j /\ (k <= j < length (sockets m))%nat)
  /\ forall j r, (k <= j)%nat -> sockets m !! j = Some r -> JS.is_open r = false.

(** The remaining methods.  [JSON.stringify] is a parameter: only the
    objects it is applied to matter here. *)
Section Serialised.

Variable JSON_stringify : JS.Obj -> string.

(** [sendAudio(audioData)]: [send], whose exception it lets through. *)
Definition sendAudio (audioData : string) (m : t) : Completion unit * list Effect :=
  match send (JSON_stringify [("audio_data"%string, JS.VString audioData)]) m with
  | (Some _, effects) => (Normal tt, effects)
  | (None, effects) => (Throw "WebSocket not connected", effects)
  end.

(** [terminate()]: sends the request only on an open socket and rethrows
    what [send] throws. *)
Definition terminate (m : t) : Completion unit * list Effect :=
  if ws_is_open m then
    match send (JSON_stringify [("terminate_session"%string, JS.VBool true)]) m with
    | (Some _, effects) => (Normal tt, effects)
    | (None, effects) => (Throw "WebSocket not connected", effects)
    end
  else (Normal tt, []).

(** [forceTerminate()]: the same request with its exception swallowed,
    then [close()]. *)
Definition forceTerminate (m : t) : t * list Effect :=
  let sent :=
    if ws_is_open m
    then snd (send (JSON_stringify [("terminate_session"%string, JS.VBool true)]) m)
    else [] in
  (fst (close m), sent ++ snd (close m)).

End Serialised.

(** [getStatus()]. *)
Record Status : Type := mkStatus {
  status_isConnected : bool;
  status_isConnecting : bool;
  status_readyState : option JS.ReadyState
}.

Definition getStatus (m : t) : Status :=
  {| status_isConnected := isConnected m;
     status_isConnecting := isConnecting m;
     status_readyState :=
       match ws m with
       | Some j => sockets m !! j
       | None => None
       end |}.

(** How often a message observer is called by a list of effects, and the
    sockets a list of effects creates. *)
Definition message_calls (h : Handler) (effects : list Effect) : nat :=
  length (List.filter (fun e => match e with
                                | CallMessageHandler h' _ => Nat.eqb h h'
                                | _ => false
                                end) effects).

Definition created (effects : list Effect) : list nat :=
  flat_map (fun e => match e with NewWebSocket k _ => [k] | _ => [] end) effects.

End WebSocketManager.

(** ** Strings

    A string is the sequence of its code units, here below 256 (the
    Latin-1 range); the methods below are those of [String.prototype] on
    such strings. *)

Module JSString.

Open Scope string_scope.

(** White space, for [trim] and for [\s]: tab, line feed, vertical tab,
    form feed, carriage return, space and no-break space. *)
Definition is_space (c : ascii) : bool :=
  let n := N_of_ascii c in
  ((9 <=? n) && (n <=? 13) || (n =? 32) || (n =? 160))%N.

Fixpoint trimStart (s : string) : string :=
  match s with
  | EmptyString => EmptyString
  | String c s' => if is_space c then trimStart s' else s
  end.

Fixpoint trimEnd (s : string) : string :=
  match s with
  | EmptyString => EmptyString
  | String c s' =>
      match trimEnd s' with
      | EmptyString => if is_space c then EmptyString else String c EmptyString
      | t => String c t
      end
  end.

Definition trim (s : string) : string := trimEnd (trimStart s).

(** [toLowerCase]: the letters A to Z and the accented capitals from
    U+00C0 to U+00DE, the multiplication sign excepted, move up by 32. *)
Definition toLowerCase_char (c : ascii) : ascii :=
  let n := N_of_ascii c in
  if ((65 <=? n) && (n <=? 90)
      || (192 <=? n) && (n <=? 222) && negb (n =? 215))%N
  then ascii_of_N (n + 32) else c.

Fixpoint toLowerCase (s : string) : string :=
  match s with
  | EmptyString => EmptyString
  | String c s' => String (toLowerCase_char c) (toLowerCase s')
  end.

(** [s.split(sep)] for a separator of one character, [parts.join(sep)],
    and [s.split(sep)[0]]. *)
Fixpoint split (sep : ascii) (s : string) : list string :=
  match s with
  | EmptyString => [EmptyString]
  | String c s' =>
      if Ascii.eqb c sep then EmptyString :: split sep s'
      else match split sep s' with
           | [] => [String c EmptyString]
           | part :: parts => String c part :: parts
           end
  end.

Fixpoint join (sep : string) (parts : list string) : string :=
  match parts with
  | [] => EmptyString
  | [part] => part
  | part :: parts' => part ++ sep ++ join sep parts'
  end.

Definition first_part (sep : ascii) (s : string) : string :=
  match split sep s with
  | part :: _ => part
  | [] => EmptyString
  end.

(** [s.slice(n)] for [n] not negative, and [s.startsWith(prefix)]. *)
Fixpoint slice (n : nat) (s : string) : string :=
  match n, s with
  | O, _ => s
  | S n', String _ s' => slice n' s'
  | S _, EmptyString => EmptyString
  end.

Definition startsWith (prefix s : string) : bool := String.prefix prefix s.

(** [s.padStart(targetLength, padString)]. *)
Fixpoint fill (n : nat) (pad rest : string) : string :=
  match n with
  | O => EmptyString
  | S n' =>
      match rest with
      | String c rest' => String c (fill n' pad rest')
      | EmptyString =>
          match pad with
          | String c pad' => String c (fill n' pad pad')
          | EmptyString => EmptyString
          end
      end
  end.

Definition padStart (targetLength : nat) (padString s : string) : string :=
  if (targetLength <=? String.length s)%nat then s
  else fill (targetLength - String.length s) padString padString ++ s.

End JSString.

(** ** Timer: the elapsed-time display *)

Module Timer.

Open Scope string_scope.

(** [formatTime(totalSeconds)], for a count of seconds: [String(n)] of a
    count is its decimal writing. *)
Definition formatTime (totalSeconds : N) : string :=
  let hrs := (totalSeconds / 3600)%N in
  let mins := ((totalSeconds mod 3600) / 60)%N in
  let secs := (totalSeconds mod 60)%N in
  if (hrs =? 0)%N then
    JSString.padStart 2 "0" (pretty mins) ++ ":"
      ++ JSString.padStart 2 "0" (pretty secs)
  else
    pretty hrs ++ ":" ++ JSString.padStart 2 "0" (pretty mins) ++ ":"
      ++ JSString.padStart 2 "0" (pretty secs).

(** The writing of minutes and of seconds: two digits at least. *)
Definition two_digits (n : N) : string := JSString.padStart 2 "0" (pretty n).

(** The component: the count it shows, the identifier kept in
    [intervalRef.current], and the intervals of the browser that are
    running (identifiers are positive, hence truthy). *)
Record t : Type := mk {
  seconds : N;
  intervalRef : option positive;
  running : list positive;
  fresh : positive
}.

Definition initial : t :=
  {| seconds := 0; intervalRef := None; running := []; fresh := 1 |}.

Definition clearInterval (id : option positive) (intervals : list positive)
  : list positive :=
  match id with
  | Some i => List.filter (fun j => negb (Pos.eqb i j)) intervals
  | None => intervals
  end.

Definition start (c : t) : t :=
  match intervalRef c with
  | Some _ => c
  | None =>
      {| seconds := seconds c; intervalRef := Some (fresh c);
         running := running c ++ [fresh c]; fresh := Pos.succ (fresh c) |}
  end.

Definition stop (c : t) : t :=
  {| seconds := seconds c; intervalRef := None;
     running := clearInterval (intervalRef c) (running c); fresh := fresh c |}.

Definition reset (c : t) : t :=
  {| seconds := 0; intervalRef := None;
     running := clearInterval (intervalRef c) (running c); fresh := fresh c |}.

(** One second goes by: every running interval adds one. *)
Definition second_passes (c : t) : t :=
  {| seconds := seconds c + N.of_nat (length (running c));
     intervalRef := intervalRef c; running := running c; fresh := fresh c |}.

Inductive Event : Type := Start | Stop | Reset | SecondPasses.

Definition step (c : t) (e : Event) : t :=
  match e with
  | Start => start c
  | Stop => stop c
  | Reset => reset c
  | SecondPasses => second_passes c
  end.

Definition run (events : list Event) (c : t) : t := fold_left step events c.

End Timer.

(** ** CodeBlock: the fenced code blocks of an answer *)

Module CodeBlock.

Open Scope string_scope.

(** A block that is complete, and the block being read, whose code is
    still an array of lines. *)
Record Block : Type := mkBlock {
  language : string;
  code : string;
  startLine : nat;
  endLine : nat
}.

Record Current : Type := mkCurrent {
  cur_language : string;
  cur_code : list string;
  cur_startLine : nat;
  cur_endLine : nat
}.

(** The variables of the loop of [extractCodeBlocks]. *)
Record State : Type := mkState {
  codeBlocks : list Block;
  currentBlock : option Current;
  inCodeBlock : bool
}.

Definition newline : string := String "010"%char EmptyString.

Definition is_fence (line : string) : bool := JSString.startsWith "```" line.

(** [currentBlock.code = currentBlock.code.join("\n"); currentBlock.endLine
    = i; codeBlocks.push(currentBlock)]. *)
Definition finished (b : Current) (i : nat) : Block :=
  mkBlock (cur_language b) (JSString.join newline (cur_code b)) (cur_startLine b) i.

(** The body of the loop for the line number [i]. *)
Definition visit (i : nat) (line : string) (st : State) : State :=
  if is_fence line then
    if inCodeBlock st then
      match currentBlock st with
      | Some b => mkState (codeBlocks st ++ [finished b i]) None false
      | None => mkState (codeBlocks st) None false
      end
    else
      let language :=
        let l := JSString.trim (JSString.slice 3 line) in
        if JS.truthy l then l else "text" in
      mkState (codeBlocks st) (Some (mkCurrent language [] i i)) true
  else
    match inCodeBlock st, currentBlock st with
    | true, Some b =>
        mkState (codeBlocks st)
          (Some (mkCurrent (cur_language b) (cur_code b ++ [line])
                   (cur_startLine b) (cur_endLine b)))
          (inCodeBlock st)
    | _, _ => st
    end.

Fixpoint loop (i : nat) (lines : list string) (st : State) : State :=
  match lines with
  | [] => st
  | line :: rest => loop (S i) rest (visit i line st)
  end.

(** [extractCodeBlocks(content)], on the lines of the content and on the
    content itself. *)
Definition extractCodeBlocks_lines (lines : list string) : list Block :=
  let st := loop 0 lines (mkState [] None false) in
  match inCodeBlock st, currentBlock st with
  | true, Some b => codeBlocks st ++ [finished b (length lines - 1)]
  | _, _ => codeBlocks st
  end.

Definition extractCodeBlocks (content : string) : list Block :=
  extractCodeBlocks_lines (JSString.split "010"%char content).

(** [i >= block.startLine && i <= block.endLine], and the test of
    [renderContentWithCode]: the line [i] is part of a block. *)
Definition contains (i : nat) (block : Block) : bool :=
  (startLine block <=? i)%nat && (i <=? endLine block)%nat.

Definition isInCodeBlock (i : nat) (blocks : list Block) : bool :=
  existsb (contains i) blocks.

(** What [renderContentWithCode] hands to React: the content as a whole, or
    a list of elements, each with its key and with what it shows. The key of
    a text is [text-i], or [text-final] for the last one. *)
Inductive Element :=
| text_content (key : option nat) (textContent : string)
| code_block_container (key : nat) (block : Block).

Inductive Rendered :=
| ReactMarkdown (content : string)
| mixed_content (elements : list Element).

(** The text lines collected so far become one element, unless they are
    blank. *)
Definition flush (key : option nat) (elements : list Element)
    (currentTextLines : list string) : list Element :=
  if (0 <? length currentTextLines)%nat then
    let textContent := JSString.join newline currentTextLines in
    if JS.truthy (JSString.trim textContent)
    then elements ++ [text_content key textContent]
    else elements
  else elements.

(** The body of the loop of [renderContentWithCode] for the line [i]. *)
Definition render_visit (codeBlocks : list Block) (i : nat) (line : string)
    (st : list Element * list string) : list Element * list string :=
  let '(elements, currentTextLines) := st in
  if isInCodeBlock i codeBlocks then
    let elements := flush (Some i) elements currentTextLines in
    let currentTextLines :=
      if (0 <? length currentTextLines)%nat then [] else currentTextLines in
    match List.find (contains i) codeBlocks with
    | Some block =>
        if (i =? startLine block)%nat
        then ((elements ++ [code_block_container i block])%list,
              currentTextLines)
        else (elements, currentTextLines)
    | None => (elements, currentTextLines)
    end
  else (elements, (currentTextLines ++ [line])%list).

Fixpoint render_loop (codeBlocks : list Block) (i : nat) (lines : list string)
    (st : list Element * list string) : list Element * list string :=
  match lines with
  | [] => st
  | line :: rest =>
      render_loop codeBlocks (S i) rest (render_visit codeBlocks i line st)
  end.

Definition renderContentWithCode (content : string) : Rendered :=
  let codeBlocks := extractCodeBlocks content in
  if (length codeBlocks =? 0)%nat then ReactMarkdown content
  else
    let lines := JSString.split "010"%char content in
    let '(elements, currentTextLines) :=
      render_loop codeBlocks 0 lines ([], []) in
    mixed_content (flush None elements currentTextLines).

(** The code blocks among the elements, each with its key. *)
Definition code_elements (elements : list Element) : list (nat * Block) :=
  flat_map (fun e => match e with
                     | code_block_container key block => [(key, block)]
                     | text_content _ _ => []
                     end) elements.

(** Blocks that follow one another between the lines [lo] and [hi]: each
    starts at or after [lo], ends at or after its start, and the next one
    starts after its end; the last one ends before [hi]. *)
Fixpoint ordered (lo : nat) (blocks : list Block) (hi : nat) : Prop :=
  match blocks with
  | [] => True
  | b :: blocks' =>
      (lo <= startLine b)%nat /\ (startLine b <= endLine b)%nat
      /\ (endLine b < hi)%nat /\ ordered (S (endLine b)) blocks' hi
  end.

(** The lines of a content that are fences. *)
Definition fences (lines : list string) : nat :=
  length (List.filter is_fence lines).

(** The lines of a block that are not fences. *)
Definition inside (lines : list string) (b : Block) : list string :=
  List.filter (fun line => negb (is_fence line))
    (take (S (endLine b) - startLine b) (drop (startLine b) lines)).

(** What a block extracted from [lines] satisfies. *)
Definition block_ok (lines : list string) (b : Block) : Prop :=
  (startLine b <= endLine b < length lines)%nat
  /\ language b <> EmptyString
  /\ (exists line, lines !! startLine b = Some line /\ is_fence line = true)
  /\ code b = JSString.join newline (inside lines b).

(** What the variables of the loop satisfy once the lines [pre] have been
    visited. *)
Definition scanned (pre : list string) (st : State) : Prop :=
  inCodeBlock st = match currentBlock st with Some _ => true | None => false end
  /\ ordered 0 (codeBlocks st)
       (match currentBlock st with
        | Some c => cur_startLine c
        | None => length pre
        end)
  /\ (forall c, currentBlock st = Some c ->
       (cur_startLine c < length pre)%nat
       /\ cur_language c <> EmptyString
       /\ (exists line, pre !! cur_startLine c = Some line /\ is_fence line = true)
       /\ cur_code c = drop (S (cur_startLine c)) pre
       /\ Forall (fun line => is_fence line = false) (cur_code c))
  /\ Forall (block_ok pre) (codeBlocks st)
  /\ fences pre
     = (2 * length (codeBlocks st)
        + match currentBlock st with Some _ => 1 | None => 0 end)%nat.

(** Blocks under the key [i]. *)
Definition keyed (i : nat) (blocks : list Block) : list (nat * Block) :=
  map (fun b => (i, b)) blocks.

End CodeBlock.

(** ** The prompts of the question-answering routes *)

Module OpenAI.

Open Scope string_scope.

(** What a [catch] of the routes looks at in the error it is given. *)
Record Error : Type := mkError {
  code : option string;
  status : option Z;
  message : string
}.

Record Prompts : Type := mkPrompts {
  systemPrompt : string;
  userPrompt : option string
}.

Definition newline : string := String "010"%char EmptyString.

(** A field of the request: a string, or [undefined] when it is missing;
    its truthiness, and its text in a template literal. *)
Definition truthy (field : option string) : bool :=
  match field with Some s => JS.truthy s | None => false end.

Definition interpolate (field : option string) : string :=
  match field with Some s => s | None => "undefined" end.

Definition summary_system : string :=
  "You are a helpful AI assistant that creates concise, educational summaries of classroom transcripts. Focus on key concepts, important points, and learning objectives.".

Definition deadline_system : string :=
  "You are a helpful AI assistant that identifies deadlines, due dates, and important dates mentioned in classroom transcripts. Extract and list all deadlines with clear formatting.".

Definition transcript_system : string :=
  "Answer questions based on the provided class transcript. For math: use $expression$ for inline math and $$expression$$ for display math. Never use ( ) or [ ] for math.".

Definition direct_system : string :=
  "Answer the question directly. For math: use $expression$ for inline math and $$expression$$ for display math. Never use ( ) or [ ] for math.".

Definition default_system : string :=
  "Answer questions directly. For math: use $expression$ for inline math and $$expression$$ for display math. Never use ( ) or [ ] for math.".

(** The second operand of [transcript && (...)], for a transcript and a
    query that are strings. *)
Definition mentions_class (transcript query : string) : bool :=
  let q := JSString.toLowerCase query in
  JS.includes "class" q
  || JS.includes "lecture" q
  || JS.includes "transcript" q
  || JS.includes "discussed" q
  || JS.includes "mentioned" q
  || JS.includes (JSString.first_part " "%char q)
       (JSString.toLowerCase transcript).

Section Engine.

(** The message of the [TypeError] that reading [toLowerCase] of
    [undefined] throws; its text is the engine's. *)
Variable TypeError_message : string.

Definition TypeError : Error := mkError None None TypeError_message.

(** [buildOpenAIPrompts({ transcript, query, queryType })]: the prompts,
    or the error thrown. *)
Definition buildOpenAIPrompts (transcript query queryType : option string)
    : Error + Prompts :=
  let direct := inr (mkPrompts direct_system query) in
  match queryType with
  | Some "summary" =>
      inr (mkPrompts summary_system
             (Some ("Please provide a summary of this class transcript:"
                    ++ newline ++ newline ++ interpolate transcript)))
  | Some "deadline" =>
      inr (mkPrompts deadline_system
             (Some ("Please identify any deadlines, due dates, or important dates mentioned in this class transcript:"
                    ++ newline ++ newline ++ interpolate transcript)))
  | Some "question" =>
      match transcript with
      | Some t =>
          if JS.truthy t then
            match query with
            | None => inl TypeError
            | Some q =>
                let isTranscriptRelated := mentions_class t q in
                if isTranscriptRelated && JS.truthy (JSString.trim t) then
                  inr (mkPrompts transcript_system
                         (Some ("Class transcript:" ++ newline ++ newline ++ t
                                ++ newline ++ newline ++ "Question: " ++ q)))
                else direct
            end
          else direct
      | None => direct
      end
  | _ =>
      inr (mkPrompts default_system
             (if truthy query then query
              else Some ("Analyze this transcript:" ++ newline ++ newline
                         ++ interpolate transcript)))
  end.

(** The body of a request to [POST /api/openai/query], the answer of the
    route (status and JSON body), and the call of the completion service:
    the content of its first choice, or the error thrown on the way. *)
Record Body : Type := mkBody {
  transcript : option string;
  query : option string;
  queryType : option string
}.

Definition Response : Type := (Z * JS.Obj)%type.

Variable create : Prompts -> Error + string.

Definition failure (error : Error) : Response :=
  if match code error with
     | Some c => String.eqb c "invalid_api_key"
     | None => false
     end
  then (401%Z,
        [("error", JS.VString "Invalid OpenAI API key. Please check your .env file.")])
  else if match code error with
          | Some c => String.eqb c "insufficient_quota"
          | None => false
          end
          || match status error with
             | Some n => (n =? 429)%Z
             | None => false
             end
  then (429%Z,
        [("error", JS.VString "OpenAI quota exceeded. Your free credits may have expired or you need to add billing to your OpenAI account.");
         ("details", JS.VString "Visit https://platform.openai.com/account/billing to add a payment method, even for free usage.");
         ("errorType", JS.VString "quota_exceeded")])
  else (500%Z,
        [("error", JS.VString "Failed to process request with OpenAI");
         ("details", JS.VString (message error))]).

Definition post_query (body : Body) : Response :=
  if negb (truthy (transcript body)) && negb (truthy (query body)) then
    (400%Z, [("error", JS.VString "Transcript or query is required")])
  else
    match buildOpenAIPrompts (transcript body) (query body) (queryType body) with
    | inl error => failure error
    | inr prompts =>
        match create prompts with
        | inl error => failure error
        | inr response => (200%Z, [("response", JS.VString response)])
        end
    end.

End Engine.

End OpenAI.

(** ** The application: what it does with a message of the relay *)

Module App.

Open Scope string_scope.

(** [get key obj] is [obj.key]: the last field of that name, or
    [undefined]. *)
Fixpoint get (key : string) (obj : JS.Obj) : JS.Value :=
  match obj with
  | [] => JS.VUndefined
  | (k, v) :: obj' =>
      if existsb (fun field => String.eqb (fst field) key) obj' then get key obj'
      else if String.eqb k key then v
      else JS.VUndefined
  end.

(** What the handler reads in a message: [error], [type] and [text], each a
    string or missing, and the truthiness of [partial] and [final]. *)
Record Data : Type := mkData {
  error : option string;
  type : option string;
  text : option string;
  partial : bool;
  final : bool
}.

Definition string_field (key : string) (obj : JS.Obj) : option (option string) :=
  match get key obj with
  | JS.VString s => Some (Some s)
  | JS.VUndefined => Some None
  | _ => None
  end.

Definition truthy_field (key : string) (obj : JS.Obj) : bool :=
  match get key obj with
  | JS.VString s => JS.truthy s
  | JS.VBool b => b
  | JS.VNumber x => negb (PrimFloat.eqb x 0 || PrimFloat.is_nan x)
  | JS.VUndefined => false
  end.

(** The message as the handler reads it, when its [error], [type] and
    [text] are strings or missing. *)
Definition received (obj : JS.Obj) : option Data :=
  match string_field "error" obj, string_field "type" obj,
        string_field "text" obj with
  | Some e, Some t, Some x =>
      Some (mkData e t x (truthy_field "partial" obj) (truthy_field "final" obj))
  | _, _, _ => None
  end.

(** The state the handler sets, and the calls of
    [setTimeout(scrollCaptionsToBottom, 100)] it has made. *)
Record State : Type := mkState {
  captions : string;
  partialText : string;
  shown_error : string;
  isConnected : bool;
  wsConnected : bool;
  scrolls : nat
}.

Definition setError (v : string) (st : State) : State :=
  mkState (captions st) (partialText st) v (isConnected st) (wsConnected st)
    (scrolls st).
Definition setIsConnected (v : bool) (st : State) : State :=
  mkState (captions st) (partialText st) (shown_error st) v (wsConnected st)
    (scrolls st).
Definition setWsConnected (v : bool) (st : State) : State :=
  mkState (captions st) (partialText st) (shown_error st) (isConnected st) v
    (scrolls st).
Definition setPartialText (v : string) (st : State) : State :=
  mkState (captions st) v (shown_error st) (isConnected st) (wsConnected st)
    (scrolls st).
Definition setCaptions (f : string -> string) (st : State) : State :=
  mkState (f (captions st)) (partialText st) (shown_error st) (isConnected st)
    (wsConnected st) (scrolls st).
Definition setTimeout_scroll (st : State) : State :=
  mkState (captions st) (partialText st) (shown_error st) (isConnected st)
    (wsConnected st) (S (scrolls st)).

(** [newText.replace(/([.!?])\s+/g, "$1\n")]: after a full stop, an
    exclamation mark or a question mark, a run of white space becomes one
    line feed. [skipping] says that the characters read are the rest of
    such a run. *)
Definition is_end_mark (c : ascii) : bool :=
  Ascii.eqb c "." || Ascii.eqb c "!" || Ascii.eqb c "?".

Definition space_ahead (s : string) : bool :=
  match s with
  | String d _ => JSString.is_space d
  | EmptyString => false
  end.

Fixpoint break_lines (skipping : bool) (s : string) : string :=
  match s with
  | EmptyString => EmptyString
  | String c s' =>
      if skipping && JSString.is_space c then break_lines true s'
      else if is_end_mark c && space_ahead s'
      then String c (String "010" (break_lines true s'))
      else String c (break_lines false s')
  end.

(** The messages about the connection that are not shown as errors. *)
Definition expected_close (error : string) : bool :=
  JS.includes "AssemblyAI connection closed: 1005" error
  || JS.includes "AssemblyAI connection closed: 1000" error
  || JS.includes "AssemblyAI connection closed: 3005" error
  || JS.includes "Session terminated by user" error
  || JS.includes "connection closed" error
  || JS.includes "disconnected" error.

(** [data.type === name]. *)
Definition type_is (name : string) (data : Data) : bool :=
  match type data with
  | Some t => String.eqb t name
  | None => false
  end.

(** [prefix + data.error], for an error that is a string or missing. *)
Definition with_error (prefix : string) (data : Data) : string :=
  prefix ++ match error data with Some e => e | None => "undefined" end.

Definition truthy (field : option string) : bool :=
  match field with Some s => JS.truthy s | None => false end.

(** The handler given to [wsManagerRef.current.onMessage]. *)
Definition message_handler (data : Data) (st : State) : State :=
  if truthy (error data) then
    match error data with
    | Some e => if expected_close e then st else setError e st
    | None => st
    end
  else if type_is "connection_established" data then
    setError "" (setWsConnected true st)
  else if type_is "assemblyai_connected" data then
    setError "" (setIsConnected true st)
  else if type_is "assemblyai_error" data then
    setError (with_error "AssemblyAI connection failed: " data) st
  else if type_is "session_terminated" data then
    setError "" (setIsConnected false st)
  else if type_is "termination_error" data then
    setError (with_error "Failed to stop recording: " data) st
  else if truthy (text data) then
    match text data with
    | Some t =>
        if partial data then setPartialText t st
        else if final data then
          setTimeout_scroll
            (setPartialText ""
               (setCaptions (fun prev => break_lines false (prev ++ t ++ " "))
                  st))
        else st
    | None => st
    end
  else st.

End App.

(** ** Proof automation *)

(** Case analysis on every scrutinee of the goal. *)
Ltac step_cases :=
  repeat match goal with
  | |- context [match ?x with _ => _ end] => destruct x eqn:?
  end.

(** Unfolding of the operations on computations. *)
Ltac unfold_m :=
  unfold mbind, M_bind, mret, M_ret, gets, modify, throw, try_catch, try_finally.

(** Reduction of the fields of an updated server state. *)
Ltac world_simpl :=
  cbn [Node.ws Node.sockets Node.env Node.outbox Node.apiKey
       Node.isSessionActive Node.isTerminating fst snd
       Node.set_isSessionActive Node.set_isTerminating Node.set_ws
       Node.set_sockets Node.set_outbox].

(** Case analysis on what [terminate] reads: the handle, the ready state
    of its socket and whether [close] throws. *)
Ltac terminate_cases w :=
  unfold Node.ws_is_open; world_simpl;
  destruct (Node.ws w) as [k |] eqn:Hws;
  [ destruct (Node.sockets w !! k) as [sock |] eqn:Hsock;
    [ destruct (JS.is_open (Node.readyState sock)) eqn:Hopen;
      [ unfold Node.socket_close; world_simpl;
        destruct (Node.ws_close_throws (Node.env w)) eqn:Hthrows | ]
    | ]
  | ].

(** Unfolding of the handlers of the server down to the state. *)
Ltac unfold_server :=
  unfold Server.step, Server.on_message, Server.on_error, Server.on_close,
    Server.terminate_branch, Server.forward_audio,
    Server.connectToAssemblyAI, Server.onMessage, Server.onError, Server.onClose,
    Server.try_send, Server.set_readyState,
    AssemblyAIStreaming.connect, AssemblyAIStreaming.on_open,
    AssemblyAIStreaming.on_message, AssemblyAIStreaming.on_error,
    AssemblyAIStreaming.on_close, AssemblyAIStreaming.sendAudio,
    AssemblyAIStreaming.terminate,
    Node.client_send, Node.new_WebSocket, Node.socket_send, Node.socket_close,
    Node.ws_is_open;
  unfold_m; cbn [id].

(** Case analysis on whatever an unfolded handler tests, innermost test
    first, using what the earlier tests told. *)
Ltac atom b :=
  lazymatch b with
  | negb _ => fail
  | andb _ _ => fail
  | orb _ _ => fail
  | true => fail
  | false => fail
  | context [match _ with _ => _ end] => fail
  | _ => idtac
  end.

Ltac crunch :=
  repeat (world_simpl; cbn [orb andb negb];
    match goal with
    | H : ?x = _ |- context [?x] => rewrite H
    | |- context [(?l ++ ?x :: ?l') !! length ?l] =>
        rewrite (list_lookup_middle l l' x (length l) eq_refl)
    | |- context [negb ?b] => atom b; destruct b eqn:?
    | |- context [andb ?b _] => atom b; destruct b eqn:?
    | |- context [orb ?b _] => atom b; destruct b eqn:?
    | |- context [match ?x with _ => _ end] => atom x; destruct x eqn:?
    end);
  world_simpl; cbn [orb andb negb].

(** Closing the cases: equalities of states and lengths of socket lists. *)
Ltac finish :=
  repeat split; intros; subst; world_simpl; cbn [orb andb negb];
  rewrite ?length_alter, ?length_app; cbn [length];
  try reflexivity; try congruence; try lia.

(** Closing the cases about the handle: it is absent, unchanged or the
    socket just created. *)
Ltac handle_cases :=
  cbn [Node.ws Node.sockets Node.env Node.outbox Node.apiKey
       Node.isSessionActive Node.isTerminating fst snd
       Node.set_isSessionActive Node.set_isTerminating Node.set_ws
       Node.set_sockets Node.set_outbox] in *;
  try match goal with
  | H0 : None = Some _ |- _ => discriminate H0
  | H0 : Some _ = Some _ |- _ => injection H0 as <-
  end;
  try match goal with
  | H : forall k, Node.ws ?w = Some k -> _, H0 : Node.ws ?w = Some _ |- _ =>
      specialize (H _ H0)
  | H : forall k, Some ?n = Some k -> _ |- _ => specialize (H _ eq_refl)
  end;
  rewrite ?length_alter, ?length_app in *; cbn [length] in *; try lia.

(** * Properties *)

(** ** Quantisation *)

Lemma is_open_code (r : JS.ReadyState) :
  JS.is_open r = (JS.readyState_code r =? 1).
Proof. destruct r; reflexivity. Qed.

Lemma ToInt16_range (x : float) : -32768 <= JS.ToInt16 x <= 32767.
Proof.
  unfold JS.ToInt16.
  pose proof (Z.mod_pos_bound (JS.truncate x) 65536 ltac:(lia)) as Hb.
  destruct (32768 <=? JS.truncate x mod 65536) eqn:E.
  - apply Z.leb_le in E. lia.
  - apply Z.leb_gt in E. lia.
Qed.

Lemma convertSample_range (x : float) :
  -32768 <= Recorder.convertSample x <= 32767.
Proof. apply ToInt16_range. Qed.

Example convertSample_half : Recorder.convertSample 0.5%float = 16384.
Proof. reflexivity. Qed.

Example convertSample_above_one : Recorder.convertSample 1.5%float = 32767.
Proof. reflexivity. Qed.

Example convertSample_bytes_roundtrip :
  Recorder.toUint8Array (Recorder.toInt16Array [1.0%float; (-1.0)%float])
  = [255; 127; 0; 128]
  /\ Recorder.decode_sample 255 127 = 32767
  /\ Recorder.decode_sample 0 128 = -32768.
Proof. repeat split; reflexivity. Qed.

(** The two extremes: 1.0 is scaled to 32768 and clamped to 32767, and
    -1.0 is scaled to -32768. *)
Example convertSample_extremes :
  Recorder.convertSample 1.0%float = 32767
  /\ Recorder.convertSample (-1.0)%float = -32768
  /\ (JS.Math_min 32767%float (1.0 * 32768)%float = 32767%float)
  /\ (1.0 * 32768)%float = 32768%float.
Proof. repeat split; reflexivity. Qed.

(** Comparison of floating-point numbers: exchanging the operands
    reverses the order. *)
Lemma SFcompare_antisym (x y : spec_float) :
  SFcompare y x = option_map CompOpp (SFcompare x y).
Proof.
  destruct x as [sx | sx | | sx mx ex], y as [sy | sy | | sy my ey];
    cbn [SFcompare option_map]; try reflexivity;
    try (destruct sx; reflexivity); try (destruct sy; reflexivity);
    try (destruct sx, sy; reflexivity).
  destruct sx, sy; try reflexivity; f_equal;
    rewrite (Z.compare_antisym ex ey);
    destruct (ex ?= ey) eqn:E; cbn [CompOpp]; try reflexivity;
    change (Pos.compare_cont Eq my mx) with (Pos.compare my mx);
    change (Pos.compare_cont Eq mx my) with (Pos.compare mx my);
    rewrite (Pos.compare_antisym mx my); destruct (mx ?= my)%positive; reflexivity.
Qed.

(** The mantissa of a binary64 number is below 2^53. *)
Lemma digits2_pos_bound (m : positive) :
  Z.pos m < 2 ^ Z.pos (digits2_pos m).
Proof.
  induction m as [m IH | m IH |]; cbn [digits2_pos]; [| | reflexivity].
  - rewrite Pos2Z.inj_succ, Z.pow_succ_r by lia. lia.
  - rewrite Pos2Z.inj_succ, Z.pow_succ_r by lia. lia.
Qed.

Lemma valid_mantissa (s : bool) (m : positive) (e : Z) :
  valid_binary (S754_finite s m e) = true -> Z.pos m < 2 ^ 53.
Proof.
  cbn [SpecFloat.valid_binary]. unfold bounded, canonical_mantissa, fexp.
  intros H. apply andb_prop in H as [H _]. apply Z.eqb_eq in H.
  pose proof (digits2_pos_bound m) as Hd.
  assert (Z.pos (digits2_pos m) <= 53) by (unfold prec in H; lia).
  eapply Z.lt_le_trans; [exact Hd |]. apply Z.pow_le_mono_r; lia.
Qed.

Lemma shiftr_bound (m : positive) (n B : Z) :
  0 <= n -> Z.pos m < B * 2 ^ n -> Z.shiftr (Z.pos m) n < B.
Proof.
  intros Hn H. rewrite Z.shiftr_div_pow2 by exact Hn.
  apply Z.div_lt_upper_bound; [apply Z.pow_pos_nonneg; lia | lia].
Qed.

Lemma shiftr_nonneg (m : positive) (n : Z) : 0 <= Z.shiftr (Z.pos m) n.
Proof. apply Z.shiftr_nonneg. lia. Qed.

(** A number that is not above 32767 and not below -32768 has its integer
    part between them. *)
Lemma truncate_clamped (y : float) :
  (32767 <? y)%float = false -> (y <? -32768)%float = false ->
  -32768 <= JS.truncate y <= 32767.
Proof.
  rewrite !ltb_spec. unfold JS.truncate.
  pose proof (Prim2SF_valid y) as Hv.
  change (Prim2SF 32767) with (S754_finite false 9006924376834048 (-38)).
  change (Prim2SF (-32768)) with (S754_finite true 4503599627370496 (-37)).
  destruct (Prim2SF y) as [s | s | | s m e]; try lia.
  pose proof (valid_mantissa s m e Hv) as Hm.
  pose proof (shiftr_nonneg m (- e)) as H0.
  unfold SFltb. cbn [SFcompare].
  destruct s.
  - intros _. destruct (e ?= -37) eqn:E.
    + apply Z.compare_eq in E. subst e.
      destruct (Pos.compare_cont Eq m 4503599627370496) eqn:Em;
        cbn [CompOpp]; try discriminate; intros _.
      * apply Pos.compare_eq in Em. subst m. vm_compute. split; discriminate.
      * assert (Hlt : Z.pos m < 4503599627370496) by exact Em. clear Em.
        cbn [Z.leb Z.opp]. 
        assert (Z.shiftr (Z.pos m) 37 < 32768).
        { apply shiftr_bound; [lia |]. change (32768 * 2 ^ 37) with 4503599627370496. lia. }
        change (0 <=? -37) with false. cbv iota. change (- -37) with 37. 
        pose proof (shiftr_nonneg m 37). lia.
    + intros _. assert (He : e < -37) by exact E. clear E.
      replace (0 <=? e) with false by (symmetry; apply Z.leb_gt; lia).
      assert (Z.shiftr (Z.pos m) (- e) < 32768).
      { apply shiftr_bound; [lia |].
        eapply Z.lt_le_trans; [exact Hm |].
        change 32768 with (2 ^ 15). rewrite <- Z.pow_add_r by lia.
        apply Z.pow_le_mono_r; lia. }
      lia.
    + discriminate.
  - destruct (-38 ?= e) eqn:E.
    + apply Z.compare_eq in E. subst e.
      destruct (Pos.compare_cont Eq 9006924376834048 m) eqn:Em;
        try discriminate; intros _ _.
      * apply Pos.compare_eq in Em. subst m. vm_compute. split; discriminate.
      * assert (Hlt : Z.pos m < 9006924376834048)
          by (apply Z.gt_lt; exact Em).
        clear Em.
        change (0 <=? -38) with false. cbv iota. change (- -38) with 38.
        assert (Z.shiftr (Z.pos m) 38 < 32768).
        { apply shiftr_bound; [lia |]. change (32768 * 2 ^ 38) with 9007199254740992. lia. }
        pose proof (shiftr_nonneg m 38). lia.
    + discriminate.
    + intros _ _. assert (He : e < -38) by (apply Z.gt_lt; exact E). clear E.
      replace (0 <=? e) with false by (symmetry; apply Z.leb_gt; lia).
      assert (Z.shiftr (Z.pos m) (- e) < 32768).
      { apply shiftr_bound; [lia |].
        eapply Z.lt_le_trans; [exact Hm |].
        change 32768 with (2 ^ 15). rewrite <- Z.pow_add_r by lia.
        apply Z.pow_le_mono_r; lia. }
      lia.
Qed.

Lemma ltb_antisym (x y : float) :
  (x <? y)%float = true -> (y <? x)%float = false.
Proof.
  rewrite !ltb_spec. unfold SFltb.
  rewrite (SFcompare_antisym (Prim2SF x) (Prim2SF y)).
  destruct (SFcompare (Prim2SF x) (Prim2SF y)) as [[] |]; try discriminate.
  reflexivity.
Qed.

Lemma ToInt16_exact (y : float) :
  -32768 <= JS.truncate y <= 32767 -> JS.ToInt16 y = JS.truncate y.
Proof.
  intros H. unfold JS.ToInt16.
  destruct (Z_lt_le_dec (JS.truncate y) 0) as [Hneg | Hpos].
  - replace (JS.truncate y mod 65536) with (JS.truncate y + 65536).
    + replace (32768 <=? JS.truncate y + 65536) with true
        by (symmetry; apply Z.leb_le; lia).
      lia.
    + apply (Z.mod_unique _ _ (-1)); lia.
  - rewrite Z.mod_small by lia.
    replace (32768 <=? JS.truncate y) with false
      by (symmetry; apply Z.leb_gt; lia).
    reflexivity.
Qed.

Lemma Math_min_32767 (y : float) :
  JS.Math_min 32767 y
  = if PrimFloat.is_nan y then nan
    else if (32767 <? y)%float then 32767%float else y.
Proof.
  unfold JS.Math_min. change (PrimFloat.is_nan 32767) with false.
  cbn [orb]. destruct (PrimFloat.is_nan y); [reflexivity |].
  destruct (32767 <? y)%float; [reflexivity |].
  destruct (y <? 32767)%float; reflexivity.
Qed.

Lemma Math_max_32768 (v : float) :
  JS.Math_max (-32768) v
  = if PrimFloat.is_nan v then nan
    else if (v <? -32768)%float then (-32768)%float else v.
Proof.
  unfold JS.Math_max. change (PrimFloat.is_nan (-32768)) with false.
  cbn [orb]. destruct (PrimFloat.is_nan v); [reflexivity |].
  destruct (v <? -32768)%float eqn:E.
  - rewrite (ltb_antisym _ _ E). reflexivity.
  - destruct (-32768 <? v)%float; reflexivity.
Qed.

(** C7.  Quantisation is scale-and-clamp into the signed 16-bit range, for
    every sample: the sample is scaled by 32768; a scaled value above
    32767 gives 32767 and one below -32768 gives -32768; any other is cut
    to its integer part, which lies between the two; a sample that is not
    a number gives 0.  In particular 1.0 gives 32767, the largest 16-bit
    value, by the clamp, and -1.0 gives -32768. *)
Theorem convertSample_scale_and_clamp (x : float) :
  let scaled := (x * 32768)%float in
  Recorder.convertSample x
  = (if PrimFloat.is_nan scaled then 0
     else if (32767 <? scaled)%float then 32767
     else if (scaled <? -32768)%float then -32768
     else JS.truncate scaled)
  /\ -32768 <= Recorder.convertSample x <= 32767
  /\ Recorder.convertSample 1 = 32767
  /\ Recorder.convertSample (-1) = -32768.
Proof.
  intros scaled. split; [| split; [apply convertSample_range | split; reflexivity]].
  unfold Recorder.convertSample. fold scaled.
  rewrite Math_min_32767, Math_max_32768.
  destruct (PrimFloat.is_nan scaled) eqn:Hnan; [reflexivity |].
  destruct (32767 <? scaled)%float eqn:Hhi; [reflexivity |].
  rewrite Hnan.
  destruct (scaled <? -32768)%float eqn:Hlo; [reflexivity |].
  apply ToInt16_exact, truncate_clamped; assumption.
Qed.

(** ** Framing *)

Section Framing.

Import AudioProcessor.

Context {A : Type}.
Implicit Types (p : t A) (s : list A).

Lemma framed_constructor (zero : A) : framed (constructor zero) [].
Proof.
  split; cbn -[replicate].
  - lia.
  - apply length_replicate.
  - lia.
  - constructor.
  - reflexivity.
Qed.

Lemma store_bufferSize p x :
  bufferSize (store p x) = bufferSize p.
Proof. unfold store. destruct (_ <=? _)%nat; reflexivity. Qed.

Lemma framed_store p s x : framed p s -> framed (store p x) (s ++ [x]).
Proof.
  intros [Hsz Hbuf Hidx Hfr Hdata].
  assert (Hlook : <[bufferIndex p := x]> (buffer p)
                    !! bufferIndex p = Some x)
    by (apply list_lookup_insert_eq; lia).
  assert (Htake : take (S (bufferIndex p))
                    (<[bufferIndex p := x]> (buffer p))
                  = take (bufferIndex p) (buffer p) ++ [x]).
  { rewrite (take_S_r _ _ x Hlook). f_equal. apply take_insert_ge. lia. }
  unfold store.
  destruct (bufferSize p <=? S (bufferIndex p))%nat eqn:E.
  - apply Nat.leb_le in E.
    assert (Hfull : S (bufferIndex p) = bufferSize p) by lia.
    split; simpl.
    + exact Hsz.
    + rewrite length_insert. exact Hbuf.
    + exact Hsz.
    + apply Forall_app. split; [exact Hfr |].
      constructor; [| constructor]. rewrite length_insert. exact Hbuf.
    + rewrite concat_app. simpl. rewrite !app_nil_r.
      rewrite <- Hdata, <- app_assoc. f_equal.
      rewrite <- Htake. symmetry. apply take_ge.
      rewrite length_insert. lia.
  - apply Nat.leb_gt in E.
    split; simpl.
    + exact Hsz.
    + rewrite length_insert. exact Hbuf.
    + exact E.
    + exact Hfr.
    + rewrite Htake, app_assoc, Hdata. reflexivity.
Qed.

Lemma framed_fold_store inputData : forall p s,
  framed p s -> framed (fold_left store inputData p) (s ++ inputData).
Proof.
  induction inputData as [| x inputData IH]; intros p s H; simpl.
  - rewrite app_nil_r. exact H.
  - replace (s ++ x :: inputData) with ((s ++ [x]) ++ inputData)
      by (rewrite <- app_assoc; reflexivity).
    apply IH, framed_store, H.
Qed.

Lemma framed_process p s input :
  framed p s ->
  framed (process p input) (s ++ captured input).
Proof.
  intros H. destruct input as [| inputData rest]; simpl.
  - rewrite app_nil_r. exact H.
  - apply framed_fold_store, H.
Qed.

Lemma framed_run calls : forall p s,
  framed p s ->
  framed (run p calls) (s ++ samples calls).
Proof.
  induction calls as [| input calls IH]; intros p s H.
  - unfold samples. simpl. rewrite app_nil_r. exact H.
  - unfold samples. simpl. rewrite app_assoc.
    apply (IH _ _ (framed_process _ _ input H)).
Qed.

Lemma fold_store_bufferSize inputData : forall p,
  bufferSize (fold_left store inputData p)
  = bufferSize p.
Proof.
  induction inputData as [| x l IH]; intros p; [reflexivity |].
  simpl. rewrite IH. apply store_bufferSize.
Qed.

Lemma process_bufferSize p input :
  bufferSize (process p input)
  = bufferSize p.
Proof.
  destruct input as [| inputData rest]; [reflexivity |].
  apply fold_store_bufferSize.
Qed.

Lemma run_bufferSize calls : forall p,
  bufferSize (run p calls) = bufferSize p.
Proof.
  unfold run.
  induction calls as [| input calls IH]; intros p; [reflexivity |].
  simpl. rewrite IH. apply process_bufferSize.
Qed.

Lemma length_concat_frames (n : nat) (frames : list (list A)) :
  Forall (fun f => length f = n) frames ->
  length (concat frames) = (length frames * n)%nat.
Proof.
  induction 1 as [| f frames Hf _ IH]; simpl; [reflexivity |].
  rewrite length_app, IH, Hf. reflexivity.
Qed.

(** The frames of a processor that consumed [s] are [s] cut to a whole
    number of buffers. *)
Lemma framed_port p s :
  framed p s ->
  let n := bufferSize p in
  concat (port p) = take (length s / n * n) s
  /\ length (port p) = (length s / n)%nat
  /\ (length s mod n)%nat = bufferIndex p.
Proof.
  intros [Hsz Hbuf Hidx Hfr Hdata] n. subst n.
  pose proof (length_concat_frames _ _ Hfr) as Hlen.
  assert (Hs : length s
               = (bufferSize p * length (port p)
                  + bufferIndex p)%nat).
  { rewrite <- Hdata, length_app, Hlen, length_take. lia. }
  assert (Hdiv : (length s / bufferSize p)%nat
                 = length (port p)).
  { symmetry. apply (Nat.div_unique _ _ _ (bufferIndex p)); assumption. }
  assert (Hmod : (length s mod bufferSize p)%nat
                 = bufferIndex p).
  { symmetry. apply (Nat.mod_unique _ _ (length (port p))); assumption. }
  split; [| split; [symmetry; exact Hdiv | exact Hmod]].
  rewrite Hdiv, <- Hdata. symmetry. apply take_app_length'. exact (eq_sym Hlen).
Qed.

End Framing.

Example framer_two_samples_short :
  AudioProcessor.port
    (AudioProcessor.run (AudioProcessor.constructor 0%float)
       [[[1.0%float; 0.5%float]]; []; [[0.25%float]]]) = [].
Proof. reflexivity. Qed.

Example framer_small_buffer :
  let p := {| AudioProcessor.bufferSize := 2; AudioProcessor.buffer := [0; 0];
              AudioProcessor.bufferIndex := 0%nat; AudioProcessor.port := [] |} in
  AudioProcessor.port (AudioProcessor.run p [[[1; 2; 3]; [9; 9; 9]]; [[4; 5]]])
  = [[1; 2]; [3; 4]].
Proof. reflexivity. Qed.

(** C8.  Whatever the render quanta handed to the worklet, the frames it
    posts, concatenated in the order they were posted, are the captured
    samples cut to a multiple of 4096; each posted frame has exactly 4096
    samples (none is empty or short), and there is one frame per 4096
    samples captured, so each full buffer is posted exactly once. *)
Theorem framer_emits_truncated_input (A : Type) (zero : A)
    (calls : list (list (list A))) :
  let s := AudioProcessor.samples calls in
  let frames := AudioProcessor.port (AudioProcessor.run (AudioProcessor.constructor zero) calls) in
  concat frames = take (length s / 4096 * 4096) s
  /\ Forall (fun f => length f = 4096%nat) frames
  /\ length frames = (length s / 4096)%nat.
Proof.
  intros s frames.
  pose proof (framed_run calls _ _ (framed_constructor zero)) as H.
  simpl app in H. fold s in H.
  pose proof (framed_port _ _ H) as (Hc & Hl & _).
  pose proof (AudioProcessor.framed_frames _ _ H) as Hf.
  rewrite run_bufferSize in Hc, Hl, Hf.
  change (AudioProcessor.bufferSize (AudioProcessor.constructor zero)) with 4096%nat in *.
  auto.
Qed.

(** ** The client session channel *)

Section Channel.

Import WebSocketManager.

Implicit Types (m : t) (k : nat) (code : Z).

Lemma scheduled_app (a b : list Effect) :
  scheduled (a ++ b) = scheduled a ++ scheduled b.
Proof. apply flat_map_app. Qed.

Lemma scheduled_close_calls code (hs : list Handler) :
  scheduled (map (fun h => CallCloseHandler h code) hs) = [].
Proof. induction hs as [| h hs IH]; [reflexivity | exact IH]. Qed.

Lemma reconnects_true m code :
  code <> 1000 -> intentionalClose m = false ->
  (reconnectAttempts m < maxReconnectAttempts m)%nat ->
  reconnects m code = true.
Proof.
  intros Hc Hi Ha. unfold reconnects.
  apply Z.eqb_neq in Hc. apply Nat.ltb_lt in Ha.
  rewrite Hc, Hi, Ha. reflexivity.
Qed.

Lemma reconnects_false m code :
  code = 1000 \/ intentionalClose m = true
  \/ (maxReconnectAttempts m <= reconnectAttempts m)%nat ->
  reconnects m code = false.
Proof.
  unfold reconnects. intros [Hc | [Hi | Ha]].
  - apply Z.eqb_eq in Hc. rewrite Hc. reflexivity.
  - rewrite Hi. rewrite andb_false_r. reflexivity.
  - apply Nat.ltb_ge in Ha. rewrite Ha, andb_false_r. reflexivity.
Qed.

(** The close callback, case by case. *)
Lemma onclose_reconnects m k code :
  reconnects m code = true ->
  onclose k code m
  = (set_intentionalClose false
       (set_reconnectAttempts (S (reconnectAttempts m))
          (set_isConnecting false (set_isConnected false m))),
     ClearTimeout (ConnectionTimeout k)
       :: map (fun h => CallCloseHandler h code) (closeHandlers m)
       ++ [SetTimeout Reconnect
             (reconnectDelay m * 2 ^ Z.of_nat (reconnectAttempts m))]).
Proof.
  intros H. unfold onclose, attemptReconnect. cbn [set_isConnecting
    set_isConnected reconnectAttempts maxReconnectAttempts intentionalClose
    closeHandlers reconnectDelay set_reconnectAttempts].
  unfold reconnects in H. rewrite H.
  apply andb_prop in H as [H _]. apply andb_prop in H as [_ H].
  apply Nat.ltb_lt in H.
  destruct (maxReconnectAttempts m <=? reconnectAttempts m)%nat eqn:E.
  - apply Nat.leb_le in E. lia.
  - rewrite Nat.sub_1_r. reflexivity.
Qed.

Lemma onclose_stays m k code :
  reconnects m code = false ->
  onclose k code m
  = (set_intentionalClose false
       (set_isConnecting false (set_isConnected false m)),
     ClearTimeout (ConnectionTimeout k)
       :: map (fun h => CallCloseHandler h code) (closeHandlers m) ++ []).
Proof.
  intros H. unfold onclose. cbn [set_isConnecting
    set_isConnected reconnectAttempts maxReconnectAttempts intentionalClose
    closeHandlers].
  unfold reconnects in H. rewrite H. reflexivity.
Qed.

Lemma onclose_scheduled m k code :
  scheduled (snd (onclose k code m))
  = if reconnects m code
    then [reconnectDelay m * 2 ^ Z.of_nat (reconnectAttempts m)]
    else [].
Proof.
  destruct (reconnects m code) eqn:E.
  - rewrite (onclose_reconnects _ _ _ E). cbn [snd].
    change (scheduled (?x :: ?l)) with (scheduled [x] ++ scheduled l).
    rewrite scheduled_app, scheduled_close_calls. reflexivity.
  - rewrite (onclose_stays _ _ _ E). cbn [snd].
    change (scheduled (?x :: ?l)) with (scheduled [x] ++ scheduled l).
    rewrite scheduled_app, scheduled_close_calls. reflexivity.
Qed.

Lemma onclose_attempts m k code :
  reconnectAttempts (fst (onclose k code m))
  = if reconnects m code then S (reconnectAttempts m) else reconnectAttempts m.
Proof.
  destruct (reconnects m code) eqn:E.
  - rewrite (onclose_reconnects _ _ _ E). reflexivity.
  - rewrite (onclose_stays _ _ _ E). reflexivity.
Qed.

Lemma onclose_clears_flag m k code :
  intentionalClose (fst (onclose k code m)) = false.
Proof.
  destruct (reconnects m code) eqn:E.
  - rewrite (onclose_reconnects _ _ _ E). reflexivity.
  - rewrite (onclose_stays _ _ _ E). reflexivity.
Qed.

Lemma onclose_config m k code :
  maxReconnectAttempts (fst (onclose k code m)) = maxReconnectAttempts m
  /\ reconnectDelay (fst (onclose k code m)) = reconnectDelay m.
Proof.
  destruct (reconnects m code) eqn:E.
  - rewrite (onclose_reconnects _ _ _ E). split; reflexivity.
  - rewrite (onclose_stays _ _ _ E). split; reflexivity.
Qed.

End Channel.

(** *** Traces of the channel *)

Section ChannelTraces.

Import WebSocketManager.

Implicit Types (m : t) (e : Event) (tr : list Event).

Lemma connect_fields m :
  let m' := fst (connect m) in
  reconnectAttempts m' = reconnectAttempts m
  /\ maxReconnectAttempts m' = maxReconnectAttempts m
  /\ reconnectDelay m' = reconnectDelay m
  /\ intentionalClose m' = intentionalClose m.
Proof. unfold connect. destruct (isConnecting m || isConnected m); repeat split. Qed.

Lemma connectionTimeout_fields k m :
  let m' := fst (connectionTimeout k m) in
  reconnectAttempts m' = reconnectAttempts m
  /\ maxReconnectAttempts m' = maxReconnectAttempts m
  /\ reconnectDelay m' = reconnectDelay m
  /\ intentionalClose m' = intentionalClose m.
Proof. unfold connectionTimeout. step_cases; repeat split. Qed.

Lemma close_fields m :
  let m' := fst (close m) in
  reconnectAttempts m' = reconnectAttempts m
  /\ maxReconnectAttempts m' = maxReconnectAttempts m
  /\ reconnectDelay m' = reconnectDelay m
  /\ intentionalClose m' = intentionalClose m.
Proof. unfold close. destruct (ws m); repeat split. Qed.

(** No event changes the ceiling or the base delay. *)
Lemma step_config e m :
  maxReconnectAttempts (fst (step e m)) = maxReconnectAttempts m
  /\ reconnectDelay (fst (step e m)) = reconnectDelay m.
Proof.
  destruct e; cbn [step].
  - pose proof (connect_fields m) as (_ & ? & ? & _). auto.
  - pose proof (close_fields m) as (_ & ? & ? & _). auto.
  - unfold closeIntentionally.
    pose proof (close_fields (set_intentionalClose true m)) as (_ & ? & ? & _). auto.
  - split; reflexivity.
  - unfold onmessage. destruct data; split; reflexivity.
  - split; reflexivity.
  - apply (onclose_config (set_sockets _ m)).
  - pose proof (connectionTimeout_fields k m) as (_ & ? & ? & _). auto.
  - pose proof (connect_fields m) as (_ & ? & ? & _). auto.
Qed.

(** Only [closeIntentionally()] raises the flag. *)
Lemma step_flag e m :
  e <> CallCloseIntentionally ->
  intentionalClose m = false ->
  intentionalClose (fst (step e m)) = false.
Proof.
  intros He Hm. destruct e; cbn [step]; try congruence.
  - pose proof (connect_fields m) as (_ & _ & _ & ?). congruence.
  - pose proof (close_fields m) as (_ & _ & _ & ?). congruence.
  - exact Hm.
  - unfold onmessage. destruct data; exact Hm.
  - exact Hm.
  - apply onclose_clears_flag.
  - pose proof (connectionTimeout_fields k m) as (_ & _ & _ & ?). congruence.
  - unfold reconnect. pose proof (connect_fields m) as (_ & _ & _ & ?). congruence.
Qed.

(** Until a close event is handled, a raised flag stays raised. *)
Lemma step_flag_raised e m :
  match e with SocketClosed _ _ => False | _ => True end ->
  intentionalClose m = true ->
  intentionalClose (fst (step e m)) = true.
Proof.
  intros He Hm. destruct e; cbn [step]; try contradiction.
  - pose proof (connect_fields m) as (_ & _ & _ & ?). congruence.
  - pose proof (close_fields m) as (_ & _ & _ & ?). congruence.
  - unfold closeIntentionally.
    pose proof (close_fields (set_intentionalClose true m)) as (_ & _ & _ & H).
    exact H.
  - exact Hm.
  - unfold onmessage. destruct data; exact Hm.
  - exact Hm.
  - pose proof (connectionTimeout_fields k m) as (_ & _ & _ & ?). congruence.
  - unfold reconnect. pose proof (connect_fields m) as (_ & _ & _ & ?). congruence.
Qed.

(** Away from a successful opening, the counter moves only on an abnormal
    close that reconnects, by one. *)
Lemma step_attempts e m :
  match e with SocketOpen _ => False | _ => True end ->
  intentionalClose m = false ->
  reconnectAttempts (fst (step e m))
  = if is_abnormal_close e
       && (reconnectAttempts m <? maxReconnectAttempts m)%nat
    then S (reconnectAttempts m) else reconnectAttempts m.
Proof.
  intros He Hm. destruct e; cbn [step is_abnormal_close andb]; try contradiction.
  - apply connect_fields.
  - apply close_fields.
  - unfold closeIntentionally.
    apply (close_fields (set_intentionalClose true m)).
  - unfold onmessage. destruct data; reflexivity.
  - reflexivity.
  - rewrite onclose_attempts. unfold reconnects.
    cbn [set_sockets reconnectAttempts maxReconnectAttempts intentionalClose].
    rewrite Hm, andb_true_r. reflexivity.
  - apply connectionTimeout_fields.
  - apply connect_fields.
Qed.

Lemma run_cons e tr m :
  run (e :: tr) m
  = (fst (run tr (fst (step e m))),
     snd (step e m) ++ snd (run tr (fst (step e m)))).
Proof.
  cbn [run]. destruct (step e m) as [m1 e1]. cbn [fst snd].
  destruct (run tr m1). reflexivity.
Qed.

Lemma run_config tr : forall m,
  maxReconnectAttempts (fst (run tr m)) = maxReconnectAttempts m
  /\ reconnectDelay (fst (run tr m)) = reconnectDelay m.
Proof.
  induction tr as [| e tr IH]; intros m; [split; reflexivity |].
  rewrite run_cons. cbn [fst].
  destruct (IH (fst (step e m))) as [-> ->]. apply step_config.
Qed.

(** The flag stays down along a trace without a deliberate close. *)
Lemma run_flag tr : forall m,
  never_intentional tr = true ->
  intentionalClose m = false ->
  intentionalClose (fst (run tr m)) = false.
Proof.
  induction tr as [| e tr IH]; intros m Htr Hm; [exact Hm |].
  rewrite run_cons. cbn [fst].
  cbn [never_intentional forallb] in Htr. apply andb_prop in Htr as [He Htr].
  apply IH; [exact Htr |].
  apply step_flag; [| exact Hm]. intros ->. discriminate.
Qed.

Lemma run_flag_raised tr : forall m,
  never_closes tr = true ->
  intentionalClose m = true ->
  intentionalClose (fst (run tr m)) = true.
Proof.
  induction tr as [| e tr IH]; intros m Htr Hm; [exact Hm |].
  rewrite run_cons. cbn [fst].
  cbn [never_closes forallb] in Htr. apply andb_prop in Htr as [He Htr].
  apply IH; [exact Htr |].
  apply step_flag_raised; [| exact Hm]. destruct e; try exact I. discriminate.
Qed.

(** Without a successful opening in between, the counter counts the
    abnormal closes up to the ceiling. *)
Lemma run_attempts tr : forall m,
  never_opens tr = true ->
  never_intentional tr = true ->
  intentionalClose m = false ->
  (reconnectAttempts m <= maxReconnectAttempts m)%nat ->
  reconnectAttempts (fst (run tr m))
  = Nat.min (maxReconnectAttempts m) (reconnectAttempts m + abnormal_closes tr).
Proof.
  induction tr as [| e tr IH]; intros m Ho Hi Hm Hle.
  - cbn. lia.
  - rewrite run_cons. cbn [fst].
    cbn [never_opens forallb] in Ho. apply andb_prop in Ho as [Hoe Ho].
    cbn [never_intentional forallb] in Hi. apply andb_prop in Hi as [Hie Hi].
    assert (Hnot_open : match e with SocketOpen _ => False | _ => True end)
      by (destruct e; try exact I; discriminate).
    assert (Hnot_int : e <> CallCloseIntentionally)
      by (intros ->; discriminate).
    pose proof (step_attempts e m Hnot_open Hm) as Hstep.
    pose proof (step_config e m) as [Hmax _].
    pose proof (step_flag e m Hnot_int Hm) as Hflag.
    unfold never_opens, never_intentional in IH.
    rewrite IH; try assumption.
    + rewrite Hmax, Hstep. unfold abnormal_closes. cbn [List.filter].
      destruct (is_abnormal_close e); cbn [andb length].
      * destruct (reconnectAttempts m <? maxReconnectAttempts m)%nat eqn:E.
        -- lia.
        -- apply Nat.ltb_ge in E. lia.
      * lia.
    + rewrite Hmax, Hstep.
      destruct (is_abnormal_close e); cbn [andb]; [| exact Hle].
      destruct (reconnectAttempts m <? maxReconnectAttempts m)%nat eqn:E.
      * apply Nat.ltb_lt in E. lia.
      * exact Hle.
Qed.

End ChannelTraces.

(** *** Reconnection, the intentional close and the connection timeout *)

Section ChannelClaims.

Import WebSocketManager.

Implicit Types (m : t) (k : nat) (code : Z) (tr : list Event).

Example five_abnormal_closes :
  let tr := [SocketClosed 0 1006; SocketClosed 0 1006; SocketClosed 0 1011;
             SocketClosed 0 1006; SocketClosed 0 4000; SocketClosed 0 1006] in
  scheduled (snd (run tr (constructor "ws://localhost:5000")))
  = [1000; 2000; 4000; 8000; 16000].
Proof. reflexivity. Qed.

Example reopening_resets_the_counter :
  let tr := [CallConnect; SocketClosed 0 1006; ReconnectFires; SocketOpen 1;
             SocketClosed 1 1006] in
  scheduled (snd (run tr (constructor "ws://localhost:5000"))) = [1000; 1000].
Proof. reflexivity. Qed.

(** The rule as the specification words it, with the exponent read from
    the incremented counter, does not hold: the first reconnection of a
    fresh channel comes after 1000 ms, not after 2000 ms. *)
Lemma spec_reconnect_rule_fails : ~ spec_reconnect_rule.
Proof.
  intros H.
  assert (Hlt : (reconnectAttempts (constructor "ws://localhost:5000")
                 < maxReconnectAttempts (constructor "ws://localhost:5000"))%nat)
    by (cbn; lia).
  specialize (H (constructor "ws://localhost:5000") 0%nat 1006
                ltac:(discriminate) eq_refl Hlt).
  vm_compute in H. discriminate H.
Qed.

(** C2 (amended).  An abnormal close that is not intentional and finds the
    counter below the ceiling increments the counter and schedules one
    reconnection after [baseDelay * 2^(attempts - 1)], [attempts] being the
    incremented counter; a normal closure, an intentional close or a
    counter at the ceiling schedule nothing; and once five abnormal closes
    have occurred without a successful opening in between, with the default
    ceiling of 5, no further close schedules a reconnection. *)
Theorem reconnect_delay_and_ceiling m k code tr :
  (code <> 1000 -> intentionalClose m = false ->
   (reconnectAttempts m < maxReconnectAttempts m)%nat ->
   let m' := fst (onclose k code m) in
   reconnectAttempts m' = S (reconnectAttempts m)
   /\ scheduled (snd (onclose k code m))
      = [reconnectDelay m' * 2 ^ Z.of_nat (reconnectAttempts m' - 1)])
  /\ (code = 1000 \/ intentionalClose m = true
      \/ (maxReconnectAttempts m <= reconnectAttempts m)%nat ->
      scheduled (snd (onclose k code m)) = [])
  /\ (reconnectAttempts m = 0%nat -> maxReconnectAttempts m = 5%nat ->
      intentionalClose m = false ->
      never_opens tr = true -> never_intentional tr = true ->
      (5 <= abnormal_closes tr)%nat ->
      let m5 := fst (run tr m) in
      reconnectAttempts m5 = 5%nat
      /\ forall k' code', scheduled (snd (onclose k' code' m5)) = []).
Proof.
  split; [| split].
  - intros Hc Hi Ha m'. subst m'.
    pose proof (reconnects_true m code Hc Hi Ha) as Hr.
    destruct (onclose_config m k code) as [_ Hd].
    rewrite Hd, onclose_attempts, onclose_scheduled, Hr.
    split; [reflexivity |]. rewrite Nat.sub_1_r. reflexivity.
  - intros H. rewrite onclose_scheduled, (reconnects_false m code H). reflexivity.
  - intros H0 Hmax Hi Ho Hni H5 m5.
    assert (Hm5 : reconnectAttempts m5 = 5%nat).
    { subst m5. rewrite run_attempts; try assumption; lia. }
    split; [exact Hm5 |].
    intros k' code'. rewrite onclose_scheduled, reconnects_false; [reflexivity |].
    right; right. subst m5. destruct (run_config tr m) as [-> _]. lia.
Qed.

Lemma reconnect_delay_and_ceiling_witness :
  scheduled (snd (onclose 0 1006 (constructor "ws://localhost:5000"))) = [1000]
  /\ scheduled (snd (onclose 0 1000 (constructor "ws://localhost:5000"))) = []
  /\ scheduled
       (snd (onclose 0 1006
          (fst (run [SocketClosed 0 1006; SocketClosed 0 1006;
                     SocketClosed 0 1006; SocketClosed 0 1006;
                     SocketClosed 0 1006]
                  (constructor "ws://localhost:5000"))))) = [].
Proof.
  split; [| split].
  - refine (proj2 (proj1 (reconnect_delay_and_ceiling
             (constructor "ws://localhost:5000") 0 1006 []) _ _ _)).
    + discriminate.
    + reflexivity.
    + cbn. lia.
  - refine (proj1 (proj2 (reconnect_delay_and_ceiling
             (constructor "ws://localhost:5000") 0 1000 [])) _).
    left. reflexivity.
  - refine (proj2 (proj2 (proj2 (reconnect_delay_and_ceiling
             (constructor "ws://localhost:5000") 0 1006
             [SocketClosed 0 1006; SocketClosed 0 1006; SocketClosed 0 1006;
              SocketClosed 0 1006; SocketClosed 0 1006])) _ _ _ _ _ _) 0%nat 1006);
      reflexivity.
Defined.

Lemma closeIntentionally_raises_flag m :
  intentionalClose (fst (closeIntentionally m)) = true.
Proof.
  unfold closeIntentionally.
  pose proof (close_fields (set_intentionalClose true m)) as (_ & _ & _ & H).
  exact H.
Qed.

Lemma step_closed_scheduled m k code :
  scheduled (snd (step (SocketClosed k code) m))
  = if reconnects m code
    then [reconnectDelay m * 2 ^ Z.of_nat (reconnectAttempts m)]
    else [].
Proof. cbn [step]. rewrite onclose_scheduled. reflexivity. Qed.

Example intentional_then_abnormal :
  let tr := [CallConnect; SocketOpen 0; CallCloseIntentionally;
             SocketClosed 0 1006; CallConnect; SocketOpen 1;
             SocketClosed 1 1006] in
  scheduled (snd (run tr (constructor "ws://localhost:5000"))) = [1000].
Proof. reflexivity. Qed.

(** C5.  After [closeIntentionally()], the next close event schedules no
    reconnection whatever its code, and leaves the flag cleared; as long
    as [closeIntentionally()] is not called again the flag stays cleared,
    so that a later abnormal close below the ceiling does schedule a
    reconnection. *)
Theorem intentional_close_is_one_shot m tr0 k code tr k' code' :
  let m1 := fst (run tr0 (fst (closeIntentionally m))) in
  let m2 := fst (step (SocketClosed k code) m1) in
  let m3 := fst (run tr m2) in
  (never_closes tr0 = true ->
   scheduled (snd (step (SocketClosed k code) m1)) = [])
  /\ intentionalClose m2 = false
  /\ (never_intentional tr = true -> code' <> 1000 ->
      (reconnectAttempts m3 < maxReconnectAttempts m3)%nat ->
      scheduled (snd (step (SocketClosed k' code') m3))
      = [reconnectDelay m3 * 2 ^ Z.of_nat (reconnectAttempts m3)]).
Proof.
  intros m1 m2 m3.
  assert (H2 : intentionalClose m2 = false) by apply onclose_clears_flag.
  split; [| split].
  - intros Htr0.
    rewrite step_closed_scheduled, reconnects_false; [reflexivity |].
    right; left. apply run_flag_raised; [exact Htr0 |].
    apply closeIntentionally_raises_flag.
  - exact H2.
  - intros Htr Hc Ha.
    rewrite step_closed_scheduled, reconnects_true; try assumption; [reflexivity |].
    apply run_flag; assumption.
Qed.

Lemma intentional_close_is_one_shot_witness :
  let m1 := fst (run [] (fst (closeIntentionally (constructor "ws://localhost:5000")))) in
  let m2 := fst (step (SocketClosed 0 1006) m1) in
  let m3 := fst (run [] m2) in
  scheduled (snd (step (SocketClosed 0 1006) m1)) = []
  /\ scheduled (snd (step (SocketClosed 0 1006) m3)) = [1000].
Proof.
  intros m1 m2 m3.
  pose proof (intentional_close_is_one_shot
                (constructor "ws://localhost:5000") [] 0 1006 [] 0 1006) as H.
  destruct H as (H1 & _ & H3).
  split; [exact (H1 eq_refl) |].
  assert (Hc : 1006 <> 1000) by discriminate.
  assert (Hlt : (reconnectAttempts m3 < maxReconnectAttempts m3)%nat)
    by (cbn; lia).
  exact (eq_trans (H3 eq_refl Hc Hlt) eq_refl).
Defined.

(** When the timer fires while the manager holds a socket that is not
    open, the callback rejects the promise and does nothing else. *)
Lemma connectionTimeout_not_open m k j :
  ws m = Some j ->
  match sockets m !! j with Some r => JS.is_open r | None => false end = false ->
  connectionTimeout k m
  = (set_isConnecting false m, [Reject k "Connection timeout"]).
Proof. intros Hws Hr. unfold connectionTimeout. rewrite Hws, Hr. reflexivity. Qed.

(** The timeout as the specification words it does not hold: the error
    observers are not called when the timer fires. *)
Lemma spec_timeout_rule_fails : ~ spec_timeout_rule.
Proof.
  intros H.
  destruct (H (onError 7%nat (constructor "ws://localhost:5000")) 7%nat
              eq_refl eq_refl) as [_ Hn].
  - apply list_elem_of_In. left. reflexivity.
  - vm_compute in Hn. discriminate Hn.
Qed.

(** While the channel waits, every step leaves it waiting, does not
    disarm the timeout of the socket [k] and does not settle its
    promise. *)
Lemma waiting_connect (k : nat) m :
  waiting k m -> waiting k (fst (connect m))
  /\ Forall (fun effect => settles k effect = false) (snd (connect m)).
Proof.
  intros [(j & Hws & Hj) Hall]. unfold connect.
  destruct (isConnecting m || isConnected m).
  - split; [split; [exists j; auto | exact Hall] |]. repeat constructor.
  - cbn [fst snd]. split; [split |].
    + exists (length (sockets m)). cbn. rewrite length_app. cbn. split; [reflexivity | lia].
    + cbn. intros j' r Hle Hlook.
      apply lookup_app_Some in Hlook as [Hlook | [_ Hlook]].
      * eapply Hall; eassumption.
      * destruct (j' - length (sockets m))%nat; [| discriminate Hlook].
        injection Hlook as <-. reflexivity.
    + repeat constructor.
Qed.

Lemma Forall_settles_map {A} (k : nat) (f : A -> Effect) (l : list A) :
  (forall a, settles k (f a) = false) ->
  Forall (fun effect => settles k effect = false) (map f l).
Proof. intros H. apply Forall_map, Forall_forall. intros a _. apply H. Qed.

Lemma waiting_step (k : nat) (e : Event) m :
  keeps_waiting k e = true -> waiting k m ->
  waiting k (fst (step e m))
  /\ Forall (fun effect => settles k effect = false) (snd (step e m)).
Proof.
  intros He Hw.
  destruct e as [| | | k' | k' data | k' error | k' code | k' |];
    try discriminate He; cbn [step keeps_waiting] in *.
  - apply waiting_connect, Hw.
  - destruct Hw as [(j & Hws & Hj) Hall]. unfold onmessage.
    split; [destruct data; split; eauto |].
    destruct data; cbn [snd]; [| constructor].
    apply Forall_settles_map. reflexivity.
  - destruct Hw as [(j & Hws & Hj) Hall]. unfold onerror. cbn [fst snd].
    split; [split; [exists j; auto | exact Hall] |].
    constructor; [cbn; apply negb_true_iff in He; exact He |].
    apply Forall_app. split; [apply Forall_settles_map; reflexivity |].
    constructor; [cbn; apply negb_true_iff in He; exact He | constructor].
  - destruct Hw as [(j & Hws & Hj) Hall]. unfold onclose.
    set (m0 := set_sockets _ m).
    assert (Hw0 : waiting k m0).
    { split.
      - exists j. subst m0. cbn. rewrite length_insert. auto.
      - subst m0. cbn. intros j' r Hle Hlook.
        destruct (decide (k' = j')) as [-> | Hne].
        + apply list_lookup_insert_Some in Hlook as [(_ & <- & _) | [Hc _]];
            [reflexivity | contradiction].
        + rewrite list_lookup_insert_ne in Hlook by exact Hne.
          eapply Hall; eassumption. }
    clearbody m0. clear Hws Hj Hall j. destruct Hw0 as [(j & Hws & Hj) Hall].
    unfold attemptReconnect. cbn [reconnectAttempts set_isConnecting set_isConnected
      maxReconnectAttempts intentionalClose closeHandlers].
    destruct (negb (code =? 1000) && _ && _);
      [destruct (maxReconnectAttempts m0 <=? reconnectAttempts m0)%nat |];
      cbn [fst snd]; (split; [split; [exists j; auto | exact Hall] |]);
      (constructor; [cbn; apply negb_true_iff in He; exact He |]);
      apply Forall_app; (split; [apply Forall_settles_map; reflexivity |]);
      repeat constructor.
  - destruct Hw as [(j & Hws & Hj) Hall]. unfold connectionTimeout. rewrite Hws.
    destruct (sockets m !! j) as [r |] eqn:Hr.
    + rewrite (Hall j r (proj1 Hj) Hr). cbn [fst snd].
      split; [split; [exists j; auto | exact Hall] |].
      constructor; [cbn; apply negb_true_iff in He; exact He | constructor].
    + cbn [fst snd]. split; [split; [exists j; auto | exact Hall] |].
      constructor; [cbn; apply negb_true_iff in He; exact He | constructor].
  - apply waiting_connect, Hw.
Qed.

Lemma waiting_run (k : nat) (tr : list Event) : forall m,
  forallb (keeps_waiting k) tr = true -> waiting k m ->
  waiting k (fst (run tr m))
  /\ Forall (fun effect => settles k effect = false) (snd (run tr m)).
Proof.
  induction tr as [| e tr IH]; intros m Htr Hw; [split; [exact Hw | constructor] |].
  cbn [forallb] in Htr. apply andb_prop in Htr as [He Htr].
  destruct (waiting_step k e m He Hw) as [Hw1 He1].
  cbn [run]. destruct (step e m) as [m1 effects1]. cbn [fst snd] in *.
  destruct (IH m1 Htr Hw1) as [Hw2 He2].
  destruct (run tr m1) as [m2 effects2]. cbn [fst snd] in *.
  split; [exact Hw2 |]. apply Forall_app. split; assumption.
Qed.

(** C3 (amended).  [connect()] on a channel that is neither connected nor
    connecting arms a timeout of 10000 ms for the socket it creates.
    Whatever happens until it fires, as long as no open acknowledgment
    arrives, the user does not close the channel and that socket reports
    neither an error nor a close, the timeout is still armed and the
    promise still pending; when it fires, the promise returned to the
    caller is rejected with "Connection timeout" and the connecting flag
    is cleared.  The error observers are not called by the timeout. *)
Theorem connect_timeout_rejects_caller m (tr : list Event) :
  isConnecting m = false -> isConnected m = false ->
  let k := length (sockets m) in
  forallb (keeps_waiting k) tr = true ->
  let m1 := fst (run tr (fst (connect m))) in
  snd (connect m) = [NewWebSocket k (url m); SetTimeout (ConnectionTimeout k) 10000]
  /\ Forall (fun effect => settles k effect = false)
       (snd (run tr (fst (connect m))))
  /\ connectionTimeout k m1
     = (set_isConnecting false m1, [Reject k "Connection timeout"])
  /\ rejects k "Connection timeout" (snd (connectionTimeout k m1)) = true
  /\ forall h, notifies_error h (snd (connectionTimeout k m1)) = false.
Proof.
  intros Hing Hed k Htr m1.
  assert (Hconnect : connect m
                     = (set_sockets (sockets m ++ [JS.CONNECTING])
                          (set_ws (Some k) (set_isConnecting true m)),
                        [NewWebSocket k (url m);
                         SetTimeout (ConnectionTimeout k) 10000])).
  { unfold connect. rewrite Hing, Hed. reflexivity. }
  assert (Hw0 : waiting k (fst (connect m))).
  { rewrite Hconnect. cbn [fst]. split.
    - exists k. cbn. rewrite length_app. cbn. split; [reflexivity | lia].
    - cbn. intros j r Hle Hlook.
      apply lookup_app_Some in Hlook as [Hlook | [_ Hlook]].
      + apply lookup_lt_Some in Hlook. lia.
      + destruct (j - length (sockets m))%nat; [| discriminate Hlook].
        injection Hlook as <-. reflexivity. }
  destruct (waiting_run k tr _ Htr Hw0) as [[(j & Hws & Hj) Hall] Heff].
  fold m1 in Hws, Hj, Hall.
  assert (Hfire : connectionTimeout k m1
                  = (set_isConnecting false m1, [Reject k "Connection timeout"])).
  { unfold connectionTimeout. rewrite Hws.
    destruct (sockets m1 !! j) as [r |] eqn:Hr; [| reflexivity].
    rewrite (Hall j r (proj1 Hj) Hr). reflexivity. }
  split; [rewrite Hconnect; reflexivity |].
  split; [exact Heff |]. split; [exact Hfire |].
  rewrite Hfire. cbn [snd rejects notifies_error existsb].
  split; [| reflexivity].
  rewrite Nat.eqb_refl. reflexivity.
Qed.

Lemma connect_timeout_rejects_caller_witness :
  let m := onError 7%nat (constructor "ws://localhost:5000") in
  let tr := [SocketMessage 0 (Some "hello"%string); CallConnect] in
  let m1 := fst (run tr (fst (connect m))) in
  snd (connect m)
  = [NewWebSocket 0 (url m); SetTimeout (ConnectionTimeout 0) 10000]
  /\ Forall (fun effect => settles 0 effect = false)
       (snd (run tr (fst (connect m))))
  /\ connectionTimeout 0 m1
     = (set_isConnecting false m1, [Reject 0 "Connection timeout"])
  /\ rejects 0 "Connection timeout" (snd (connectionTimeout 0 m1)) = true
  /\ forall h, notifies_error h (snd (connectionTimeout 0 m1)) = false.
Proof.
  exact (connect_timeout_rejects_caller
           (onError 7%nat (constructor "ws://localhost:5000"))
           [SocketMessage 0 (Some "hello"%string); CallConnect]
           eq_refl eq_refl eq_refl).
Defined.

(** Outside these conditions the caller is not told of a timeout: after
    [close()] the callback of the timer reads a null handle and throws,
    and after a close event of the socket the timer has been disarmed and
    the promise is never settled. *)
Example timeout_after_close :
  snd (run [CallConnect; CallClose; ConnectionTimeoutFires 0]
         (constructor "ws://localhost:5000"))
  = [NewWebSocket 0 "ws://localhost:5000";
     SetTimeout (ConnectionTimeout 0) 10000;
     SocketClose 0;
     Uncaught "TypeError: Cannot read properties of null"].
Proof. reflexivity. Qed.

Example timeout_disarmed_by_close_event :
  snd (run [CallConnect; SocketClosed 0 1000]
         (constructor "ws://localhost:5000"))
  = [NewWebSocket 0 "ws://localhost:5000";
     SetTimeout (ConnectionTimeout 0) 10000;
     ClearTimeout (ConnectionTimeout 0)].
Proof. reflexivity. Qed.

End ChannelClaims.

(** ** The event classifier *)

Section Classifier.

Import AssemblyAIStreaming.

Lemma includes_char (c : ascii) (s : string) :
  JS.includes (String c EmptyString) s = true <-> In c (list_ascii_of_string s).
Proof.
  induction s as [| b s IH]; cbn [JS.includes String.prefix list_ascii_of_string].
  - split; [discriminate | intros []].
  - destruct (ascii_dec c b) as [-> | Hne].
    + replace (String.prefix EmptyString s) with true by (destruct s; reflexivity).
      split; [intros _; left; reflexivity | reflexivity].
    + rewrite IH. split; [intros H; right; exact H |].
      intros [H | H]; [congruence | exact H].
Qed.

Lemma test_A_Z_spec (s : string) :
  JS.test_A_Z s = true
  <-> exists c, In c (list_ascii_of_string s) /\ (65 <= N_of_ascii c <= 90)%N.
Proof.
  unfold JS.test_A_Z. rewrite existsb_exists.
  split; intros (c & Hin & Hc); exists c; (split; [exact Hin |]).
  - unfold JS.in_A_Z in Hc. apply andb_prop in Hc as [H1 H2].
    apply N.leb_le in H1, H2. lia.
  - unfold JS.in_A_Z. apply andb_true_intro.
    split; apply N.leb_le; lia.
Qed.

(** The test of the code is the narrower formatting. *)
Lemma hasProperFormatting_formatted (text : string) :
  hasProperFormatting text = true <-> formatted text.
Proof.
  unfold hasProperFormatting, formatted.
  rewrite !orb_true_iff, !includes_char, test_A_Z_spec.
  split.
  - intros [[[[H | H] | H] | H] | (c & Hin & Hc)].
    + exists "."%char. auto.
    + exists ","%char. auto 6.
    + exists "!"%char. auto 6.
    + exists "?"%char. auto 6.
    + exists c. auto 7.
  - intros (c & Hin & [-> | [-> | [-> | [-> | Hc]]]]); auto 6.
    right. exists c. auto.
Qed.

Lemma hasProperFormatting_not_formatted (text : string) :
  hasProperFormatting text = false <-> ~ formatted text.
Proof.
  rewrite <- hasProperFormatting_formatted.
  destruct (hasProperFormatting text); split; congruence.
Qed.

(** The classification of an end-of-turn message. *)
Lemma classify_end_of_turn (message : Message) :
  type message = "Turn"%string -> end_of_turn message = true ->
  classify message
  = if hasProperFormatting (transcript message)
    then Some (turn (transcript message) false true (end_of_turn_confidence message))
    else None.
Proof.
  intros Ht He. unfold classify. rewrite Ht, He. cbn [String.eqb negb].
  change (String.eqb "Turn" "Turn") with true. cbv iota.
  destruct (JS.truthy (transcript message)) eqn:E; [reflexivity |].
  destruct (transcript message); [reflexivity | discriminate E].
Qed.

Example classify_partial :
  classify (mkMessage "Turn" "" "hello wor" false (JS.VNumber 0.25))
  = Some (turn "hello wor" true false (JS.VNumber 0.25)).
Proof. reflexivity. Qed.

Example classify_raw_final_ignored :
  classify (mkMessage "FinalTranscript" "FinalTranscript" "Hello." true JS.VUndefined)
  = None.
Proof. reflexivity. Qed.

(** The upper-case letters are the characters that [toLowerCase]
    changes. *)
Lemma is_upper_case_lowered (c : ascii) :
  JS.is_upper_case c = negb (Ascii.eqb (JSString.toLowerCase_char c) c).
Proof.
  destruct c as [[] [] [] [] [] [] [] []]; vm_compute; reflexivity.
Qed.

(** The rule as the specification words it does not hold: an end-of-turn
    text whose only mark of formatting is an accented capital, such as
    "\u00c9t", contains an upper-case letter and yields no event. *)
Lemma spec_formatting_rule_fails : ~ spec_formatting_rule.
Proof.
  intros H.
  destruct (H (mkMessage "Turn" "" (String "201"%char "t") true JS.VUndefined)
              eq_refl eq_refl) as [Hfinal _].
  assert (Hspec : spec_formatted (String "201"%char "t")).
  { exists "201"%char. split; [left; reflexivity |]. do 4 right. reflexivity. }
  specialize (Hfinal Hspec). discriminate Hfinal.
Qed.

(** C4 (amended).  An end-of-turn message yields the final event carrying
    its text exactly when the text contains one of . , ! ? or a letter
    from A to Z, and yields nothing otherwise; "hello world" yields
    nothing and "Hello world." yields the final event with that text. *)
Theorem classify_final_iff_formatted (message : Message) :
  type message = "Turn"%string -> end_of_turn message = true ->
  (formatted (transcript message)
   <-> classify message
       = Some (turn (transcript message) false true (end_of_turn_confidence message)))
  /\ (~ formatted (transcript message) <-> classify message = None)
  /\ (forall confidence,
        classify (mkMessage "Turn" "" "hello world" true confidence) = None
        /\ classify (mkMessage "Turn" "" "Hello world." true confidence)
           = Some (turn "Hello world." false true confidence)).
Proof.
  intros Ht He. rewrite (classify_end_of_turn message Ht He).
  rewrite <- hasProperFormatting_not_formatted, <- hasProperFormatting_formatted.
  destruct (hasProperFormatting (transcript message)).
  - repeat split; intros; try reflexivity; discriminate.
  - repeat split; intros; try reflexivity; discriminate.
Qed.

Lemma classify_final_iff_formatted_witness :
  formatted "Hello world."
  /\ classify (mkMessage "Turn" "" "Hello world." true JS.VUndefined)
     = Some (turn "Hello world." false true JS.VUndefined)
  /\ ~ formatted "hello world".
Proof.
  pose proof (classify_final_iff_formatted
                (mkMessage "Turn" "" "Hello world." true JS.VUndefined)
                eq_refl eq_refl) as (H1 & _ & _).
  pose proof (classify_final_iff_formatted
                (mkMessage "Turn" "" "hello world" true JS.VUndefined)
                eq_refl eq_refl) as (_ & H2 & _).
  split; [| split].
  - apply H1. reflexivity.
  - reflexivity.
  - apply H2. reflexivity.
Defined.

End Classifier.

(** ** The upstream client and the session proxy *)

Section Proxy.

Import Node.

Implicit Types (w : World).

(** [terminate()] returns normally, clears the handle, may mark the
    socket as closing, and touches nothing else. *)
Lemma terminate_shape w :
  exists socks,
    length socks = length (sockets w)
    /\ AssemblyAIStreaming.terminate w
       = (Normal tt, set_ws None (set_sockets socks w)).
Proof.
  unfold AssemblyAIStreaming.terminate. unfold_m. cbn [id].
  terminate_cases w.
  - exists (sockets w). split; reflexivity.
  - eexists. split; [| reflexivity]. apply length_alter.
  - exists (sockets w). split; reflexivity.
  - exists (sockets w). split; reflexivity.
  - exists (sockets w). split; reflexivity.
Qed.

Lemma terminate_without_handle w :
  ws w = None -> AssemblyAIStreaming.terminate w = (Normal tt, w).
Proof.
  intros H. unfold AssemblyAIStreaming.terminate. unfold_m. cbn [id].
  unfold ws_is_open. rewrite H.
  destruct w; cbn in *; subst; reflexivity.
Qed.

Lemma sendAudio_without_handle w (chunk : string) :
  ws w = None ->
  AssemblyAIStreaming.sendAudio chunk w
  = (Throw "AssemblyAI WebSocket not connected", w).
Proof.
  intros H. unfold AssemblyAIStreaming.sendAudio. unfold_m. cbn [id].
  unfold ws_is_open. rewrite H. reflexivity.
Qed.

Example terminate_open_socket :
  let w := {| isSessionActive := true; isTerminating := false;
              apiKey := Some "key"%string; ws := Some 0%nat;
              sockets := [mkSocket JS.OPEN ["AAAA"%string] None];
              outbox := []; env := mkEnv false None false false |} in
  sockets (snd (AssemblyAIStreaming.terminate w))
  = [mkSocket JS.CLOSING ["AAAA"%string]
       (Some (1000, "Session terminated by user"%string))]
  /\ ws (snd (AssemblyAIStreaming.terminate w)) = None.
Proof. split; reflexivity. Qed.

(** C10.  [terminate()] returns normally and leaves the handle null
    whatever the handle and the socket were before; called again it
    changes nothing, and [sendAudio] after it throws
    "AssemblyAI WebSocket not connected". *)
Theorem terminate_clears_handle w :
  let w' := snd (AssemblyAIStreaming.terminate w) in
  fst (AssemblyAIStreaming.terminate w) = Normal tt
  /\ ws w' = None
  /\ AssemblyAIStreaming.terminate w' = (Normal tt, w')
  /\ forall chunk : string,
       AssemblyAIStreaming.sendAudio chunk w'
       = (Throw "AssemblyAI WebSocket not connected", w').
Proof.
  destruct (terminate_shape w) as (socks & _ & ->). cbn [fst snd].
  split; [reflexivity |]. split; [reflexivity |]. split.
  - apply terminate_without_handle. reflexivity.
  - intros chunk. apply sendAudio_without_handle. reflexivity.
Qed.

(** The terminate-session branch, whatever the libraries do: one call of
    [client.send], with the confirmation. *)
Lemma terminate_branch_shape w :
  exists socks,
    length socks = length (sockets w)
    /\ Server.terminate_branch w
       = (Normal tt,
          mk false false (apiKey w) None socks
             (outbox w ++ [Server.session_terminated]) (env w)).
Proof.
  unfold Server.terminate_branch, Server.try_send, client_send.
  unfold AssemblyAIStreaming.terminate. unfold_m. cbn [id].
  terminate_cases w; world_simpl;
    destruct (client_send_throws (env w));
    eexists; (split; [| reflexivity]);
    try reflexivity; apply length_alter.
Qed.

Example terminate_session_twice :
  outbox (Server.run [Server.ClientMessage (Some (Server.mkClientData true ""));
                      Server.ClientMessage (Some (Server.mkClientData true ""))]
            (Server.connection (Some "key"%string) (mkEnv false None false false)))
  = [Server.connection_established; Server.session_terminated;
     Server.session_terminated].
Proof. reflexivity. Qed.

(** C9.  A terminate-session request is answered by exactly one call of
    [client.send], carrying the [session_terminated] confirmation, and
    leaves the terminating flag at false, in whatever state it finds the
    proxy (idle without any upstream socket included) and whatever the
    libraries do; [terminate()] cannot throw, so [termination_error] is
    never sent.  No upstream socket is created and the proxy is left idle
    without a handle. *)
Theorem terminate_session_confirmed_once w (data : Server.ClientData) :
  Server.terminate_session data = true ->
  let w' := snd (Server.on_message (Some data) w) in
  fst (Server.on_message (Some data) w) = Normal tt
  /\ outbox w' = outbox w ++ [Server.session_terminated]
  /\ isTerminating w' = false
  /\ isSessionActive w' = false
  /\ ws w' = None
  /\ length (sockets w') = length (sockets w).
Proof.
  intros Hdata.
  destruct (terminate_branch_shape w) as (socks & Hlen & Hbranch).
  unfold Server.on_message, try_catch. rewrite Hdata, Hbranch. cbn [fst snd].
  repeat split; try reflexivity. exact Hlen.
Qed.

Lemma terminate_session_confirmed_once_witness :
  let w := Server.connection None (mkEnv false None false false) in
  let w' := snd (Server.on_message (Some (Server.mkClientData true "")) w) in
  outbox w' = [Server.connection_established; Server.session_terminated]
  /\ isTerminating w' = false
  /\ sockets w' = [].
Proof.
  pose proof (terminate_session_confirmed_once
                (Server.connection None (mkEnv false None false false))
                (Server.mkClientData true "") eq_refl)
    as (_ & Hout & Hterm & _ & _ & Hlen).
  split; [exact Hout |]. split; [exact Hterm |].
  apply length_zero_iff_nil. exact Hlen.
Defined.

(** The two tests of the audio branch do consult the terminating flag: a
    state with the flag raised, if a message could find one, would be
    left unchanged by an audio frame.  No message finds one: the flag is
    raised and lowered inside the terminate branch. *)
Lemma audio_dropped_while_terminating w (data : Server.ClientData) :
  isTerminating w = true ->
  Server.terminate_session data = false ->
  JS.truthy (Server.audio_data data) = true ->
  Server.on_message (Some data) w = (Normal tt, w).
Proof.
  intros Hterm Hstop Haudio.
  unfold Server.on_message, try_catch. rewrite Hstop, Haudio.
  unfold Server.forward_audio. unfold_m. cbn [id].
  rewrite Hterm, andb_false_r. cbv beta iota.
  rewrite Hterm, andb_false_r. reflexivity.
Qed.

Example audio_dropped_while_terminating_example :
  let w := {| isSessionActive := false; isTerminating := true;
              apiKey := Some "key"%string; ws := Some 0%nat;
              sockets := [mkSocket JS.OPEN [] None];
              outbox := [Server.connection_established];
              env := mkEnv false None false false |} in
  Server.on_message (Some (Server.mkClientData false "AAAA")) w = (Normal tt, w)
  /\ Server.state w = Server.Terminating.
Proof.
  split; [| reflexivity].
  apply audio_dropped_while_terminating; reflexivity.
Qed.

End Proxy.

(** *** A failed upstream connection *)

Section ConnectFailure.

Import Node.

Implicit Types (w : World).

(** [assemblyAI.connect] reports its failures to [onError] and returns
    normally, so [connectToAssemblyAI] always goes on to raise the active
    flag and to send the confirmation: its own [catch] never runs. *)
Lemma connectToAssemblyAI_always_confirms w :
  isSessionActive w = false -> isTerminating w = false ->
  let w' := snd (Server.connectToAssemblyAI w) in
  fst (Server.connectToAssemblyAI w) = Normal tt
  /\ isSessionActive w' = true
  /\ exists before,
       outbox w' = outbox w ++ before ++ [Server.assemblyai_connected]
       /\ Forall (fun payload => exists message, payload = Server.error message) before.
Proof.
  intros Hact Hterm.
  unfold Server.connectToAssemblyAI, AssemblyAIStreaming.connect, Server.onError,
    Server.try_send, client_send, new_WebSocket.
  unfold_m. cbn [id]. rewrite Hact, Hterm. cbn [orb].
  destruct (client_send_throws (env w)) eqn:Hsend;
    (destruct (match apiKey w with Some k => JS.truthy k | None => false end);
     [destruct (WebSocket_throws (env w)) |]);
    repeat (world_simpl; rewrite ?Hsend);
    (split; [reflexivity |]); (split; [reflexivity |]).
  all: try (exists []; split; [reflexivity | constructor]).
  all: eexists [_]; rewrite <- app_assoc; (split; [reflexivity |]);
    constructor; [eexists; reflexivity | constructor].
Qed.

(** With no credential, the first audio frame leaves the handle and the
    sockets as they were, raises the active flag and sends the error of
    [onError] followed by the confirmation. *)
Lemma audio_without_credential w (data : Server.ClientData) :
  isSessionActive w = false -> isTerminating w = false ->
  match apiKey w with Some k => JS.truthy k | None => false end = false ->
  client_send_throws (env w) = false ->
  ws_is_open w = false ->
  Server.terminate_session data = false ->
  JS.truthy (Server.audio_data data) = true ->
  Server.on_message (Some data) w
  = (Normal tt,
     set_outbox
       (outbox w
          ++ [Server.error
                "AssemblyAI connection error: AssemblyAI API key is required";
              Server.assemblyai_connected])
       (set_isSessionActive true w)).
Proof.
  intros Hact Hterm Hkey Hsend Hopen Hstop Haudio.
  unfold Server.on_message, try_catch. rewrite Hstop, Haudio.
  unfold Server.forward_audio, Server.connectToAssemblyAI,
    AssemblyAIStreaming.connect, Server.onError, Server.try_send, client_send.
  unfold_m. cbn [id]. rewrite Hact, Hterm. cbn [negb andb orb].
  rewrite Hact, Hterm. cbn [negb andb orb].
  rewrite Hkey.
  repeat (world_simpl; rewrite ?Hsend, ?Hterm).
  replace (ws_is_open _) with false by (symmetry; exact Hopen).
  cbn [negb andb]. rewrite <- app_assoc. reflexivity.
Qed.

(** C1 (the code at the failing input).  A connection without credential
    that receives an audio frame is left active with no upstream socket at
    all: the client is sent the error of [onError] and then the
    [assemblyai_connected] confirmation; every later frame is dropped and
    no connection is attempted again. *)
Theorem missing_credential_leaves_proxy_active :
  let w := Server.connection None (mkEnv false None false false) in
  let audio := Server.mkClientData false "AAAA" in
  let w' := snd (Server.on_message (Some audio) w) in
  Server.state w = Server.Idle
  /\ Server.state w' = Server.Active
  /\ Server.live_upstream w' = false
  /\ ws w' = None /\ sockets w' = []
  /\ outbox w'
     = [Server.connection_established;
        Server.error "AssemblyAI connection error: AssemblyAI API key is required";
        Server.assemblyai_connected]
  /\ Server.on_message (Some audio) w' = (Normal tt, w').
Proof. repeat split. Qed.

(** The rule of the specification for a failed connection does not hold
    of the code. *)
Lemma spec_connect_failure_rule_fails : ~ Server.spec_connect_failure_rule.
Proof.
  intros H.
  destruct (H (Server.connection None (mkEnv false None false false))
              (Server.mkClientData false "AAAA")
              eq_refl eq_refl eq_refl eq_refl) as (Hstate & _).
  discriminate Hstate.
Qed.

(** The same happens when the connection fails later: the confirmation
    has been sent when the error arrives. *)
Example refused_connection_was_confirmed :
  outbox (Server.run [Server.ClientMessage (Some (Server.mkClientData false "AAAA"));
                      Server.UpstreamError 0 "ECONNREFUSED"]
            (Server.connection (Some "key"%string) (mkEnv false None false false)))
  = [Server.connection_established; Server.assemblyai_connected;
     Server.error "AssemblyAI connection error: ECONNREFUSED"].
Proof. reflexivity. Qed.

End ConnectFailure.

(** * Further properties of the relay *)

(** ** The worklet: nothing lost, nothing depending on the quanta *)

Section FramingMore.

Import AudioProcessor.

Context {A : Type}.
Implicit Types (p : t A) (s : list A).

(** Lists of frames of one positive length with the same concatenation
    are the same list. *)
Lemma frames_determined (n : nat) (l1 : list (list A)) : forall l2,
  (0 < n)%nat ->
  Forall (fun f => length f = n) l1 ->
  Forall (fun f => length f = n) l2 ->
  concat l1 = concat l2 -> l1 = l2.
Proof.
  induction l1 as [| f1 l1 IH]; intros [| f2 l2] Hn H1 H2 Hc.
  - reflexivity.
  - apply Forall_cons in H2 as [Hf2 _]. cbn in Hc.
    assert (length (f2 ++ concat l2) = 0%nat) by (rewrite <- Hc; reflexivity).
    rewrite length_app in *. lia.
  - apply Forall_cons in H1 as [Hf1 _]. cbn in Hc.
    assert (length (f1 ++ concat l1) = 0%nat) by (rewrite Hc; reflexivity).
    rewrite length_app in *. lia.
  - apply Forall_cons in H1 as [Hf1 H1]. apply Forall_cons in H2 as [Hf2 H2].
    cbn in Hc. apply app_inj_1 in Hc as [-> Hc]; [| congruence].
    f_equal. apply IH; assumption.
Qed.

End FramingMore.

(** X1.  The frames the worklet posts depend on the captured samples
    only, not on how the browser cuts them into render quanta: two
    captures with the same samples of the first channel post the same
    frames and leave the same number of samples waiting in the buffer. *)
Theorem framer_ignores_quantum_boundaries (A : Type) (zero : A)
    (calls1 calls2 : list (list (list A))) :
  AudioProcessor.samples calls1 = AudioProcessor.samples calls2 ->
  let p1 := AudioProcessor.run (AudioProcessor.constructor zero) calls1 in
  let p2 := AudioProcessor.run (AudioProcessor.constructor zero) calls2 in
  AudioProcessor.port p1 = AudioProcessor.port p2
  /\ AudioProcessor.bufferIndex p1 = AudioProcessor.bufferIndex p2.
Proof.
  intros Hs p1 p2.
  pose proof (framed_run calls1 _ _ (framed_constructor zero)) as H1.
  pose proof (framed_run calls2 _ _ (framed_constructor zero)) as H2.
  simpl app in H1, H2. fold p1 in H1. fold p2 in H2.
  pose proof (framed_port _ _ H1) as (Hc1 & _ & Hi1).
  pose proof (framed_port _ _ H2) as (Hc2 & _ & Hi2).
  pose proof (AudioProcessor.framed_frames _ _ H1) as Hf1.
  pose proof (AudioProcessor.framed_frames _ _ H2) as Hf2.
  unfold p1, p2 in *. rewrite run_bufferSize in *.
  change (AudioProcessor.bufferSize (AudioProcessor.constructor zero))
    with 4096%nat in *.
  split.
  - apply (frames_determined 4096); try assumption; [lia |].
    rewrite Hc1, Hc2, Hs. reflexivity.
  - rewrite <- Hi1, <- Hi2, Hs. reflexivity.
Qed.

Lemma framer_ignores_quantum_boundaries_witness :
  AudioProcessor.port
    (AudioProcessor.run (AudioProcessor.constructor 0%Z) [[[1; 2]]; [[3]]])
  = AudioProcessor.port
      (AudioProcessor.run (AudioProcessor.constructor 0%Z) [[[1]]; []; [[2; 3]; [7]]]).
Proof.
  exact (proj1 (framer_ignores_quantum_boundaries Z 0
                  [[[1; 2]]; [[3]]] [[[1]]; []; [[2; 3]; [7]]] eq_refl)).
Defined.

(** X2.  No sample is lost or duplicated: at any point of a capture the
    posted frames followed by the filled part of the buffer are exactly
    the samples captured so far; the buffer keeps its 4096 slots and the
    index, which stays below 4096, counts the samples that wait. *)
Theorem framer_accounts_for_every_sample (A : Type) (zero : A)
    (calls : list (list (list A))) :
  let p := AudioProcessor.run (AudioProcessor.constructor zero) calls in
  concat (AudioProcessor.port p)
    ++ take (AudioProcessor.bufferIndex p) (AudioProcessor.buffer p)
  = AudioProcessor.samples calls
  /\ AudioProcessor.bufferIndex p
     = (length (AudioProcessor.samples calls) mod 4096)%nat
  /\ (AudioProcessor.bufferIndex p < 4096)%nat
  /\ length (AudioProcessor.buffer p) = 4096%nat.
Proof.
  intros p.
  pose proof (framed_run calls _ _ (framed_constructor zero)) as H.
  simpl app in H. fold p in H.
  pose proof (framed_port _ _ H) as (_ & _ & Hi).
  destruct H as [_ Hbuf Hidx _ Hdata].
  unfold p in *. rewrite run_bufferSize in *.
  change (AudioProcessor.bufferSize (AudioProcessor.constructor zero))
    with 4096%nat in *.
  auto.
Qed.

(** ** The client session channel: invariants and compositions *)

Section ChannelMore.

Import WebSocketManager.

Implicit Types (m : t) (k : nat) (code : Z) (e : Event) (tr : list Event).

Lemma connect_when_busy m :
  isConnecting m || isConnected m = true -> connect m = (m, [ReturnResolved]).
Proof. intros H. unfold connect. rewrite H. reflexivity. Qed.

Lemma connect_makes_busy m :
  isConnecting (fst (connect m)) || isConnected (fst (connect m)) = true.
Proof.
  unfold connect. destruct (isConnecting m || isConnected m) eqn:E.
  - exact E.
  - reflexivity.
Qed.

Lemma run_connect_when_busy (n : nat) m :
  isConnecting m || isConnected m = true ->
  run (replicate n CallConnect) m = (m, replicate n ReturnResolved).
Proof.
  intros H. induction n as [| n IH]; [reflexivity |].
  cbn [replicate run step]. rewrite (connect_when_busy m H), IH. reflexivity.
Qed.

Lemma created_resolved (n : nat) : created (replicate n ReturnResolved) = [].
Proof. induction n as [| n IH]; [reflexivity | exact IH]. Qed.

(** X4.  [connect()] is idempotent: called again while the channel is
    connecting or connected it returns at once, so that any number of
    calls in a row leave the state of the first and create the socket of
    the first only, at most one. *)
Theorem connect_is_idempotent m (n : nat) :
  let calls := replicate (S n) CallConnect in
  fst (run calls m) = fst (connect m)
  /\ created (snd (run calls m)) = created (snd (connect m))
  /\ (length (created (snd (connect m))) <= 1)%nat
  /\ connect (fst (connect m)) = (fst (connect m), [ReturnResolved]).
Proof.
  intros calls. subst calls. cbn [replicate]. rewrite run_cons. cbn [fst snd step].
  rewrite (run_connect_when_busy n _ (connect_makes_busy m)). cbn [fst snd].
  split; [reflexivity |]. split.
  - unfold created. rewrite flat_map_app. fold (created (replicate n ReturnResolved)).
    rewrite created_resolved. apply app_nil_r.
  - split.
    + unfold connect. destruct (isConnecting m || isConnected m); cbn; lia.
    + apply connect_when_busy, connect_makes_busy.
Qed.

(** The two flags are never raised together. *)
Lemma step_exclusive e m :
  isConnected m && isConnecting m = false ->
  isConnected (fst (step e m)) && isConnecting (fst (step e m)) = false.
Proof.
  intros H. destruct e; cbn [step].
  - unfold connect. destruct (isConnecting m || isConnected m) eqn:E; [exact H |].
    apply orb_false_elim in E as [_ E]. cbn. rewrite E. reflexivity.
  - unfold close. destruct (ws m); reflexivity.
  - unfold closeIntentionally, close. cbn [ws set_intentionalClose].
    destruct (ws m); reflexivity.
  - reflexivity.
  - unfold onmessage. destruct data; exact H.
  - reflexivity.
  - destruct (reconnects (set_sockets (<[k:=JS.CLOSED]> (sockets m)) m) code) eqn:E.
    + rewrite (onclose_reconnects _ _ _ E). reflexivity.
    + rewrite (onclose_stays _ _ _ E). reflexivity.
  - unfold connectionTimeout. step_cases; try exact H.
    cbn. apply andb_false_r.
  - unfold reconnect, connect.
    destruct (isConnecting m || isConnected m) eqn:E; [exact H |].
    apply orb_false_elim in E as [_ E]. cbn. rewrite E. reflexivity.
Qed.

(** X5.  Along every sequence of calls, socket events and timers, the
    channel is never both connected and connecting. *)
Theorem never_connected_and_connecting tr : forall m,
  isConnected m && isConnecting m = false ->
  isConnected (fst (run tr m)) && isConnecting (fst (run tr m)) = false.
Proof.
  induction tr as [| e tr IH]; intros m H; [exact H |].
  rewrite run_cons. cbn [fst]. apply IH, step_exclusive, H.
Qed.

Lemma never_connected_and_connecting_witness :
  let m := fst (run [CallConnect; SocketOpen 0; CallConnect; SocketClosed 0 1006;
                     ReconnectFires]
                  (constructor "ws://localhost:5000")) in
  isConnected m && isConnecting m = false.
Proof.
  exact (never_connected_and_connecting
           [CallConnect; SocketOpen 0; CallConnect; SocketClosed 0 1006;
            ReconnectFires]
           (constructor "ws://localhost:5000") eq_refl).
Defined.

Lemma step_attempts_le e m :
  (reconnectAttempts m <= maxReconnectAttempts m)%nat ->
  (reconnectAttempts (fst (step e m)) <= maxReconnectAttempts (fst (step e m)))%nat.
Proof.
  intros H. destruct (step_config e m) as [-> _].
  destruct e; cbn [step].
  - pose proof (connect_fields m) as (-> & _). exact H.
  - pose proof (close_fields m) as (-> & _). exact H.
  - unfold closeIntentionally.
    pose proof (close_fields (set_intentionalClose true m)) as (-> & _). exact H.
  - cbn. lia.
  - unfold onmessage. destruct data; exact H.
  - exact H.
  - rewrite onclose_attempts.
    destruct (reconnects _ code) eqn:E; [| exact H].
    unfold reconnects in E. apply andb_prop in E as [E _].
    apply andb_prop in E as [_ E]. apply Nat.ltb_lt in E. exact E.
  - pose proof (connectionTimeout_fields k m) as (-> & _). exact H.
  - unfold reconnect. pose proof (connect_fields m) as (-> & _). exact H.
Qed.

(** X6.  The attempt counter never exceeds the ceiling, whatever the
    events: intentional closes, openings that reset it and closes at the
    ceiling included. *)
Theorem attempts_never_exceed_ceiling tr : forall m,
  (reconnectAttempts m <= maxReconnectAttempts m)%nat ->
  (reconnectAttempts (fst (run tr m)) <= maxReconnectAttempts m)%nat.
Proof.
  induction tr as [| e tr IH]; intros m H; [exact H |].
  rewrite run_cons. cbn [fst].
  destruct (step_config e m) as [Hmax _]. rewrite <- Hmax.
  apply IH, step_attempts_le, H.
Qed.

Lemma attempts_never_exceed_ceiling_witness :
  (reconnectAttempts
     (fst (run [SocketClosed 0 1006; SocketClosed 0 1006; SocketClosed 0 1006;
                SocketClosed 0 1006; SocketClosed 0 1006; SocketClosed 0 1006;
                SocketClosed 0 1006]
             (constructor "ws://localhost:5000"))) <= 5)%nat.
Proof.
  refine (attempts_never_exceed_ceiling
            [SocketClosed 0 1006; SocketClosed 0 1006; SocketClosed 0 1006;
             SocketClosed 0 1006; SocketClosed 0 1006; SocketClosed 0 1006;
             SocketClosed 0 1006]
            (constructor "ws://localhost:5000") _).
  cbn. lia.
Defined.

Lemma step_scheduled e m :
  scheduled (snd (step e m)) = []
  \/ exists n : nat,
       (n < maxReconnectAttempts m)%nat
       /\ scheduled (snd (step e m)) = [reconnectDelay m * 2 ^ Z.of_nat n].
Proof.
  destruct e; cbn [step].
  - left. unfold connect. destruct (isConnecting m || isConnected m); reflexivity.
  - left. unfold close. destruct (ws m); reflexivity.
  - left. unfold closeIntentionally, close. cbn [ws set_intentionalClose].
    destruct (ws m); reflexivity.
  - left. reflexivity.
  - left. unfold onmessage. destruct data; [| reflexivity].
    induction (messageHandlers m) as [| h hs IH]; [reflexivity | exact IH].
  - left. unfold onerror. cbn [snd].
    change (scheduled (?x :: ?l)) with (scheduled [x] ++ scheduled l).
    rewrite scheduled_app. cbn [app].
    induction (errorHandlers _) as [| h hs IH]; [reflexivity | exact IH].
  - rewrite onclose_scheduled.
    destruct (reconnects _ code) eqn:E; [right | left; reflexivity].
    exists (reconnectAttempts m). split; [| reflexivity].
    unfold reconnects in E. apply andb_prop in E as [E _].
    apply andb_prop in E as [_ E]. apply Nat.ltb_lt in E. exact E.
  - left. unfold connectionTimeout. step_cases; reflexivity.
  - left. unfold reconnect, connect.
    destruct (isConnecting m || isConnected m); reflexivity.
Qed.

Lemma scheduled_delays_shape tr : forall m,
  Forall (fun delay => exists n : nat,
            (n < maxReconnectAttempts m)%nat
            /\ delay = reconnectDelay m * 2 ^ Z.of_nat n)
         (scheduled (snd (run tr m))).
Proof.
  induction tr as [| e tr IH]; intros m; [constructor |].
  rewrite run_cons. cbn [snd]. rewrite scheduled_app.
  apply Forall_app. split.
  - destruct (step_scheduled e m) as [-> | (n & Hn & ->)]; [constructor |].
    constructor; [| constructor]. exists n. auto.
  - specialize (IH (fst (step e m))).
    destruct (step_config e m) as [Hmax Hdelay].
    rewrite Hmax, Hdelay in IH. exact IH.
Qed.

(** X7.  Every reconnection the channel ever schedules waits
    [reconnectDelay * 2^n] for some [n] below the ceiling, whatever the
    history; for a channel built by the constructor that is between 1000
    and 16000 ms. *)
Theorem reconnect_delays_are_bounded tr m (url : string) :
  Forall (fun delay => exists n : nat,
            (n < maxReconnectAttempts m)%nat
            /\ delay = reconnectDelay m * 2 ^ Z.of_nat n)
         (scheduled (snd (run tr m)))
  /\ Forall (fun delay => 1000 <= delay <= 16000)
       (scheduled (snd (run tr (constructor url)))).
Proof.
  split; [apply scheduled_delays_shape |].
  eapply Forall_impl; [apply scheduled_delays_shape |].
  cbn [constructor maxReconnectAttempts reconnectDelay].
  intros delay (n & Hn & ->).
  assert (Hpow : 1 <= 2 ^ Z.of_nat n <= 2 ^ 4).
  { split.
    - change 1 with (2 ^ 0). apply Z.pow_le_mono_r; lia.
    - apply Z.pow_le_mono_r; lia. }
  change (2 ^ 4) with 16 in Hpow. lia.
Qed.

(** *** Observers *)

Lemma Set_add_elem (h : Handler) (hs : list Handler) : h ∈ Set_add h hs.
Proof.
  unfold Set_add. destruct (bool_decide (h ∈ hs)) eqn:E.
  - apply bool_decide_eq_true in E. exact E.
  - apply elem_of_app. right. apply list_elem_of_singleton. reflexivity.
Qed.

Lemma Set_add_NoDup (h : Handler) (hs : list Handler) :
  NoDup hs -> NoDup (Set_add h hs).
Proof.
  intros H. unfold Set_add. destruct (bool_decide (h ∈ hs)) eqn:E; [exact H |].
  apply bool_decide_eq_false in E.
  apply NoDup_app. split; [exact H |]. split.
  - intros x Hx Hx'. apply list_elem_of_singleton in Hx'. subst. contradiction.
  - apply NoDup_singleton.
Qed.

Lemma Set_add_again (h : Handler) (hs : list Handler) :
  Set_add h (Set_add h hs) = Set_add h hs.
Proof.
  unfold Set_add at 1.
  rewrite (bool_decide_eq_true_2 _ (Set_add_elem h hs)). reflexivity.
Qed.

Lemma Set_delete_not_elem (h : Handler) (hs : list Handler) :
  h ∉ Set_delete h hs.
Proof.
  unfold Set_delete. intros H. apply list_elem_of_filter in H as [H _].
  apply H. reflexivity.
Qed.

Lemma message_calls_map (h : Handler) (d : string) (hs : list Handler) :
  message_calls h (map (fun h' => CallMessageHandler h' d) hs)
  = length (List.filter (Nat.eqb h) hs).
Proof.
  unfold message_calls. induction hs as [| h' hs IH]; [reflexivity |].
  cbn [map List.filter]. destruct (Nat.eqb h h'); cbn [length]; rewrite IH;
    reflexivity.
Qed.

Lemma count_not_elem (h : Handler) (hs : list Handler) :
  h ∉ hs -> length (List.filter (Nat.eqb h) hs) = 0%nat.
Proof.
  induction hs as [| h' hs IH]; intros H; [reflexivity |].
  apply not_elem_of_cons in H as [Hne H]. cbn [List.filter].
  destruct (Nat.eqb_spec h h') as [-> | _]; [contradiction |]. apply IH, H.
Qed.

Lemma count_NoDup_elem (h : Handler) (hs : list Handler) :
  NoDup hs -> h ∈ hs -> length (List.filter (Nat.eqb h) hs) = 1%nat.
Proof.
  induction 1 as [| h' hs Hnotin Hnd IH]; intros Hin.
  - apply elem_of_nil in Hin. contradiction.
  - cbn [List.filter]. destruct (Nat.eqb_spec h h') as [-> | Hne].
    + cbn [length]. rewrite (count_not_elem _ _ Hnotin). reflexivity.
    + apply elem_of_cons in Hin as [-> | Hin]; [contradiction |]. apply IH, Hin.
Qed.

(** X8.  The observers of a class form a set: an observer registered
    once or several times is called exactly once for each message that
    parses, an observer that was removed is not called, and a message
    that does not parse calls nobody. *)
Theorem message_observer_called_once m (h : Handler) (d : string) :
  NoDup (messageHandlers m) ->
  let m1 := onMessage h m in
  let m2 := onMessage h m1 in
  NoDup (messageHandlers m2)
  /\ m2 = m1
  /\ message_calls h (snd (onmessage (Some d) m2)) = 1%nat
  /\ message_calls h (snd (onmessage (Some d) (offMessage h m2))) = 0%nat
  /\ snd (onmessage None m2) = [].
Proof.
  intros Hnd m1 m2.
  assert (H12 : m2 = m1).
  { unfold m2, m1, onMessage. cbn [messageHandlers set_messageHandlers].
    rewrite Set_add_again. reflexivity. }
  rewrite H12.
  split; [apply Set_add_NoDup, Hnd |]. split; [reflexivity |].
  unfold onmessage. cbn [snd]. rewrite !message_calls_map.
  split; [| split; [| reflexivity]].
  - apply count_NoDup_elem; [apply Set_add_NoDup, Hnd | apply Set_add_elem].
  - apply count_not_elem, Set_delete_not_elem.
Qed.

Lemma message_observer_called_once_witness :
  let m := onMessage 3%nat (onMessage 7%nat (onMessage 3%nat
             (constructor "ws://localhost:5000"))) in
  message_calls 3%nat (snd (onmessage (Some "{}"%string) m)) = 1%nat.
Proof.
  refine (proj1 (proj2 (proj2 (message_observer_called_once
            (onMessage 7%nat (onMessage 3%nat (constructor "ws://localhost:5000")))
            3%nat "{}"%string _)))).
  apply Set_add_NoDup, Set_add_NoDup, NoDup_nil. exact I.
Defined.

(** *** Closing and sending *)

Lemma close_shape m :
  exists socks,
    fst (close m)
    = set_isConnecting false (set_isConnected false
        (set_ws None (set_sockets socks m))).
Proof.
  unfold close. destruct (ws m) eqn:E.
  - eexists. reflexivity.
  - exists (sockets m). cbn [fst]. destruct m; cbn in *; subst; reflexivity.
Qed.

Lemma send_without_handle (message : string) m :
  ws m = None -> send message m = (None, []).
Proof. intros H. unfold send. rewrite H. reflexivity. Qed.

(** X9.  [close()] leaves the channel without a handle and with both
    flags down, so that [send] then throws and a second [close()] does
    nothing; but it is not an intentional close: the close event that
    follows it, if its code is not 1000 and the counter is below the
    ceiling, schedules a reconnection. *)
Theorem close_is_not_intentional m k code (message : string) :
  let m1 := fst (close m) in
  (ws m1 = None /\ isConnected m1 = false /\ isConnecting m1 = false)
  /\ send message m1 = (None, [])
  /\ close m1 = (m1, [])
  /\ (intentionalClose m = false -> code <> 1000 ->
      (reconnectAttempts m < maxReconnectAttempts m)%nat ->
      scheduled (snd (step (SocketClosed k code) m1))
      = [reconnectDelay m * 2 ^ Z.of_nat (reconnectAttempts m)]).
Proof.
  intros m1. destruct (close_shape m) as (socks & Hm1). fold m1 in Hm1.
  assert (Hws : ws m1 = None) by (rewrite Hm1; reflexivity).
  split; [rewrite Hm1; repeat split |].
  split; [apply send_without_handle, Hws |].
  split.
  - unfold close. rewrite Hws. rewrite Hm1. reflexivity.
  - intros Hi Hc Ha. rewrite step_closed_scheduled.
    pose proof (close_fields m) as (Hatt & Hmax & Hdelay & Hflag).
    fold m1 in Hatt, Hmax, Hdelay, Hflag.
    assert (Hflag1 : intentionalClose m1 = false) by congruence.
    assert (Hlt : (reconnectAttempts m1 < maxReconnectAttempts m1)%nat) by lia.
    rewrite (reconnects_true m1 code Hc Hflag1 Hlt), Hatt, Hdelay. reflexivity.
Qed.

Lemma close_is_not_intentional_witness :
  let m := fst (run [CallConnect; SocketOpen 0] (constructor "ws://localhost:5000")) in
  scheduled (snd (step (SocketClosed 0 1005) (fst (close m))))
  = [reconnectDelay m * 2 ^ Z.of_nat (reconnectAttempts m)].
Proof.
  intros m.
  refine (proj2 (proj2 (proj2 (close_is_not_intentional m 0 1005 "x"))) _ _ _).
  - reflexivity.
  - discriminate.
  - cbn. lia.
Defined.

Section Serialisation.

Variable JSON_stringify : JS.Obj -> string.

Lemma send_when_open (message : string) m :
  ws_is_open m = true ->
  exists j, ws m = Some j /\ send message m = (Some true, [SocketSend j message]).
Proof.
  intros H. unfold send. unfold ws_is_open in H.
  destruct (ws m) as [j |] eqn:E; [| discriminate].
  exists j. split; [reflexivity |].
  unfold ws_is_open. rewrite E, H. reflexivity.
Qed.

Lemma send_when_not_open (message : string) m :
  ws_is_open m = false -> send message m = (None, []).
Proof.
  intros H. unfold send. destruct (ws m); [| reflexivity].
  rewrite H. reflexivity.
Qed.

(** X10.  [terminate()] never throws: on an open socket it sends the
    terminate request once, otherwise it does nothing; [sendAudio]
    throws exactly when the socket is not open; and [forceTerminate()]
    always leaves the channel closed, without a handle. *)
Theorem terminate_never_throws m (audioData : string) :
  fst (terminate JSON_stringify m) = Normal tt
  /\ (ws_is_open m = false -> snd (terminate JSON_stringify m) = [])
  /\ (ws_is_open m = true ->
      exists j,
        ws m = Some j
        /\ snd (terminate JSON_stringify m)
           = [SocketSend j
                (JSON_stringify [("terminate_session"%string, JS.VBool true)])])
  /\ (fst (sendAudio JSON_stringify audioData m)
      = if ws_is_open m then Normal tt else Throw "WebSocket not connected")
  /\ (let m' := fst (forceTerminate JSON_stringify m) in
      ws m' = None /\ isConnected m' = false /\ isConnecting m' = false).
Proof.
  unfold terminate, sendAudio, forceTerminate.
  destruct (ws_is_open m) eqn:Hopen.
  - destruct (send_when_open
                (JSON_stringify [("terminate_session"%string, JS.VBool true)]) m Hopen)
      as (j & Hj & Hsend).
    destruct (send_when_open
                (JSON_stringify [("audio_data"%string, JS.VString audioData)]) m Hopen)
      as (j' & _ & Hsend').
    rewrite Hsend, Hsend'. cbn [fst snd].
    split; [reflexivity |]. split; [discriminate |].
    split; [intros _; exists j; auto |]. split; [reflexivity |].
    destruct (close_shape m) as (socks & ->). repeat split.
  - rewrite (send_when_not_open _ m Hopen). cbn [fst snd].
    split; [reflexivity |]. split; [reflexivity |].
    split; [discriminate |]. split; [reflexivity |].
    destruct (close_shape m) as (socks & ->). repeat split.
Qed.

End Serialisation.

Lemma terminate_never_throws_witness :
  let m := fst (run [CallConnect; SocketOpen 0] (constructor "ws://localhost:5000")) in
  snd (terminate (fun _ => "terminate"%string) (constructor "ws://localhost:5000")) = []
  /\ exists j, ws m = Some j
       /\ snd (terminate (fun _ => "terminate"%string) m)
          = [SocketSend j "terminate"].
Proof.
  intros m. split.
  - exact (proj1 (proj2 (terminate_never_throws (fun _ => "terminate"%string)
                           (constructor "ws://localhost:5000") "")) eq_refl).
  - exact (proj1 (proj2 (proj2 (terminate_never_throws (fun _ => "terminate"%string)
                                  m ""))) eq_refl).
Defined.

(** X11.  [send] throws while the channel is still connecting and
    succeeds once the socket [connect()] created has opened: the message
    goes to that socket, once. *)
Theorem send_needs_the_open_event m (message : string) :
  isConnecting m = false -> isConnected m = false ->
  let k := length (sockets m) in
  let m1 := fst (step CallConnect m) in
  let m2 := fst (step (SocketOpen k) m1) in
  send message m1 = (None, [])
  /\ send message m2 = (Some true, [SocketSend k message])
  /\ isConnected m2 = true /\ reconnectAttempts m2 = 0%nat.
Proof.
  intros Hing Hed k m1 m2.
  assert (Hm1 : m1 = set_sockets (sockets m ++ [JS.CONNECTING])
                       (set_ws (Some k) (set_isConnecting true m))).
  { unfold m1. cbn [step]. unfold connect. rewrite Hing, Hed. reflexivity. }
  split; [| split; [| split; reflexivity]].
  - unfold send, ws_is_open. rewrite Hm1. cbn [ws set_sockets set_ws sockets].
    rewrite list_lookup_middle by reflexivity. reflexivity.
  - unfold m2. cbn [step]. unfold send, ws_is_open, onopen. rewrite Hm1.
    cbn [fst ws set_sockets set_ws sockets set_reconnectAttempts set_isConnecting
         set_isConnected].
    rewrite list_lookup_insert_eq; [reflexivity |].
    rewrite length_app. cbn. lia.
Qed.

Lemma send_needs_the_open_event_witness :
  let m1 := fst (step CallConnect (constructor "ws://localhost:5000")) in
  send "hello" m1 = (None, [])
  /\ send "hello" (fst (step (SocketOpen 0) m1)) = (Some true, [SocketSend 0 "hello"]).
Proof.
  pose proof (send_needs_the_open_event (constructor "ws://localhost:5000") "hello"
                eq_refl eq_refl) as (H1 & H2 & _).
  split; [exact H1 | exact H2].
Defined.

End ChannelMore.

(** ** The session proxy: what every handler keeps *)

Section ProxyFrame.

Import Node.

Implicit Types (w : World) (e : Server.Event).

Lemma step_keeps e w :
  let w' := snd (Server.step e w) in
  env w' = env w /\ apiKey w' = apiKey w
  /\ (isTerminating w = false -> isTerminating w' = false)
  /\ (e <> Server.ClientMessage None -> fst (Server.step e w) = Normal tt).
Proof.
  destruct e as [[data |] | | | k | k [message |] | k message | k code reason];
    unfold_server; crunch; finish.
Qed.

Lemma step_sockets e w :
  let w' := snd (Server.step e w) in
  (length (sockets w')
   = if Server.opens_upstream e w then
       match WebSocket_throws (env w), apiKey w with
       | None, Some key => if JS.truthy key then S (length (sockets w))
                           else length (sockets w)
       | _, _ => length (sockets w)
       end
     else length (sockets w))
  /\ (Server.handle_valid w -> Server.handle_valid w').
Proof.
  unfold Server.handle_valid.
  destruct e as [[data |] | | | k | k [message |] | k message | k code reason];
    unfold Server.opens_upstream; unfold_server; crunch; finish.
  all: handle_cases.
Qed.

Lemma untouched_app (k : nat) (l l' : list Socket) :
  Server.untouched k l -> Server.untouched k (l ++ l').
Proof.
  intros (s & Hs & H). exists s. split; [| exact H].
  apply lookup_app_l_Some, Hs.
Qed.

Lemma untouched_alter_ne (f : Socket -> Socket) (j k : nat) (l : list Socket) :
  j <> k -> Server.untouched k l -> Server.untouched k (alter f j l).
Proof.
  intros Hne (s & Hs & H). exists s. split; [| exact H].
  rewrite list_lookup_alter_ne by exact Hne. exact Hs.
Qed.

Lemma untouched_alter_state (r : JS.ReadyState) (j k : nat) (l : list Socket) :
  Server.untouched k l ->
  Server.untouched k (alter (fun s => mkSocket r (frames s) (closeArgs s)) j l).
Proof.
  intros (s & Hs & Hc & Hf).
  destruct (decide (j = k)) as [-> | Hne].
  - exists (mkSocket r (frames s) (closeArgs s)).
    rewrite list_lookup_alter, Hs. cbn.
    destruct (decide (k = k)); [auto | contradiction].
  - apply untouched_alter_ne; [exact Hne |]. exists s. auto.
Qed.

Lemma untouched_lt (k : nat) (l : list Socket) :
  Server.untouched k l -> (k < length l)%nat.
Proof. intros (s & Hs & _). eapply lookup_lt_Some, Hs. Qed.

(** A socket out of reach stays out of reach: only the socket of the
    handle is sent frames or closed, and the handle is only ever set to a
    socket just created. *)
Lemma step_out_of_reach e w (k : nat) :
  Server.out_of_reach k w -> Server.out_of_reach k (snd (Server.step e w)).
Proof.
  unfold Server.out_of_reach. intros [Hws Hun].
  pose proof (untouched_lt _ _ Hun) as Hlt.
  destruct e as [[data |] | | | k' | k' [message |] | k' message | k' code reason];
    unfold_server; crunch; (split; [world_simpl; try congruence |]); world_simpl.
  all: try (intros Heq; injection Heq as <-; lia).
  all: repeat first
         [ exact Hun
         | apply untouched_alter_state
         | apply untouched_app
         | apply untouched_alter_ne; [congruence || lia |] ].
Qed.

End ProxyFrame.

(** ** The session proxy: relaying, connecting, leaking *)

Section ProxyMore.

Import Node.

Implicit Types (w : World) (data : Server.ClientData).

(** The "message" handler of an upstream socket, with the callback of the
    server: one [client.send] of the classified event, if there is one. *)
Lemma upstream_message_shape w (k : nat)
    (message : option AssemblyAIStreaming.Message) :
  Server.step (Server.UpstreamMessage k message) w
  = (Normal tt,
     match message with
     | Some m => match AssemblyAIStreaming.classify m with
                 | Some event => set_outbox (outbox w ++ [event]) w
                 | None => w
                 end
     | None => w
     end).
Proof.
  destruct message as [m |]; unfold_server; [| reflexivity].
  destruct (AssemblyAIStreaming.classify m); [| reflexivity].
  unfold_server. destruct (client_send_throws (env w)); reflexivity.
Qed.

(** X12.  The "message" handler of the upstream socket never throws,
    whatever the callback it is given does; a payload that does not parse,
    or that is neither a turn with text nor a session event, is dropped:
    the callback is not run and nothing changes. *)
Theorem malformed_upstream_payload_dropped
    (onMessage : JS.Obj -> M World unit) w (k : nat)
    (data : option AssemblyAIStreaming.Message) :
  fst (AssemblyAIStreaming.on_message onMessage k data w) = Normal tt
  /\ (match data with
      | Some m => AssemblyAIStreaming.classify m = None
      | None => True
      end ->
      AssemblyAIStreaming.on_message onMessage k data w = (Normal tt, w)).
Proof.
  unfold AssemblyAIStreaming.on_message. unfold_m.
  destruct data as [m |]; [| split; reflexivity].
  destruct (AssemblyAIStreaming.classify m) as [event |].
  - split; [| discriminate]. destruct (onMessage event w) as [[[] | error] w'];
      reflexivity.
  - split; reflexivity.
Qed.

Lemma malformed_upstream_payload_dropped_witness :
  let w := Server.connection (Some "key"%string) (mkEnv false None false false) in
  AssemblyAIStreaming.on_message (fun _ => throw "observer failed") 0 None w
  = (Normal tt, w)
  /\ AssemblyAIStreaming.on_message (fun _ => throw "observer failed") 0
       (Some (AssemblyAIStreaming.mkMessage "Begin" "" "" false JS.VUndefined)) w
     = (Normal tt, w).
Proof.
  intros w. split.
  - exact (proj2 (malformed_upstream_payload_dropped
                    (fun _ => throw "observer failed") w 0 None) I).
  - exact (proj2 (malformed_upstream_payload_dropped
                    (fun _ => throw "observer failed") w 0
                    (Some (AssemblyAIStreaming.mkMessage "Begin" "" "" false
                             JS.VUndefined))) eq_refl).
Defined.

(** X13.  Every in-progress turn with text reaches the client: whatever
    the state of the proxy and the socket it arrives on, the server calls
    [client.send] once with the text flagged partial and not final, and
    changes nothing else; nothing is throttled or compared with what was
    sent before. *)
Theorem partial_turn_always_relayed w (k : nat) (m : AssemblyAIStreaming.Message) :
  AssemblyAIStreaming.type m = "Turn"%string ->
  JS.truthy (AssemblyAIStreaming.transcript m) = true ->
  AssemblyAIStreaming.end_of_turn m = false ->
  Server.step (Server.UpstreamMessage k (Some m)) w
  = (Normal tt,
     set_outbox
       (outbox w
          ++ [AssemblyAIStreaming.turn (AssemblyAIStreaming.transcript m) true false
                (AssemblyAIStreaming.end_of_turn_confidence m)]) w).
Proof.
  intros Ht Htext Hend. rewrite upstream_message_shape.
  unfold AssemblyAIStreaming.classify. rewrite Ht, Htext, Hend. reflexivity.
Qed.

Lemma partial_turn_always_relayed_witness :
  let w := Server.connection (Some "key"%string) (mkEnv false None false false) in
  outbox (snd (Server.step
                 (Server.UpstreamMessage 0
                    (Some (AssemblyAIStreaming.mkMessage "Turn" "" "hello wor" false
                             JS.VUndefined))) w))
  = [Server.connection_established;
     AssemblyAIStreaming.turn "hello wor" true false JS.VUndefined].
Proof.
  intros w.
  exact (f_equal (fun r => outbox (snd r))
           (partial_turn_always_relayed w 0
              (AssemblyAIStreaming.mkMessage "Turn" "" "hello wor" false JS.VUndefined)
              eq_refl eq_refl eq_refl)).
Defined.

(** X14.  On an active proxy an audio frame goes upstream exactly when
    the socket of the handle is open: it is then handed once to that
    socket and nothing else changes; otherwise it is dropped and nothing
    changes at all.  Nothing is sent to the client in either case, not
    even when the upstream [send] throws. *)
Theorem audio_forwarded_only_when_open w data :
  isSessionActive w = true -> isTerminating w = false ->
  Server.terminate_session data = false ->
  JS.truthy (Server.audio_data data) = true ->
  Server.on_message (Some data) w
  = (Normal tt,
     match ws w with
     | Some k =>
         if ws_is_open w && negb (ws_send_throws (env w))
         then set_sockets
                (alter (fun s => mkSocket (readyState s)
                                   (frames s ++ [Server.audio_data data])
                                   (closeArgs s)) k (sockets w)) w
         else w
     | None => w
     end).
Proof.
  intros Hact Hterm Hstop Haudio. unfold_server. crunch; reflexivity.
Qed.

Lemma audio_forwarded_only_when_open_witness :
  let w := {| isSessionActive := true; isTerminating := false;
              apiKey := Some "key"%string; ws := Some 0%nat;
              sockets := [mkSocket JS.OPEN [] None];
              outbox := []; env := mkEnv false None false false |} in
  sockets (snd (Server.on_message (Some (Server.mkClientData false "AAAA")) w))
  = [mkSocket JS.OPEN ["AAAA"%string] None].
Proof.
  intros w.
  exact (f_equal (fun r => sockets (snd r))
           (audio_forwarded_only_when_open w (Server.mkClientData false "AAAA")
              eq_refl eq_refl eq_refl eq_refl)).
Defined.

(** The first audio frame on an inactive proxy that has a credential. *)
Lemma first_frame_shape w data (key : string) :
  isSessionActive w = false -> isTerminating w = false ->
  apiKey w = Some key -> JS.truthy key = true ->
  WebSocket_throws (env w) = None ->
  Server.terminate_session data = false ->
  JS.truthy (Server.audio_data data) = true ->
  Server.on_message (Some data) w
  = (Normal tt,
     set_outbox (outbox w ++ [Server.assemblyai_connected])
       (set_isSessionActive true
          (set_ws (Some (length (sockets w)))
             (set_sockets (sockets w ++ [mkSocket JS.CONNECTING [] None]) w)))).
Proof.
  intros Hact Hterm Hkey Htruthy Hctor Hstop Haudio.
  unfold_server. crunch; try reflexivity; discriminate.
Qed.

Lemma upstream_down_shape w (e : Server.Event) :
  match e with
  | Server.UpstreamClose _ _ _ | Server.UpstreamError _ _ => True
  | _ => False
  end ->
  let w1 := snd (Server.step e w) in
  isSessionActive w1 = false /\ isTerminating w1 = isTerminating w
  /\ ws w1 = ws w /\ apiKey w1 = apiKey w /\ env w1 = env w
  /\ length (sockets w1) = length (sockets w)
  /\ exists message, outbox w1 = outbox w ++ [Server.error message].
Proof.
  destruct e as [| | | | | k message | k code reason]; try contradiction; intros _.
  - unfold_server. crunch; finish; eexists; reflexivity.
  - unfold_server. crunch; finish; eexists; reflexivity.
Qed.

End ProxyMore.

(** ** The session proxy: what its handlers throw *)

Section ProxyInvariants.

Import Node.

Implicit Types (w : World) (data : Server.ClientData) (e : Server.Event).

(** X19.  No handler of the server throws, whatever the libraries do,
    except the report of a client message that does not parse, when
    [client.send] itself throws: that message is answered with
    "Invalid message format" and changes nothing else, and a message
    with neither field is ignored. *)
Theorem handlers_never_throw w e :
  (e <> Server.ClientMessage None -> fst (Server.step e w) = Normal tt)
  /\ Server.step (Server.ClientMessage None) w
     = (if client_send_throws (env w) then Throw "client.send failed"
        else Normal tt,
        set_outbox (outbox w ++ [Server.error "Invalid message format"]) w)
  /\ Server.step (Server.ClientMessage (Some (Server.mkClientData false ""))) w
     = (Normal tt, w).
Proof.
  split; [apply step_keeps |]. split.
  - unfold_server. destruct (client_send_throws (env w)); reflexivity.
  - reflexivity.
Qed.

Lemma handlers_never_throw_witness :
  fst (Server.step (Server.ClientMessage (Some (Server.mkClientData false "AAAA")))
         (Server.connection (Some "key"%string) (mkEnv true (Some "refused"%string) true true)))
  = Normal tt.
Proof.
  refine (proj1 (handlers_never_throw _ _) _). discriminate.
Defined.

End ProxyInvariants.

(** ** The session proxy under the event loop *)

Section ProxyLoop.
Import Node.
Implicit Types (w : World) (e : Server.Event) (l : EventLoop.t)
  (data : Server.ClientData).

Lemma send_if_open_no_throw data w :
  fst (EventLoop.send_if_open data w) = Normal tt.
Proof.
  unfold EventLoop.send_if_open. unfold_m. cbn [id].
  destruct (isSessionActive w && negb (isTerminating w) && ws_is_open w);
    [| reflexivity].
  destruct (AssemblyAIStreaming.sendAudio (Server.audio_data data) w) as [[[] | ?] ?];
    reflexivity.
Qed.

(** A handler that reaches no [await] runs as one step. *)
Lemma deliver_no_await e w :
  Server.opens_upstream e w = false ->
  EventLoop.deliver e w = EventLoop.no_task (Server.step e w).
Proof.
  intros H. unfold EventLoop.no_task.
  destruct e as [[data |] | | | k | k message | k message | k code reason];
    cbn [EventLoop.deliver];
    try (unfold_m; destruct (Server.step _ w) as [[[] | ?] ?]; reflexivity).
  - cbn [Server.opens_upstream] in H.
    unfold EventLoop.on_message_begin, Server.step, Server.on_message.
    destruct (Server.terminate_session data) eqn:Hstop.
    + unfold_m. destruct (Server.terminate_branch w) as [[[] | ?] ?]; cbn;
        [reflexivity |].
      destruct (client_send _ _) as [[[] | ?] ?]; reflexivity.
    + destruct (JS.truthy (Server.audio_data data)) eqn:Haudio.
      * cbn [negb andb] in H.
        unfold EventLoop.forward_audio_begin, Server.forward_audio.
        fold (EventLoop.send_if_open data).
        unfold_m. cbn [id]. rewrite H.
        pose proof (send_if_open_no_throw data w) as Hs.
        destruct (EventLoop.send_if_open data w) as [[[] | ?] ?];
          [reflexivity | discriminate Hs].
      * reflexivity.
  - unfold EventLoop.on_message_begin, Server.step, Server.on_message. unfold_m.
    destruct (client_send _ _) as [[[] | ?] ?]; reflexivity.
Qed.

(** The frame that finds the proxy inactive: its handler stops at the
    [await] of [connectToAssemblyAI], once [assemblyAI.connect] has run. *)
Lemma deliver_await data w :
  Server.opens_upstream (Server.ClientMessage (Some data)) w = true ->
  EventLoop.deliver (Server.ClientMessage (Some data)) w
  = let c := AssemblyAIStreaming.connect Server.onMessage Server.onError
               Server.onClose w in
    (Normal [EventLoop.AfterConnect (fst c) data], snd c).
Proof.
  cbn [Server.opens_upstream]. intros H.
  apply andb_prop in H as [H Hterm]. apply andb_prop in H as [H Hact].
  apply andb_prop in H as [Hstop Haudio].
  apply negb_true_iff in Hstop, Hterm, Hact.
  cbn [EventLoop.deliver]. unfold EventLoop.on_message_begin.
  rewrite Hstop, Haudio.
  unfold EventLoop.forward_audio_begin, EventLoop.connectToAssemblyAI_begin.
  unfold_m. cbn [id]. rewrite Hact, Hterm. cbn [negb andb orb].
  destruct (AssemblyAIStreaming.connect _ _ _ w) as [outcome w'].
  rewrite ?Hact, ?Hterm. reflexivity.
Qed.


(** [assemblyAI.connect] with the callbacks of the server never throws:
    it creates the socket, or reports its failure through [onError]. *)
Lemma connect_shape w :
  AssemblyAIStreaming.connect Server.onMessage Server.onError Server.onClose w
  = (Normal tt,
     if match apiKey w with Some key => JS.truthy key | None => false end then
       match WebSocket_throws (env w) with
       | None => EventLoop.opened w
       | Some message =>
           EventLoop.told
             (Server.error ("AssemblyAI connection error: " ++ message))
             (set_isSessionActive false w)
       end
     else
       EventLoop.told
         (Server.error "AssemblyAI connection error: AssemblyAI API key is required")
         (set_isSessionActive false w)).
Proof.
  unfold EventLoop.opened, EventLoop.told.
  unfold AssemblyAIStreaming.connect, Server.onError, Server.try_send,
    client_send, new_WebSocket.
  unfold_m.
  destruct (match apiKey w with Some key => JS.truthy key | None => false end).
  - destruct (WebSocket_throws (env w)); [| reflexivity].
    world_simpl. destruct (client_send_throws (env w)); reflexivity.
  - world_simpl. destruct (client_send_throws (env w)); reflexivity.
Qed.

Lemma connectToAssemblyAI_resume_shape (outcome : Completion unit) w :
  EventLoop.connectToAssemblyAI_resume outcome w
  = (Normal tt,
     match outcome with
     | Normal _ =>
         EventLoop.told Server.assemblyai_connected (set_isSessionActive true w)
     | Throw message =>
         EventLoop.told (Server.assemblyai_error message)
           (set_isSessionActive false w)
     end).
Proof.
  unfold EventLoop.connectToAssemblyAI_resume, EventLoop.told,
    Server.try_send, client_send.
  unfold_m. destruct outcome as [[] | message]; world_simpl;
    destruct (client_send_throws (env w)); reflexivity.
Qed.

Lemma send_if_open_shape data w :
  EventLoop.send_if_open data w
  = (Normal tt,
     if isSessionActive w && negb (isTerminating w)
     then EventLoop.handed data w else w).
Proof.
  unfold EventLoop.send_if_open, EventLoop.handed,
    AssemblyAIStreaming.sendAudio, socket_send, ws_is_open.
  unfold_m. cbn [id]. crunch; reflexivity.
Qed.

Lemma resume_shape (task : EventLoop.Task) w :
  EventLoop.resume task w
  = match task with
    | EventLoop.AfterConnect outcome data =>
        (Normal [EventLoop.AfterConnectToAssemblyAI data],
         snd (EventLoop.connectToAssemblyAI_resume outcome w))
    | EventLoop.AfterConnectToAssemblyAI data =>
        (Normal [], snd (EventLoop.send_if_open data w))
    end.
Proof.
  destruct task as [outcome data | data]; cbn [EventLoop.resume].
  - unfold_m. rewrite connectToAssemblyAI_resume_shape. reflexivity.
  - unfold_m. rewrite send_if_open_shape. reflexivity.
Qed.


Lemma opens_upstream_true e w :
  Server.opens_upstream e w = true ->
  exists data,
    e = Server.ClientMessage (Some data)
    /\ Server.terminate_session data = false
    /\ JS.truthy (Server.audio_data data) = true
    /\ isSessionActive w = false /\ isTerminating w = false.
Proof.
  destruct e as [[data |] | | | | | |]; try discriminate. cbn.
  intros H. apply andb_prop in H as [H Hterm]. apply andb_prop in H as [H Hact].
  apply andb_prop in H as [Hstop Haudio].
  apply negb_true_iff in Hstop, Hterm, Hact. exists data. auto.
Qed.

Lemma forward_audio_split data w :
  Server.forward_audio data w
  = match (if negb (isSessionActive w) && negb (isTerminating w)
           then Server.connectToAssemblyAI else mret tt) w with
    | (Normal _, w1) => EventLoop.send_if_open data w1
    | (Throw message, w1) => (Throw message, w1)
    end.
Proof. reflexivity. Qed.

Lemma connectToAssemblyAI_split w :
  isSessionActive w = false -> isTerminating w = false ->
  Server.connectToAssemblyAI w
  = EventLoop.connectToAssemblyAI_resume (Normal tt)
      (snd (AssemblyAIStreaming.connect Server.onMessage Server.onError
              Server.onClose w)).
Proof.
  intros Hact Hterm. rewrite connectToAssemblyAI_resume_shape.
  unfold Server.connectToAssemblyAI. unfold_m. cbn [id].
  rewrite Hact, Hterm. cbn [orb]. rewrite connect_shape. cbn [fst snd].
  unfold Server.try_send, client_send, EventLoop.told. unfold_m. world_simpl.
  destruct (client_send_throws _); reflexivity.
Qed.

(** The handler of the frame that opens the connection, run to its end:
    the part before the first [await], then the two continuations. *)
Lemma on_message_opens data w :
  Server.opens_upstream (Server.ClientMessage (Some data)) w = true ->
  Server.on_message (Some data) w
  = EventLoop.send_if_open data
      (snd (EventLoop.connectToAssemblyAI_resume (Normal tt)
              (snd (AssemblyAIStreaming.connect Server.onMessage Server.onError
                      Server.onClose w)))).
Proof.
  intros H. destruct (opens_upstream_true _ _ H)
    as (data' & [= <-] & Hstop & Haudio & Hact & Hterm).
  unfold Server.on_message. rewrite Hstop, Haudio.
  unfold try_catch. rewrite forward_audio_split, Hact, Hterm. cbn [negb andb].
  rewrite (connectToAssemblyAI_split w Hact Hterm).
  rewrite connectToAssemblyAI_resume_shape. cbn [fst snd].
  rewrite send_if_open_shape. reflexivity.
Qed.

(** An event handled alone is a step of [Server.step]: the handlers run
    to their end are the schedules of the loop in which nothing is
    delivered before the continuations have run. *)
Lemma alone_is_step e w :
  EventLoop.run (EventLoop.alone e) (EventLoop.start w)
  = EventLoop.start (snd (Server.step e w)).
Proof.
  unfold EventLoop.alone, EventLoop.start. cbn [EventLoop.run].
  destruct (Server.opens_upstream e w) eqn:H.
  - destruct (opens_upstream_true _ _ H) as (data & -> & _).
    cbn [Server.step]. rewrite (on_message_opens data w H).
    unfold EventLoop.step at 3. cbn [EventLoop.world EventLoop.microtasks].
    rewrite (deliver_await data w H), connect_shape. cbn [fst snd app EventLoop.spawned].
    unfold EventLoop.step at 2. cbn [EventLoop.world EventLoop.microtasks].
    rewrite resume_shape. cbn [app EventLoop.spawned].
    unfold EventLoop.step. cbn [EventLoop.world EventLoop.microtasks].
    rewrite resume_shape. reflexivity.
  - unfold EventLoop.step at 3. cbn [EventLoop.world EventLoop.microtasks].
    rewrite (deliver_no_await e w H). unfold EventLoop.no_task.
    destruct (Server.step e w) as [[[] | ?] w']; reflexivity.
Qed.


(** *** What every step of the loop keeps *)

(** The state a step of the loop leaves. *)
Lemma step_world (a : EventLoop.Action) l :
  EventLoop.world (EventLoop.step a l)
  = match a with
    | EventLoop.Deliver e =>
        if Server.opens_upstream e (EventLoop.world l)
        then snd (AssemblyAIStreaming.connect Server.onMessage Server.onError
                    Server.onClose (EventLoop.world l))
        else snd (Server.step e (EventLoop.world l))
    | EventLoop.Microtask =>
        match EventLoop.microtasks l with
        | [] => EventLoop.world l
        | EventLoop.AfterConnect outcome _ :: _ =>
            snd (EventLoop.connectToAssemblyAI_resume outcome (EventLoop.world l))
        | EventLoop.AfterConnectToAssemblyAI data :: _ =>
            snd (EventLoop.send_if_open data (EventLoop.world l))
        end
    end.
Proof.
  destruct a as [e |]; cbn [EventLoop.step].
  - destruct (Server.opens_upstream e (EventLoop.world l)) eqn:H.
    + destruct (opens_upstream_true _ _ H) as (data & -> & _).
      rewrite (deliver_await data _ H). reflexivity.
    + rewrite (deliver_no_await e _ H). reflexivity.
  - destruct (EventLoop.microtasks l) as [| task queue]; [reflexivity |].
    rewrite resume_shape. destruct task; reflexivity.
Qed.

Lemma step_preserves (P : World -> Prop) :
  (forall e w, P w -> P (snd (Server.step e w))) ->
  (forall w, P w -> P (EventLoop.opened w)) ->
  (forall payload w, P w -> P (EventLoop.told payload w)) ->
  (forall b w, P w -> P (set_isSessionActive b w)) ->
  (forall data w, P w -> P (EventLoop.handed data w)) ->
  forall (a : EventLoop.Action) l,
    P (EventLoop.world l) -> P (EventLoop.world (EventLoop.step a l)).
Proof.
  intros Hstep Hopened Htold Hactive Hhanded a l H. rewrite step_world.
  destruct a as [e |].
  - destruct (Server.opens_upstream e (EventLoop.world l)); [| apply Hstep, H].
    rewrite connect_shape. cbn [snd].
    destruct (match apiKey _ with Some key => JS.truthy key | None => false end);
      [destruct (WebSocket_throws _) |]; auto.
  - destruct (EventLoop.microtasks l) as [| [outcome data | data] queue];
      [exact H | |].
    + rewrite connectToAssemblyAI_resume_shape. cbn [snd].
      destruct outcome; auto.
    + rewrite send_if_open_shape. cbn [snd].
      destruct (isSessionActive _ && negb (isTerminating _)); auto.
Qed.

Lemma run_preserves (P : World -> Prop) :
  (forall (a : EventLoop.Action) l,
     P (EventLoop.world l) -> P (EventLoop.world (EventLoop.step a l))) ->
  forall (actions : list EventLoop.Action) l,
    P (EventLoop.world l) -> P (EventLoop.world (EventLoop.run actions l)).
Proof.
  intros Hstep actions. induction actions as [| a actions IH]; intros l H;
    [exact H |].
  cbn [EventLoop.run]. apply IH, Hstep, H.
Qed.

Lemma handed_fields data w :
  isSessionActive (EventLoop.handed data w) = isSessionActive w
  /\ isTerminating (EventLoop.handed data w) = isTerminating w
  /\ apiKey (EventLoop.handed data w) = apiKey w
  /\ env (EventLoop.handed data w) = env w
  /\ ws (EventLoop.handed data w) = ws w
  /\ outbox (EventLoop.handed data w) = outbox w
  /\ length (sockets (EventLoop.handed data w)) = length (sockets w).
Proof.
  unfold EventLoop.handed. destruct (ws w) as [k |] eqn:Hws; [| auto 10].
  destruct (ws_is_open w && negb (ws_send_throws (env w))); [| auto 10].
  cbn. rewrite length_alter. auto 10.
Qed.

(** The flag, the handle, the credential and the libraries. *)
Lemma loop_step_keeps (key : option string) (e0 : Env) (a : EventLoop.Action) l :
  let P w := isTerminating w = false /\ Server.handle_valid w
             /\ apiKey w = key /\ env w = e0 in
  P (EventLoop.world l) -> P (EventLoop.world (EventLoop.step a l)).
Proof.
  intros P. apply (step_preserves P); unfold P, Server.handle_valid; clear.
  - intros e w (Hterm & Hvalid & Hkey & Henv).
    pose proof (step_keeps e w) as (Henv' & Hkey' & Ht & _).
    pose proof (step_sockets e w) as (_ & Hv).
    split; [auto |]. split; [exact (Hv Hvalid) |]. split; congruence.
  - intros w (Hterm & Hvalid & Hkey & Henv). unfold EventLoop.opened. cbn.
    repeat split; try assumption.
    intros k [= <-]. rewrite length_app. cbn. lia.
  - intros payload w H. exact H.
  - intros b w H. exact H.
  - intros data w (Hterm & Hvalid & Hkey & Henv).
    destruct (handed_fields data w) as (_ & -> & -> & -> & -> & _ & ->). auto.
Qed.

(** A socket out of reach stays out of reach, in every schedule. *)
Lemma loop_step_out_of_reach (k : nat) (a : EventLoop.Action) l :
  Server.out_of_reach k (EventLoop.world l) ->
  Server.out_of_reach k (EventLoop.world (EventLoop.step a l)).
Proof.
  apply (step_preserves (Server.out_of_reach k)); unfold Server.out_of_reach.
  - intros e w. apply step_out_of_reach.
  - intros w [Hws Hun]. pose proof (untouched_lt _ _ Hun) as Hlt.
    unfold EventLoop.opened. cbn. split.
    + intros [= Heq]. lia.
    + apply untouched_app, Hun.
  - intros payload w H. exact H.
  - intros b w H. exact H.
  - intros data w [Hws Hun]. unfold EventLoop.handed.
    destruct (ws w) as [j |] eqn:Hj; [| split; [congruence | exact Hun]].
    destruct (ws_is_open w && negb (ws_send_throws (env w)));
      [| split; [congruence | exact Hun]].
    cbn. split; [congruence |]. apply untouched_alter_ne; [congruence | exact Hun].
Qed.

Lemma loop_step_sockets (a : EventLoop.Action) l :
  let w := EventLoop.world l in
  length (sockets (EventLoop.world (EventLoop.step a l)))
  = match a with
    | EventLoop.Deliver e =>
        if Server.opens_upstream e w then
          match WebSocket_throws (env w), apiKey w with
          | None, Some key => if JS.truthy key then S (length (sockets w))
                              else length (sockets w)
          | _, _ => length (sockets w)
          end
        else length (sockets w)
    | EventLoop.Microtask => length (sockets w)
    end.
Proof.
  intros w. rewrite step_world. fold w. destruct a as [e |].
  - destruct (Server.opens_upstream e w) eqn:H.
    + rewrite connect_shape. cbn [snd]. unfold EventLoop.opened, EventLoop.told.
      destruct (apiKey w) as [key |]; [destruct (JS.truthy key) |];
        destruct (WebSocket_throws (env w)); cbn; rewrite ?length_app; cbn; lia.
    + pose proof (step_sockets e w) as (Hlen & _). rewrite H in Hlen. exact Hlen.
  - destruct (EventLoop.microtasks l) as [| [outcome data | data] queue];
      [reflexivity | |].
    + rewrite connectToAssemblyAI_resume_shape. destruct outcome; reflexivity.
    + rewrite send_if_open_shape. cbn [snd].
      destruct (isSessionActive w && negb (isTerminating w)); [| reflexivity].
      apply handed_fields.
Qed.


(** *** The frame that opens the connection *)

Lemma deliver_first_frame l data (key : string) :
  let w := EventLoop.world l in
  isSessionActive w = false -> isTerminating w = false ->
  apiKey w = Some key -> JS.truthy key = true ->
  WebSocket_throws (env w) = None ->
  Server.terminate_session data = false ->
  JS.truthy (Server.audio_data data) = true ->
  EventLoop.step (EventLoop.Deliver (Server.ClientMessage (Some data))) l
  = EventLoop.mk (EventLoop.opened w)
      (EventLoop.microtasks l ++ [EventLoop.AfterConnect (Normal tt) data]).
Proof.
  intros w Hact Hterm Hkey Htruthy Hctor Hstop Haudio.
  cbn [EventLoop.step]. fold w. rewrite deliver_await, connect_shape.
  - cbn [fst snd EventLoop.spawned]. rewrite Hkey, Htruthy, Hctor. reflexivity.
  - cbn. rewrite Hstop, Haudio, Hact, Hterm. reflexivity.
Qed.

Lemma handed_not_open data w :
  ws_is_open w = false -> EventLoop.handed data w = w.
Proof.
  intros H. unfold EventLoop.handed. rewrite H. destruct (ws w); reflexivity.
Qed.

Lemma opened_not_open w : ws_is_open (EventLoop.opened w) = false.
Proof.
  unfold ws_is_open, EventLoop.opened. cbn.
  rewrite list_lookup_middle by reflexivity. reflexivity.
Qed.

Lemma microtask_connect (outcome : Completion unit) data
    (queue : list EventLoop.Task) w :
  EventLoop.step EventLoop.Microtask
    (EventLoop.mk w (EventLoop.AfterConnect outcome data :: queue))
  = EventLoop.mk
      (match outcome with
       | Normal _ =>
           EventLoop.told Server.assemblyai_connected (set_isSessionActive true w)
       | Throw message =>
           EventLoop.told (Server.assemblyai_error message)
             (set_isSessionActive false w)
       end)
      (queue ++ [EventLoop.AfterConnectToAssemblyAI data]).
Proof.
  cbn [EventLoop.step EventLoop.microtasks EventLoop.world].
  rewrite resume_shape, connectToAssemblyAI_resume_shape. reflexivity.
Qed.

Lemma microtask_send data (queue : list EventLoop.Task) w :
  EventLoop.step EventLoop.Microtask
    (EventLoop.mk w (EventLoop.AfterConnectToAssemblyAI data :: queue))
  = EventLoop.mk
      (if isSessionActive w && negb (isTerminating w)
       then EventLoop.handed data w else w)
      queue.
Proof.
  cbn [EventLoop.step EventLoop.microtasks EventLoop.world].
  rewrite resume_shape, send_if_open_shape. cbn [snd EventLoop.spawned].
  rewrite app_nil_r. reflexivity.
Qed.

Lemma microtask_idle w :
  EventLoop.step EventLoop.Microtask (EventLoop.mk w []) = EventLoop.mk w [].
Proof. reflexivity. Qed.

Lemma handed_if_not_open data w :
  ws_is_open w = false ->
  (if isSessionActive w && negb (isTerminating w)
   then EventLoop.handed data w else w) = w.
Proof.
  intros H. rewrite (handed_not_open data w H).
  destruct (isSessionActive w && negb (isTerminating w)); reflexivity.
Qed.

(** X15.  The audio frame that finds the proxy inactive opens the
    upstream connection and is itself lost.  Up to its first [await] the
    handler creates one socket, still connecting, and takes it as the
    handle; the proxy is still inactive, nothing has been sent to the
    client and one continuation waits.  Once the two continuations have
    run, nothing being delivered in between, the proxy is active and the
    client has been told [assemblyai_connected], before any
    acknowledgment of the service; no frame has been handed to the new
    socket. *)
Theorem first_frame_opens_and_is_dropped w data (key : string) :
  isSessionActive w = false -> isTerminating w = false ->
  apiKey w = Some key -> JS.truthy key = true ->
  WebSocket_throws (env w) = None ->
  Server.terminate_session data = false ->
  JS.truthy (Server.audio_data data) = true ->
  let frame := Server.ClientMessage (Some data) in
  let l1 := EventLoop.step (EventLoop.Deliver frame) (EventLoop.start w) in
  let l2 := EventLoop.run [EventLoop.Microtask; EventLoop.Microtask] l1 in
  let w1 := EventLoop.world l1 in
  let w2 := EventLoop.world l2 in
  (sockets w1 = sockets w ++ [mkSocket JS.CONNECTING [] None]
   /\ ws w1 = Some (length (sockets w))
   /\ isSessionActive w1 = false
   /\ outbox w1 = outbox w
   /\ EventLoop.microtasks l1 = [EventLoop.AfterConnect (Normal tt) data])
  /\ (sockets w2 = sockets w ++ [mkSocket JS.CONNECTING [] None]
      /\ ws w2 = Some (length (sockets w))
      /\ Server.state w2 = Server.Active
      /\ outbox w2 = outbox w ++ [Server.assemblyai_connected]
      /\ EventLoop.microtasks l2 = []).
Proof.
  intros Hact Hterm Hkey Htruthy Hctor Hstop Haudio frame l1 l2 w1 w2.
  assert (Hl1 : l1 = EventLoop.mk (EventLoop.opened w)
                       [EventLoop.AfterConnect (Normal tt) data]).
  { apply (deliver_first_frame (EventLoop.start w) data key); assumption. }
  assert (Hl2 : l2 = EventLoop.mk
                       (EventLoop.told Server.assemblyai_connected
                          (set_isSessionActive true (EventLoop.opened w))) []).
  { unfold l2. rewrite Hl1. cbn [EventLoop.run].
    rewrite microtask_connect. cbn [app]. rewrite microtask_send.
    rewrite handed_if_not_open; [reflexivity |]. apply (opened_not_open w). }
  subst w1 w2. rewrite Hl1, Hl2. cbn. unfold Server.state. cbn.
  rewrite Hact, Hterm. repeat split.
Qed.

Lemma first_frame_opens_and_is_dropped_witness :
  let w := Server.connection (Some "key"%string) (mkEnv false None false false) in
  let data := Server.mkClientData false "AAAA" in
  let frame := Server.ClientMessage (Some data) in
  let l1 := EventLoop.step (EventLoop.Deliver frame) (EventLoop.start w) in
  let l2 := EventLoop.run [EventLoop.Microtask; EventLoop.Microtask] l1 in
  let w1 := EventLoop.world l1 in
  let w2 := EventLoop.world l2 in
  (sockets w1 = sockets w ++ [mkSocket JS.CONNECTING [] None]
   /\ ws w1 = Some (length (sockets w))
   /\ isSessionActive w1 = false
   /\ outbox w1 = outbox w
   /\ EventLoop.microtasks l1 = [EventLoop.AfterConnect (Normal tt) data])
  /\ (sockets w2 = sockets w ++ [mkSocket JS.CONNECTING [] None]
      /\ ws w2 = Some (length (sockets w))
      /\ Server.state w2 = Server.Active
      /\ outbox w2 = outbox w ++ [Server.assemblyai_connected]
      /\ EventLoop.microtasks l2 = []).
Proof.
  exact (first_frame_opens_and_is_dropped
           (Server.connection (Some "key"%string) (mkEnv false None false false))
           (Server.mkClientData false "AAAA") "key"
           eq_refl eq_refl eq_refl eq_refl eq_refl eq_refl eq_refl).
Defined.


(** *** A second frame before the continuation of the first *)

(** X3.  Two audio frames delivered one after the other to an inactive
    proxy, the second before the continuation of the first has run, open
    two upstream sockets: the proxy is still inactive when the second
    arrives.  The handle goes to the second socket; the client is told
    [assemblyai_connected] twice and neither frame is sent.  The first
    socket is left out of reach: in every schedule that follows, the
    relay neither closes it nor sends it a frame. *)
Theorem second_frame_opens_second_socket w data1 data2 (key : string)
    (actions : list EventLoop.Action) :
  isSessionActive w = false -> isTerminating w = false ->
  apiKey w = Some key -> JS.truthy key = true ->
  WebSocket_throws (env w) = None ->
  Server.terminate_session data1 = false ->
  JS.truthy (Server.audio_data data1) = true ->
  Server.terminate_session data2 = false ->
  JS.truthy (Server.audio_data data2) = true ->
  let k := length (sockets w) in
  let l1 := EventLoop.run
              [EventLoop.Deliver (Server.ClientMessage (Some data1));
               EventLoop.Deliver (Server.ClientMessage (Some data2))]
              (EventLoop.start w) in
  let l2 := EventLoop.run (replicate 4 EventLoop.Microtask) l1 in
  (sockets (EventLoop.world l1)
   = sockets w ++ [mkSocket JS.CONNECTING [] None; mkSocket JS.CONNECTING [] None]
   /\ ws (EventLoop.world l1) = Some (S k)
   /\ EventLoop.microtasks l1
      = [EventLoop.AfterConnect (Normal tt) data1;
         EventLoop.AfterConnect (Normal tt) data2])
  /\ (sockets (EventLoop.world l2) = sockets (EventLoop.world l1)
      /\ outbox (EventLoop.world l2)
         = outbox w ++ [Server.assemblyai_connected; Server.assemblyai_connected]
      /\ EventLoop.microtasks l2 = [])
  /\ Server.out_of_reach k (EventLoop.world (EventLoop.run actions l1)).
Proof.
  intros Hact Hterm Hkey Htruthy Hctor Hstop1 Haudio1 Hstop2 Haudio2 k l1 l2.
  assert (Hl1 : l1 = EventLoop.mk (EventLoop.opened (EventLoop.opened w))
                       [EventLoop.AfterConnect (Normal tt) data1;
                        EventLoop.AfterConnect (Normal tt) data2]).
  { unfold l1. cbn [EventLoop.run].
    rewrite (deliver_first_frame (EventLoop.start w) data1 key) by assumption.
    rewrite (deliver_first_frame _ data2 key) by assumption. reflexivity. }
  assert (Hopen : forall w0, ws_is_open
            (EventLoop.told Server.assemblyai_connected
               (set_isSessionActive true
                  (EventLoop.told Server.assemblyai_connected
                     (set_isSessionActive true (EventLoop.opened w0))))) = false).
  { intros w0. apply (opened_not_open w0). }
  assert (Hl2 : l2 = EventLoop.mk
                       (EventLoop.told Server.assemblyai_connected
                          (set_isSessionActive true
                             (EventLoop.told Server.assemblyai_connected
                                (set_isSessionActive true
                                   (EventLoop.opened (EventLoop.opened w)))))) []).
  { unfold l2. rewrite Hl1. cbn [replicate EventLoop.run].
    rewrite microtask_connect. cbn [app].
    rewrite microtask_connect. cbn [app].
    rewrite microtask_send, handed_if_not_open by apply Hopen.
    rewrite microtask_send, handed_if_not_open by apply Hopen.
    reflexivity. }
  split; [| split].
  - rewrite Hl1. cbn. rewrite length_app. cbn. rewrite <- app_assoc.
    repeat split. f_equal. lia.
  - rewrite Hl2, Hl1. cbn. split; [reflexivity |].
    rewrite <- app_assoc. split; reflexivity.
  - apply (run_preserves _ (loop_step_out_of_reach k)).
    rewrite Hl1. split.
    + cbn. rewrite length_app. cbn. intros [= Heq]. lia.
    + cbn. exists (mkSocket JS.CONNECTING [] None). split; [| split; reflexivity].
      rewrite <- app_assoc. apply list_lookup_middle. reflexivity.
Qed.

Lemma second_frame_opens_second_socket_witness :
  let w := Server.connection (Some "key"%string) (mkEnv false None false false) in
  let data1 := Server.mkClientData false "AAAA" in
  let data2 := Server.mkClientData false "BBBB" in
  let actions :=
    [EventLoop.Microtask; EventLoop.Microtask; EventLoop.Microtask;
     EventLoop.Microtask; EventLoop.Deliver (Server.UpstreamOpen 0);
     EventLoop.Deliver (Server.UpstreamOpen 1);
     EventLoop.Deliver (Server.ClientMessage (Some (Server.mkClientData true "")));
     EventLoop.Deliver Server.ClientClose] in
  let k := length (sockets w) in
  let l1 := EventLoop.run
              [EventLoop.Deliver (Server.ClientMessage (Some data1));
               EventLoop.Deliver (Server.ClientMessage (Some data2))]
              (EventLoop.start w) in
  let l2 := EventLoop.run (replicate 4 EventLoop.Microtask) l1 in
  (sockets (EventLoop.world l1)
   = sockets w ++ [mkSocket JS.CONNECTING [] None; mkSocket JS.CONNECTING [] None]
   /\ ws (EventLoop.world l1) = Some (S k)
   /\ EventLoop.microtasks l1
      = [EventLoop.AfterConnect (Normal tt) data1;
         EventLoop.AfterConnect (Normal tt) data2])
  /\ (sockets (EventLoop.world l2) = sockets (EventLoop.world l1)
      /\ outbox (EventLoop.world l2)
         = outbox w ++ [Server.assemblyai_connected; Server.assemblyai_connected]
      /\ EventLoop.microtasks l2 = [])
  /\ Server.out_of_reach k (EventLoop.world (EventLoop.run actions l1)).
Proof.
  exact (second_frame_opens_second_socket
           (Server.connection (Some "key"%string) (mkEnv false None false false))
           (Server.mkClientData false "AAAA") (Server.mkClientData false "BBBB")
           "key"
           [EventLoop.Microtask; EventLoop.Microtask; EventLoop.Microtask;
            EventLoop.Microtask; EventLoop.Deliver (Server.UpstreamOpen 0);
            EventLoop.Deliver (Server.UpstreamOpen 1);
            EventLoop.Deliver
              (Server.ClientMessage (Some (Server.mkClientData true "")));
            EventLoop.Deliver Server.ClientClose]
           eq_refl eq_refl eq_refl eq_refl eq_refl eq_refl eq_refl eq_refl
           eq_refl).
Defined.

(** *** After the loss of the upstream connection *)

(** X16.  An upstream close or error, handled alone, leaves the proxy
    inactive, with one error message sent to the client and the stale
    handle kept; nothing stops the next audio frame from opening a new
    upstream connection: handled alone, it creates a socket, takes it as
    the handle, and the client is told [assemblyai_connected] again. *)
Theorem next_frame_reconnects_after_upstream_loss w (e : Server.Event) data
    (key : string) :
  match e with
  | Server.UpstreamClose _ _ _ | Server.UpstreamError _ _ => True
  | _ => False
  end ->
  isTerminating w = false ->
  apiKey w = Some key -> JS.truthy key = true ->
  WebSocket_throws (env w) = None ->
  Server.terminate_session data = false ->
  JS.truthy (Server.audio_data data) = true ->
  let l1 := EventLoop.run (EventLoop.alone e) (EventLoop.start w) in
  let l2 := EventLoop.run
              (EventLoop.alone (Server.ClientMessage (Some data))) l1 in
  let w1 := EventLoop.world l1 in
  let w2 := EventLoop.world l2 in
  (isSessionActive w1 = false /\ ws w1 = ws w
   /\ (exists message, outbox w1 = outbox w ++ [Server.error message])
   /\ EventLoop.microtasks l1 = [])
  /\ length (sockets w2) = S (length (sockets w))
  /\ ws w2 = Some (length (sockets w))
  /\ isSessionActive w2 = true
  /\ outbox w2 = outbox w1 ++ [Server.assemblyai_connected]
  /\ EventLoop.microtasks l2 = [].
Proof.
  intros He Hterm Hkey Htruthy Hctor Hstop Haudio l1 l2 w1 w2.
  destruct (upstream_down_shape w e He)
    as (Hact1 & Hterm1 & Hws1 & Hkey1 & Henv1 & Hlen1 & Hout1).
  assert (Hl1 : l1 = EventLoop.start (snd (Server.step e w)))
    by apply alone_is_step.
  assert (Hl2 : l2 = EventLoop.start
                       (snd (Server.step (Server.ClientMessage (Some data))
                               (snd (Server.step e w))))).
  { unfold l2. rewrite Hl1. apply alone_is_step. }
  subst w1 w2. rewrite Hl2, Hl1. cbn [EventLoop.start EventLoop.world
    EventLoop.microtasks].
  split; [auto |].
  cbn [Server.step].
  rewrite (first_frame_shape (snd (Server.step e w)) data key); try congruence.
  cbn. rewrite length_app, Hlen1. cbn. repeat split; try lia.
Qed.

Lemma next_frame_reconnects_after_upstream_loss_witness :
  let w := {| isSessionActive := true; isTerminating := false;
              apiKey := Some "key"%string; ws := Some 0%nat;
              sockets := [mkSocket JS.OPEN ["AAAA"%string] None];
              outbox := [Server.connection_established;
                         Server.assemblyai_connected];
              env := mkEnv false None false false |} in
  let e := Server.UpstreamClose 0 1006 "" in
  let data := Server.mkClientData false "BBBB" in
  let l1 := EventLoop.run (EventLoop.alone e) (EventLoop.start w) in
  let l2 := EventLoop.run
              (EventLoop.alone (Server.ClientMessage (Some data))) l1 in
  let w1 := EventLoop.world l1 in
  let w2 := EventLoop.world l2 in
  (isSessionActive w1 = false /\ ws w1 = ws w
   /\ (exists message, outbox w1 = outbox w ++ [Server.error message])
   /\ EventLoop.microtasks l1 = [])
  /\ length (sockets w2) = S (length (sockets w))
  /\ ws w2 = Some (length (sockets w))
  /\ isSessionActive w2 = true
  /\ outbox w2 = outbox w1 ++ [Server.assemblyai_connected]
  /\ EventLoop.microtasks l2 = [].
Proof.
  exact (next_frame_reconnects_after_upstream_loss
           {| isSessionActive := true; isTerminating := false;
              apiKey := Some "key"%string; ws := Some 0%nat;
              sockets := [mkSocket JS.OPEN ["AAAA"%string] None];
              outbox := [Server.connection_established;
                         Server.assemblyai_connected];
              env := mkEnv false None false false |}
           (Server.UpstreamClose 0 1006 "") (Server.mkClientData false "BBBB")
           "key" I eq_refl eq_refl eq_refl eq_refl eq_refl eq_refl).
Defined.


(** *** Ending a session whose socket is still connecting *)

Lemma session_end_drops_handle w e (k : nat) (s : Socket) :
  match e with
  | Server.ClientMessage (Some stop) => Server.terminate_session stop = true
  | Server.ClientClose | Server.ClientError => isSessionActive w = true
  | _ => False
  end ->
  ws w = Some k -> sockets w !! k = Some s ->
  JS.is_open (readyState s) = false ->
  Server.opens_upstream e w = false
  /\ ws (snd (Server.step e w)) = None
  /\ sockets (snd (Server.step e w)) = sockets w.
Proof.
  intros He Hws Hs Hopen.
  destruct e as [[stop |] | | | | | |]; try contradiction; cbn in He.
  - split; [cbn; rewrite He; reflexivity |].
    unfold_server. crunch; split; reflexivity.
  - split; [reflexivity |]. unfold_server. crunch; split; reflexivity.
  - split; [reflexivity |]. unfold_server. crunch; split; reflexivity.
Qed.

Lemma run_idle (n : nat) w :
  EventLoop.run (replicate n EventLoop.Microtask) (EventLoop.mk w [])
  = EventLoop.mk w [].
Proof. induction n as [| n IH]; [reflexivity | exact IH]. Qed.

(** The state while the first frame waits for its continuations, after
    [n] of them. *)
Lemma first_frame_waiting w data (key : string) (n : nat) :
  isSessionActive w = false -> isTerminating w = false ->
  apiKey w = Some key -> JS.truthy key = true ->
  WebSocket_throws (env w) = None ->
  Server.terminate_session data = false ->
  JS.truthy (Server.audio_data data) = true ->
  let l := EventLoop.run (replicate n EventLoop.Microtask)
             (EventLoop.step
                (EventLoop.Deliver (Server.ClientMessage (Some data)))
                (EventLoop.start w)) in
  sockets (EventLoop.world l) = sockets w ++ [mkSocket JS.CONNECTING [] None]
  /\ ws (EventLoop.world l) = Some (length (sockets w))
  /\ isSessionActive (EventLoop.world l) = (1 <=? n)%nat.
Proof.
  intros Hact Hterm Hkey Htruthy Hctor Hstop Haudio.
  rewrite (deliver_first_frame (EventLoop.start w) data key) by assumption.
  cbn [EventLoop.start EventLoop.world EventLoop.microtasks app].
  destruct n as [| [| n]]; cbn [replicate EventLoop.run].
  - cbn. rewrite Hact. auto.
  - rewrite microtask_connect. cbn. auto.
  - rewrite microtask_connect. cbn [app].
    rewrite microtask_send, handed_if_not_open by apply (opened_not_open w).
    rewrite run_idle. cbn. auto.
Qed.

(** X17.  A session that is ended while its upstream socket is still
    connecting leaks that socket.  The session is ended by a
    terminate-session request, which may arrive before the continuations
    of the first frame have run, or by the close or the error of the
    client channel once [connectToAssemblyAI] has resumed.  The handle is
    dropped without [close] being called, and in every schedule that
    follows, the opening of the socket included, the relay never closes
    the socket and never sends it a frame. *)
Theorem connecting_socket_is_leaked w data (key : string) (n : nat) e
    (actions : list EventLoop.Action) :
  isSessionActive w = false -> isTerminating w = false ->
  apiKey w = Some key -> JS.truthy key = true ->
  WebSocket_throws (env w) = None ->
  Server.terminate_session data = false ->
  JS.truthy (Server.audio_data data) = true ->
  EventLoop.ends_session_after n e ->
  let k := length (sockets w) in
  let l2 := EventLoop.run (replicate n EventLoop.Microtask)
              (EventLoop.step
                 (EventLoop.Deliver (Server.ClientMessage (Some data)))
                 (EventLoop.start w)) in
  let l3 := EventLoop.step (EventLoop.Deliver e) l2 in
  ws (EventLoop.world l3) = None
  /\ sockets (EventLoop.world l3) !! k = Some (mkSocket JS.CONNECTING [] None)
  /\ Server.out_of_reach k (EventLoop.world (EventLoop.run actions l3)).
Proof.
  intros Hact Hterm Hkey Htruthy Hctor Hstop Haudio He k l2 l3.
  destruct (first_frame_waiting w data key n Hact Hterm Hkey Htruthy Hctor
              Hstop Haudio) as (Hs2 & Hws2 & Hact2).
  fold l2 in Hs2, Hws2, Hact2.
  assert (Hk : sockets (EventLoop.world l2) !! k
               = Some (mkSocket JS.CONNECTING [] None)).
  { rewrite Hs2. apply list_lookup_middle. reflexivity. }
  destruct (session_end_drops_handle (EventLoop.world l2) e k
              (mkSocket JS.CONNECTING [] None)) as (Hno & Hws3 & Hs3);
    [| exact Hws2 | exact Hk | reflexivity |].
  { unfold EventLoop.ends_session_after in He.
    destruct e as [[stop |] | | | | | |]; try exact He.
    - rewrite Hact2. apply Nat.leb_le, He.
    - rewrite Hact2. apply Nat.leb_le, He. }
  assert (Hw3 : EventLoop.world l3 = snd (Server.step e (EventLoop.world l2))).
  { unfold l3. rewrite step_world, Hno. reflexivity. }
  rewrite Hw3, Hws3, Hs3. split; [reflexivity |]. split; [exact Hk |].
  apply (run_preserves _ (loop_step_out_of_reach k)).
  rewrite Hw3. split; [rewrite Hws3; discriminate |].
  rewrite Hs3. eexists. split; [exact Hk |]. split; reflexivity.
Qed.

Lemma connecting_socket_is_leaked_witness :
  let w := Server.connection (Some "key"%string) (mkEnv false None false false) in
  let data := Server.mkClientData false "AAAA" in
  let e := Server.ClientMessage (Some (Server.mkClientData true "")) in
  let actions :=
    [EventLoop.Microtask; EventLoop.Microtask;
     EventLoop.Deliver (Server.UpstreamOpen 0);
     EventLoop.Deliver (Server.ClientMessage (Some (Server.mkClientData true "")));
     EventLoop.Deliver Server.ClientClose] in
  let k := length (sockets w) in
  let l2 := EventLoop.run (replicate 0 EventLoop.Microtask)
              (EventLoop.step
                 (EventLoop.Deliver (Server.ClientMessage (Some data)))
                 (EventLoop.start w)) in
  let l3 := EventLoop.step (EventLoop.Deliver e) l2 in
  ws (EventLoop.world l3) = None
  /\ sockets (EventLoop.world l3) !! k = Some (mkSocket JS.CONNECTING [] None)
  /\ Server.out_of_reach k (EventLoop.world (EventLoop.run actions l3)).
Proof.
  exact (connecting_socket_is_leaked
           (Server.connection (Some "key"%string) (mkEnv false None false false))
           (Server.mkClientData false "AAAA") "key" 0
           (Server.ClientMessage (Some (Server.mkClientData true "")))
           [EventLoop.Microtask; EventLoop.Microtask;
            EventLoop.Deliver (Server.UpstreamOpen 0);
            EventLoop.Deliver
              (Server.ClientMessage (Some (Server.mkClientData true "")));
            EventLoop.Deliver Server.ClientClose]
           eq_refl eq_refl eq_refl eq_refl eq_refl eq_refl eq_refl eq_refl).
Defined.

(** The terminate request that arrives before the continuation of the
    first frame is confirmed first; the continuation then marks the proxy
    active, without a handle, and tells the client [assemblyai_connected]. *)
Example terminate_overtaken_by_connect :
  let l := EventLoop.run
             [EventLoop.Deliver
                (Server.ClientMessage (Some (Server.mkClientData false "AAAA")));
              EventLoop.Deliver
                (Server.ClientMessage (Some (Server.mkClientData true "")));
              EventLoop.Microtask; EventLoop.Microtask]
             (EventLoop.start
                (Server.connection (Some "key"%string)
                   (mkEnv false None false false))) in
  Server.state (EventLoop.world l) = Server.Active
  /\ ws (EventLoop.world l) = None
  /\ outbox (EventLoop.world l)
     = [Server.connection_established; Server.session_terminated;
        Server.assemblyai_connected].
Proof. repeat split. Qed.

(** *** Invariants of a connection *)

(** X18.  In every schedule of a connection, whatever is delivered while
    a handler waits at an [await], the terminating flag is false between
    two steps of the loop: it is raised and lowered inside the terminate
    branch, which has no [await], so no handler and no continuation ever
    finds it raised.  Moreover the handle, when there is one, always
    refers to a socket that was created, and the credential and the
    libraries are those the connection started with. *)
Theorem connection_invariants (actions : list EventLoop.Action)
    (assemblyAIKey : option string) (e0 : Env) :
  let l := EventLoop.run actions
             (EventLoop.start (Server.connection assemblyAIKey e0)) in
  let w := EventLoop.world l in
  isTerminating w = false
  /\ Server.state w <> Server.Terminating
  /\ Server.handle_valid w
  /\ apiKey w = assemblyAIKey /\ env w = e0.
Proof.
  intros l w.
  assert (H : isTerminating w = false /\ Server.handle_valid w
              /\ apiKey w = assemblyAIKey /\ env w = e0).
  { apply (run_preserves _ (loop_step_keeps assemblyAIKey e0)).
    cbn. repeat split. intros k Hk. discriminate Hk. }
  destruct H as (Hterm & Hvalid & Hkey & Henv).
  repeat split; try assumption.
  unfold Server.state. rewrite Hterm. destruct (isSessionActive w); discriminate.
Qed.

(** X20.  A step of the loop creates at most one upstream socket and
    removes none; only the delivery of an audio frame that finds the proxy
    inactive and not terminating creates one.  A terminate request, the
    close or the error of the client, the events of the upstream sockets
    and the continuations never open a connection. *)
Theorem only_audio_opens_upstream (a : EventLoop.Action) l :
  let w := EventLoop.world l in
  let w' := EventLoop.world (EventLoop.step a l) in
  (length (sockets w) <= length (sockets w') <= S (length (sockets w)))%nat
  /\ (match a with
      | EventLoop.Deliver e => Server.opens_upstream e w = false
      | EventLoop.Microtask => True
      end ->
      length (sockets w') = length (sockets w)).
Proof.
  intros w w'. pose proof (loop_step_sockets a l) as Hlen.
  fold w w' in Hlen. rewrite Hlen. destruct a as [e |].
  - split.
    + destruct (Server.opens_upstream e w); [| lia].
      destruct (WebSocket_throws (env w)); [lia |].
      destruct (apiKey w); [| lia]. destruct (JS.truthy _); lia.
    + intros ->. reflexivity.
  - split; [lia | reflexivity].
Qed.

Lemma only_audio_opens_upstream_witness :
  let l := EventLoop.start
             (Server.connection (Some "key"%string)
                (mkEnv false None false false)) in
  let a := EventLoop.Deliver
             (Server.ClientMessage (Some (Server.mkClientData true "AAAA"))) in
  length (sockets (EventLoop.world (EventLoop.step a l)))
  = length (sockets (EventLoop.world l)).
Proof.
  intros l a.
  exact (proj2 (only_audio_opens_upstream a l) eq_refl).
Defined.

(** *** A frame after a terminate request *)



(** A whole session: the first frame opens the connection, the second is
    forwarded, the session is terminated, and the frame that follows
    opens a second upstream connection. *)
Example frame_after_terminate_request :
  let l := EventLoop.run
             (EventLoop.alone
                (Server.ClientMessage (Some (Server.mkClientData false "AAAA")))
              ++ EventLoop.alone (Server.UpstreamOpen 0)
              ++ EventLoop.alone
                   (Server.ClientMessage (Some (Server.mkClientData false "BBBB")))
              ++ EventLoop.alone
                   (Server.ClientMessage (Some (Server.mkClientData true "")))
              ++ EventLoop.alone
                   (Server.ClientMessage (Some (Server.mkClientData false "CCCC"))))
             (EventLoop.start
                (Server.connection (Some "key"%string)
                   (mkEnv false None false false))) in
  ws (EventLoop.world l) = Some 1%nat
  /\ sockets (EventLoop.world l)
     = [mkSocket JS.CLOSING ["BBBB"%string]
          (Some (1000, "Session terminated by user"%string));
        mkSocket JS.CONNECTING [] None]
  /\ Server.state (EventLoop.world l) = Server.Active
  /\ outbox (EventLoop.world l)
     = [Server.connection_established; Server.assemblyai_connected;
        Server.session_terminated; Server.assemblyai_connected].
Proof. repeat split. Qed.

End ProxyLoop.

(** ** The elapsed-time display *)

Section TimerFacts.

Local Open Scope string_scope.

Lemma string_app_cons (c : ascii) (a b : string) :
  String c a ++ b = String c (a ++ b).
Proof. reflexivity. Qed.

Lemma string_app_nil (b : string) : EmptyString ++ b = b.
Proof. reflexivity. Qed.

Lemma string_length_app (a b : string) :
  String.length (a ++ b) = (String.length a + String.length b)%nat.
Proof.
  induction a as [| c a IH]; [reflexivity |].
  rewrite string_app_cons. cbn. rewrite IH. reflexivity.
Qed.

Lemma string_app_inj (a a' b b' : string) :
  String.length a = String.length a' ->
  a ++ b = a' ++ b' -> a = a' /\ b = b'.
Proof.
  revert a'. induction a as [| c a IH]; intros [| c' a'] Hlen H;
    try discriminate Hlen.
  - split; [reflexivity | exact H].
  - rewrite !string_app_cons in H. injection H as -> H. injection Hlen as Hlen.
    destruct (IH a' Hlen H) as [-> ->]. split; reflexivity.
Qed.

Import Timer.

Lemma two_digits_checked :
  forallb (fun a =>
    Nat.eqb (String.length (two_digits (N.of_nat a))) 2
    && forallb (fun b =>
         implb (String.eqb (two_digits (N.of_nat a)) (two_digits (N.of_nat b)))
               (Nat.eqb a b)) (seq 0 60)) (seq 0 60) = true.
Proof. vm_compute. reflexivity. Qed.

Lemma two_digits_length (n : N) :
  (n < 60)%N -> String.length (two_digits n) = 2%nat.
Proof.
  intros Hn. pose proof two_digits_checked as H.
  rewrite forallb_forall in H. specialize (H (N.to_nat n)).
  rewrite N2Nat.id in H.
  assert (Hin : In (N.to_nat n) (seq 0 60)) by (apply in_seq; lia).
  apply H, andb_prop in Hin as [Hlen _]. apply Nat.eqb_eq, Hlen.
Qed.

Lemma two_digits_inj (n m : N) :
  (n < 60)%N -> (m < 60)%N -> two_digits n = two_digits m -> n = m.
Proof.
  intros Hn Hm Heq. pose proof two_digits_checked as H.
  rewrite forallb_forall in H. specialize (H (N.to_nat n)).
  rewrite N2Nat.id in H.
  assert (Hin : In (N.to_nat n) (seq 0 60)) by (apply in_seq; lia).
  apply H, andb_prop in Hin as [_ Hall].
  rewrite forallb_forall in Hall. specialize (Hall (N.to_nat m)).
  rewrite N2Nat.id in Hall. rewrite Heq, String.eqb_refl in Hall. cbn in Hall.
  assert (Hin' : In (N.to_nat m) (seq 0 60)) by (apply in_seq; lia).
  apply Hall, Nat.eqb_eq in Hin'. lia.
Qed.

Lemma formatTime_parts (t : N) :
  let hrs := (t / 3600)%N in
  let mins := ((t mod 3600) / 60)%N in
  let secs := (t mod 60)%N in
  (mins < 60)%N /\ (secs < 60)%N /\ t = (3600 * hrs + 60 * mins + secs)%N
  /\ Timer.formatTime t
     = if (hrs =? 0)%N then two_digits mins ++ ":" ++ two_digits secs
       else pretty hrs ++ ":" ++ two_digits mins ++ ":" ++ two_digits secs.
Proof.
  intros hrs mins secs.
  pose proof (N.div_mod t 3600 ltac:(lia)) as H1.
  pose proof (N.mod_lt t 3600 ltac:(lia)) as H2.
  pose proof (N.div_mod (t mod 3600) 60 ltac:(lia)) as H3.
  pose proof (N.mod_lt (t mod 3600) 60 ltac:(lia)) as H4.
  assert (H5 : ((t mod 3600) mod 60 = t mod 60)%N).
  { change 3600%N with (60 * 60)%N. rewrite N.Div0.mod_mul_r.
    rewrite N.mul_comm, N.Div0.mod_add. apply N.Div0.mod_mod. }
  assert (Hmins : (mins < 60)%N).
  { unfold mins. apply N.Div0.div_lt_upper_bound. lia. }
  split; [exact Hmins |]. split; [unfold secs; apply N.mod_lt; lia |].
  split; [unfold hrs, mins, secs; lia |]. reflexivity.
Qed.

(** X21.  The display is faithful: two different counts of seconds are
    never shown the same way, and under one hour the display is "MM:SS",
    five characters long. *)
Theorem formatTime_is_injective (a b : N) :
  (Timer.formatTime a = Timer.formatTime b -> a = b)
  /\ ((a < 3600)%N -> String.length (Timer.formatTime a) = 5%nat).
Proof.
  destruct (formatTime_parts a) as (Hma & Hsa & Ha & Hfa).
  destruct (formatTime_parts b) as (Hmb & Hsb & Hb & Hfb).
  pose proof (two_digits_length _ Hma) as Lma.
  pose proof (two_digits_length _ Hsa) as Lsa.
  pose proof (two_digits_length _ Hmb) as Lmb.
  pose proof (two_digits_length _ Hsb) as Lsb.
  split.
  - intros Heq. rewrite Hfa, Hfb in Heq.
    assert (Hrest : forall x y : string,
              two_digits (a mod 3600 / 60) ++ ":" ++ two_digits (a mod 60) = x ->
              two_digits (b mod 3600 / 60) ++ ":" ++ two_digits (b mod 60) = y ->
              x = y ->
              (a mod 3600 / 60 = b mod 3600 / 60 /\ a mod 60 = b mod 60)%N).
    { intros x y <- <- H.
      apply string_app_inj in H as [Hm H]; [| congruence].
      rewrite !string_app_cons, !string_app_nil in H. injection H as H.
      split; apply two_digits_inj; assumption. }
    destruct (a / 3600 =? 0)%N eqn:Ea, (b / 3600 =? 0)%N eqn:Eb.
    + apply N.eqb_eq in Ea, Eb.
      destruct (Hrest _ _ eq_refl eq_refl Heq) as [Hm Hs]. lia.
    + apply (f_equal String.length) in Heq.
      rewrite !string_length_app, Lma, Lsa, Lmb, Lsb in Heq. cbn in Heq. lia.
    + apply (f_equal String.length) in Heq.
      rewrite !string_length_app, Lma, Lsa, Lmb, Lsb in Heq. cbn in Heq. lia.
    + assert (Hlen : String.length (pretty (a / 3600)%N)
                     = String.length (pretty (b / 3600)%N)).
      { apply (f_equal String.length) in Heq.
        rewrite !string_length_app, Lma, Lsa, Lmb, Lsb in Heq. cbn in Heq. lia. }
      apply string_app_inj in Heq as [Hh Heq]; [| exact Hlen].
      apply (inj pretty) in Hh.
      rewrite !string_app_cons, !string_app_nil in Heq. injection Heq as Heq.
      destruct (Hrest _ _ eq_refl eq_refl Heq) as [Hm Hs]. lia.
  - intros Hlt. rewrite Hfa.
    rewrite (N.div_small a 3600 Hlt). cbn [N.eqb].
    rewrite !string_length_app, Lma, Lsa. reflexivity.
Qed.

Lemma formatTime_is_injective_witness :
  Timer.formatTime 61 = "01:01" /\ String.length (Timer.formatTime 61) = 5%nat
  /\ (Timer.formatTime 3661 = Timer.formatTime (3600 + 61) -> 3661 = 3600 + 61)%N.
Proof.
  split; [reflexivity |]. split.
  - refine (proj2 (formatTime_is_injective 61 0) _). reflexivity.
  - exact (proj1 (formatTime_is_injective 3661 (3600 + 61))).
Defined.

Lemma timer_step_one_interval (c : Timer.t) (e : Timer.Event) :
  (exists i, Timer.intervalRef c = Some i /\ Timer.running c = [i])
  \/ (Timer.intervalRef c = None /\ Timer.running c = []) ->
  (exists i, Timer.intervalRef (Timer.step c e) = Some i
             /\ Timer.running (Timer.step c e) = [i])
  \/ (Timer.intervalRef (Timer.step c e) = None
      /\ Timer.running (Timer.step c e) = []).
Proof.
  intros [(i & Hi & Hr) | (Hi & Hr)]; destruct e; cbn [Timer.step].
  - left. exists i. unfold Timer.start. rewrite Hi. auto.
  - right. unfold Timer.stop. cbn. rewrite Hi, Hr. cbn.
    rewrite Pos.eqb_refl. auto.
  - right. unfold Timer.reset. cbn. rewrite Hi, Hr. cbn.
    rewrite Pos.eqb_refl. auto.
  - left. exists i. auto.
  - left. unfold Timer.start. rewrite Hi. cbn. rewrite Hr. eauto.
  - right. unfold Timer.stop. cbn. rewrite Hi, Hr. auto.
  - right. unfold Timer.reset. cbn. rewrite Hi, Hr. auto.
  - right. auto.
Qed.

Lemma timer_run_one_interval (events : list Timer.Event) : forall c : Timer.t,
  (exists i, Timer.intervalRef c = Some i /\ Timer.running c = [i])
  \/ (Timer.intervalRef c = None /\ Timer.running c = []) ->
  (exists i, Timer.intervalRef (Timer.run events c) = Some i
             /\ Timer.running (Timer.run events c) = [i])
  \/ (Timer.intervalRef (Timer.run events c) = None
      /\ Timer.running (Timer.run events c) = []).
Proof.
  unfold Timer.run.
  induction events as [| e events IH]; intros c H; [exact H |].
  cbn [fold_left]. apply IH, timer_step_one_interval, H.
Qed.

(** X22.  However [start], [stop] and [reset] are called, at most one
    interval of the timer is running, and it is the one the component
    remembers: [start] on a running timer does nothing, so the count
    never advances by more than one per second, and [stop] and [reset]
    leave no interval behind. *)
Theorem timer_has_one_interval (events : list Timer.Event) :
  let c := Timer.run events Timer.initial in
  Timer.running c
  = match Timer.intervalRef c with Some i => [i] | None => [] end
  /\ (Timer.seconds (Timer.second_passes c) <= Timer.seconds c + 1)%N
  /\ Timer.running (Timer.stop c) = []
  /\ Timer.start (Timer.start c) = Timer.start c.
Proof.
  intros c.
  assert (H : (exists i, Timer.intervalRef c = Some i /\ Timer.running c = [i])
              \/ (Timer.intervalRef c = None /\ Timer.running c = [])).
  { apply timer_run_one_interval. right. split; reflexivity. }
  destruct H as [(i & Hi & Hr) | (Hi & Hr)].
  - rewrite Hi, Hr. split; [reflexivity |]. split.
    + cbn. rewrite Hr. cbn. lia.
    + split.
      * unfold Timer.stop. cbn. rewrite Hi, Hr. cbn. rewrite Pos.eqb_refl.
        reflexivity.
      * unfold Timer.start. rewrite Hi. cbn. rewrite Hi. reflexivity.
  - rewrite Hi, Hr. split; [reflexivity |]. split.
    + cbn. rewrite Hr. cbn. lia.
    + split.
      * unfold Timer.stop. cbn. rewrite Hi, Hr. reflexivity.
      * unfold Timer.start. rewrite Hi. reflexivity.
Qed.

End TimerFacts.

(** ** The fenced code blocks of an answer *)

Section CodeBlocks.

Import CodeBlock.

Local Open Scope string_scope.

Implicit Types (lines pre rest : list string) (st : State) (b : Block).

Lemma ordered_weaken (blocks : list Block) : forall lo hi hi',
  ordered lo blocks hi -> (hi <= hi')%nat -> ordered lo blocks hi'.
Proof.
  induction blocks as [| b blocks IH]; intros lo hi hi' H Hle; [exact I |].
  destruct H as (H1 & H2 & H3 & H4). cbn. repeat split; try lia.
  eapply IH; eassumption.
Qed.

Lemma ordered_snoc (blocks : list Block) : forall lo hi b,
  ordered lo blocks (startLine b) ->
  (lo <= startLine b)%nat -> (startLine b <= endLine b)%nat ->
  (endLine b < hi)%nat ->
  ordered lo (blocks ++ [b]) hi.
Proof.
  induction blocks as [| b0 blocks IH]; intros lo hi b H Hlo Hse Hhi.
  - cbn. repeat split; assumption.
  - destruct H as (H1 & H2 & H3 & H4). cbn. repeat split; try lia.
    apply IH; [assumption | lia | assumption | assumption].
Qed.

Lemma fences_snoc pre (line : string) :
  fences (pre ++ [line])
  = (fences pre + (if is_fence line then 1 else 0))%nat.
Proof.
  unfold fences. rewrite List.filter_app, length_app. cbn.
  destruct (is_fence line); reflexivity.
Qed.

Lemma filter_all_kept {A} (P : A -> bool) (l : list A) :
  Forall (fun x => P x = true) l -> List.filter P l = l.
Proof.
  induction 1 as [| x l Hx _ IH]; [reflexivity |].
  cbn. rewrite Hx, IH. reflexivity.
Qed.

Lemma not_fence_kept (l : list string) :
  Forall (fun line => is_fence line = false) l ->
  List.filter (fun line => negb (is_fence line)) l = l.
Proof.
  intros H. apply filter_all_kept. eapply Forall_impl; [exact H |].
  intros x Hx. cbn in Hx. rewrite Hx. reflexivity.
Qed.

Lemma block_ok_snoc pre (line : string) b :
  block_ok pre b -> block_ok (pre ++ [line]) b.
Proof.
  intros ((Hse & Hlt) & Hlang & (l & Hl & Hf) & Hcode).
  split; [rewrite length_app; cbn; lia |]. split; [exact Hlang |].
  split; [exists l; split; [apply lookup_app_l_Some, Hl | exact Hf] |].
  rewrite Hcode. unfold inside.
  rewrite drop_app_le by lia. rewrite take_app_le; [reflexivity |].
  rewrite length_drop. lia.
Qed.

(** The lines from a fence on, the fence left out. *)
Lemma inside_from_fence lines (s e : nat) (fence : string) (lang c : string) :
  lines !! s = Some fence -> is_fence fence = true ->
  (length lines <= S e)%nat ->
  inside lines (mkBlock lang c s e)
  = List.filter (fun line => negb (is_fence line)) (drop (S s) lines).
Proof.
  intros Hs Hf He. unfold inside. cbn [startLine endLine].
  pose proof (lookup_lt_Some _ _ _ Hs) as Hlt.
  rewrite take_ge by (rewrite length_drop; lia).
  rewrite (drop_S _ _ _ Hs). cbn. rewrite Hf. reflexivity.
Qed.

Lemma visit_scanned pre (line : string) st :
  scanned pre st -> scanned (pre ++ [line]) (visit (length pre) line st).
Proof.
  intros (Hin & Hord & Hcur & Hblocks & Hcount).
  assert (Hblocks' : Forall (block_ok (pre ++ [line])) (codeBlocks st)).
  { eapply Forall_impl; [exact Hblocks |]. intros b. apply block_ok_snoc. }
  assert (Hlen : length (pre ++ [line]) = S (length pre))
    by (rewrite length_app; cbn; lia).
  unfold visit. rewrite Hin.
  destruct (is_fence line) eqn:Hfence; destruct (currentBlock st) as [c |] eqn:Hc.
  - (* a fence that closes the block *)
    destruct (Hcur c eq_refl) as (Hs & Hlang & (l & Hl & Hlf) & Hcode & Hcl).
    split; [reflexivity |]. cbn [codeBlocks currentBlock].
    split; [apply ordered_snoc; cbn; try lia; exact Hord |].
    split; [intros ? [=] |]. split.
    + apply Forall_app. split; [exact Hblocks' |]. constructor; [| constructor].
      split; [cbn; lia |]. split; [exact Hlang |].
      split; [exists l; split; [apply lookup_app_l_Some, Hl | exact Hlf] |].
      unfold finished at 1. cbn [code]. f_equal.
      unfold finished. rewrite (inside_from_fence _ _ _ l);
        [| apply lookup_app_l_Some, Hl | exact Hlf | lia].
      rewrite drop_app_le by lia. rewrite List.filter_app. cbn.
      rewrite Hfence. cbn. rewrite app_nil_r.
      rewrite <- Hcode. symmetry. apply not_fence_kept, Hcl.
    + rewrite fences_snoc, Hfence, Hcount, length_app. cbn. lia.
  - (* a fence that opens a block *)
    split; [reflexivity |]. cbn [codeBlocks currentBlock cur_startLine].
    split; [exact Hord |]. split.
    + intros c [= <-]. cbn [cur_startLine cur_language cur_code].
      split; [lia |]. split.
      * match goal with
        | |- (if JS.truthy ?l then _ else _) <> _ =>
            destruct (JS.truthy l) eqn:E; intros H0;
            [rewrite H0 in E; discriminate E | discriminate H0]
        end.
      * split; [exists line; split; [apply list_lookup_middle; reflexivity
                                    | exact Hfence] |].
        split; [| constructor].
        symmetry. apply drop_ge. lia.
    + split; [exact Hblocks' |].
      rewrite fences_snoc, Hfence, Hcount. lia.
  - (* a line of the block *)
    destruct (Hcur c eq_refl) as (Hs & Hlang & (l & Hl & Hlf) & Hcode & Hcl).
    split; [reflexivity |]. cbn [codeBlocks currentBlock cur_startLine].
    split; [exact Hord |]. split.
    + intros c' [= <-]. cbn. split; [lia |]. split; [exact Hlang |].
      split; [exists l; split; [apply lookup_app_l_Some, Hl | exact Hlf] |].
      split.
      * rewrite drop_app_le by lia. rewrite Hcode. reflexivity.
      * apply Forall_app. split; [exact Hcl |]. constructor; [exact Hfence |].
        constructor.
    + split; [exact Hblocks' |].
      rewrite fences_snoc, Hfence, Hcount. lia.
  - (* a line of text *)
    split; [rewrite Hc; exact Hin |]. rewrite Hc.
    split; [eapply ordered_weaken; [exact Hord | lia] |].
    split; [intros ? [=] |]. split; [exact Hblocks' |].
    rewrite fences_snoc, Hfence, Hcount. lia.
Qed.

Lemma loop_scanned rest : forall pre st,
  scanned pre st -> scanned (pre ++ rest) (loop (length pre) rest st).
Proof.
  induction rest as [| line rest IH]; intros pre st H.
  - rewrite app_nil_r. exact H.
  - cbn [loop]. replace (pre ++ line :: rest)%list with ((pre ++ [line]) ++ rest)%list
      by (rewrite <- app_assoc; reflexivity).
    replace (S (length pre)) with (length (pre ++ [line])%list)
      by (rewrite length_app; cbn; lia).
    apply IH, visit_scanned, H.
Qed.

Lemma scanned_initial : scanned [] (mkState [] None false).
Proof.
  split; [reflexivity |]. split; [exact I |]. split; [intros ? [=] |].
  split; [constructor | reflexivity].
Qed.

(** What [extractCodeBlocks] returns. *)
Lemma extracted lines :
  ordered 0 (extractCodeBlocks_lines lines) (length lines)
  /\ Forall (block_ok lines) (extractCodeBlocks_lines lines)
  /\ length (extractCodeBlocks_lines lines) = ((fences lines + 1) / 2)%nat.
Proof.
  pose proof (loop_scanned lines [] _ scanned_initial) as H.
  cbn [app length] in H. unfold extractCodeBlocks_lines.
  destruct H as (Hin & Hord & Hcur & Hblocks & Hcount).
  rewrite Hin. destruct (currentBlock _) as [c |] eqn:Hc.
  - destruct (Hcur c eq_refl) as (Hs & Hlang & (l & Hl & Hlf) & Hcode & Hcl).
    split; [apply ordered_snoc; cbn; try lia; exact Hord |]. split.
    + apply Forall_app. split; [exact Hblocks |]. constructor; [| constructor].
      split; [cbn; lia |]. split; [exact Hlang |].
      split; [exists l; auto |].
      unfold finished at 1. cbn [code]. f_equal. unfold finished.
      rewrite (inside_from_fence _ _ _ l); [| exact Hl | exact Hlf | lia].
      rewrite <- Hcode. symmetry. apply not_fence_kept, Hcl.
    + rewrite length_app, Hcount. cbn [length].
      replace (2 * length (codeBlocks (loop 0 lines (mkState [] None false))) + 1 + 1)%nat
        with ((length (codeBlocks (loop 0 lines (mkState [] None false))) + 1) * 2)%nat
        by lia.
      rewrite Nat.div_mul by lia. reflexivity.
  - split; [exact Hord |]. split; [exact Hblocks |].
    rewrite Hcount.
    replace (2 * length (codeBlocks (loop 0 lines (mkState [] None false))) + 0 + 1)%nat
      with (1 + length (codeBlocks (loop 0 lines (mkState [] None false))) * 2)%nat
      by lia.
    rewrite Nat.div_add by lia. reflexivity.
Qed.

Lemma code_blocks_ordered (content : string) :
  ordered 0 (extractCodeBlocks content)
    (length (JSString.split "010"%char content)).
Proof. apply extracted. Qed.

Lemma ordered_weaken_lo (blocks : list Block) lo lo' hi :
  ordered lo blocks hi -> (lo' <= lo)%nat -> ordered lo' blocks hi.
Proof.
  destruct blocks as [| b blocks]; [intros; exact I |].
  intros (H1 & H2 & H3 & H4) Hle. cbn. repeat split; try lia. exact H4.
Qed.

(** X23. The blocks that [extractCodeBlocks] finds follow one another in
    the content: each one begins at or after line 0, ends at or after its
    first line and before the end of the content, and the next one begins
    after it has ended. *)
Theorem code_blocks_follow_one_another (content : string) :
  ordered 0 (extractCodeBlocks content)
    (length (JSString.split "010"%char content)).
Proof.
  destruct (extracted (JSString.split "010"%char content)) as (H & _ & _).
  exact H.
Qed.

(** X24. [extractCodeBlocks] finds one block for every two fence lines, and
    one more for a fence that is left open: with [n] fence lines in the
    content there are [(n + 1) / 2] blocks, so none without a fence. *)
Theorem code_block_per_pair_of_fences (content : string) :
  length (extractCodeBlocks content)
  = ((fences (JSString.split "010"%char content) + 1) / 2)%nat.
Proof.
  destruct (extracted (JSString.split "010"%char content)) as (_ & _ & H).
  exact H.
Qed.

(** X25. Every block that [extractCodeBlocks] finds begins on a fence line,
    has a language that is not empty, and its code is the lines from its
    first to its last that are not fences, joined by line feeds. *)
Theorem code_block_holds_its_lines (content : string) :
  Forall (block_ok (JSString.split "010"%char content))
    (extractCodeBlocks content).
Proof.
  destruct (extracted (JSString.split "010"%char content)) as (_ & H & _).
  exact H.
Qed.

Lemma ordered_bounds (blocks : list Block) : forall lo hi,
  ordered lo blocks hi ->
  Forall (fun b => (lo <= startLine b <= endLine b)%nat
                   /\ (endLine b < hi)%nat) blocks.
Proof.
  induction blocks as [| b blocks IH]; intros lo hi H; [constructor |].
  destruct H as (H1 & H2 & H3 & H4). constructor; [lia |].
  eapply Forall_impl; [apply (IH _ _ H4) |]. cbn. intros b' Hb'. lia.
Qed.

Lemma filter_none {A} (P : A -> bool) (l : list A) :
  Forall (fun x => P x = false) l -> List.filter P l = [].
Proof.
  induction 1 as [| x l Hx _ IH]; [reflexivity |]. cbn. rewrite Hx. exact IH.
Qed.

Lemma ordered_filter_none (P : Block -> bool) (blocks : list Block) lo hi :
  ordered lo blocks hi ->
  (forall b, (lo <= startLine b)%nat -> P b = false) ->
  List.filter P blocks = [].
Proof.
  intros H HP. apply filter_none.
  eapply Forall_impl; [apply (ordered_bounds _ _ _ H) |].
  cbn. intros b Hb. apply HP. lia.
Qed.

(** The block that the loop renders at the line [i] is the one that begins
    there. *)
Lemma rendered_at (i : nat) (blocks : list Block) : forall lo hi,
  ordered lo blocks hi ->
  match List.find (contains i) blocks with
  | Some block => if (i =? startLine block)%nat then [block] else []
  | None => []
  end = List.filter (fun b => (startLine b =? i)%nat) blocks.
Proof.
  induction blocks as [| b blocks IH]; intros lo hi H; [reflexivity |].
  destruct H as (H1 & H2 & H3 & H4). cbn [List.find List.filter].
  assert (Hlater : List.filter (fun b' => (startLine b' =? i)%nat) blocks = []
                   \/ (endLine b < i)%nat).
  { destruct (Nat.le_gt_cases i (endLine b)); [left | right; lia].
    apply (ordered_filter_none _ _ _ _ H4). intros b' Hb'.
    apply Nat.eqb_neq. lia. }
  unfold contains at 1.
  destruct (startLine b <=? i)%nat eqn:E1; cbn [andb];
    [destruct (i <=? endLine b)%nat eqn:E2 |].
  - apply Nat.leb_le in E1, E2. destruct Hlater as [-> | ?]; [| lia].
    rewrite (Nat.eqb_sym (startLine b) i).
    destruct (i =? startLine b)%nat; reflexivity.
  - apply Nat.leb_le in E1. apply Nat.leb_gt in E2.
    replace (startLine b =? i)%nat with false
      by (symmetry; apply Nat.eqb_neq; lia).
    apply (IH _ _ H4).
  - apply Nat.leb_gt in E1.
    replace (startLine b =? i)%nat with false
      by (symmetry; apply Nat.eqb_neq; lia).
    apply (IH _ _ H4).
Qed.

Lemma started_before_next (i : nat) (blocks : list Block) : forall lo hi,
  ordered lo blocks hi ->
  List.filter (fun b => (startLine b <? S i)%nat) blocks
  = (List.filter (fun b => (startLine b <? i)%nat) blocks
     ++ List.filter (fun b => (startLine b =? i)%nat) blocks)%list.
Proof.
  induction blocks as [| b blocks IH]; intros lo hi H; [reflexivity |].
  destruct H as (H1 & H2 & H3 & H4). cbn [List.filter].
  destruct (lt_eq_lt_dec (startLine b) i) as [[Hlt | Heq] | Hgt].
  - replace (startLine b <? S i)%nat with true
      by (symmetry; apply Nat.ltb_lt; lia).
    replace (startLine b <? i)%nat with true
      by (symmetry; apply Nat.ltb_lt; lia).
    replace (startLine b =? i)%nat with false
      by (symmetry; apply Nat.eqb_neq; lia).
    cbn. f_equal. apply (IH _ _ H4).
  - replace (startLine b <? S i)%nat with true
      by (symmetry; apply Nat.ltb_lt; lia).
    replace (startLine b <? i)%nat with false
      by (symmetry; apply Nat.ltb_ge; lia).
    replace (startLine b =? i)%nat with true
      by (symmetry; apply Nat.eqb_eq; lia).
    rewrite !(ordered_filter_none _ _ _ _ H4); [reflexivity | ..];
      intros b' Hb'; first [apply Nat.eqb_neq | apply Nat.ltb_ge]; lia.
  - replace (startLine b <? S i)%nat with false
      by (symmetry; apply Nat.ltb_ge; lia).
    replace (startLine b <? i)%nat with false
      by (symmetry; apply Nat.ltb_ge; lia).
    replace (startLine b =? i)%nat with false
      by (symmetry; apply Nat.eqb_neq; lia).
    rewrite !(ordered_filter_none _ _ _ _ H4); [reflexivity | ..];
      intros b' Hb'; first [apply Nat.eqb_neq | apply Nat.ltb_ge]; lia.
Qed.

Lemma started_before_end (blocks : list Block) lo hi :
  ordered lo blocks hi ->
  List.filter (fun b => (startLine b <? hi)%nat) blocks = blocks.
Proof.
  intros H. apply filter_all_kept.
  eapply Forall_impl; [apply (ordered_bounds _ _ _ H) |].
  cbn beta. intros b Hb. apply Nat.ltb_lt. lia.
Qed.

Lemma code_elements_app (e1 e2 : list Element) :
  code_elements (e1 ++ e2) = (code_elements e1 ++ code_elements e2)%list.
Proof. apply flat_map_app. Qed.

Lemma code_elements_flush key elements text :
  code_elements (flush key elements text) = code_elements elements.
Proof.
  unfold flush. destruct (0 <? length text)%nat; [| reflexivity].
  destruct (JS.truthy _); [| reflexivity].
  rewrite code_elements_app. cbn. apply app_nil_r.
Qed.

Lemma existsb_find {A} (P : A -> bool) (l : list A) :
  existsb P l = false -> List.find P l = None.
Proof.
  induction l as [| x l IH]; [reflexivity |]. cbn.
  destruct (P x); [discriminate | exact IH].
Qed.

Lemma render_visit_codes blocks lo hi i (line : string)
    (st : list Element * list string) :
  ordered lo blocks hi ->
  code_elements (fst (render_visit blocks i line st))
  = (code_elements (fst st)
     ++ keyed i (List.filter (fun b => (startLine b =? i)%nat) blocks))%list.
Proof.
  intros H. rewrite <- (rendered_at i blocks lo hi H).
  destruct st as [elements text]. unfold render_visit.
  destruct (isInCodeBlock i blocks) eqn:E.
  - destruct (List.find (contains i) blocks) as [b |].
    + destruct (i =? startLine b)%nat; cbn [fst].
      * rewrite code_elements_app, code_elements_flush. reflexivity.
      * rewrite code_elements_flush. cbn. symmetry. apply app_nil_r.
    + cbn [fst]. rewrite code_elements_flush. cbn. symmetry. apply app_nil_r.
  - rewrite (existsb_find _ _ E). cbn. symmetry. apply app_nil_r.
Qed.

Lemma render_loop_codes blocks lo hi :
  ordered lo blocks hi ->
  forall rest i (st : list Element * list string),
    code_elements (fst st)
    = map (fun b => (startLine b, b))
        (List.filter (fun b => (startLine b <? i)%nat) blocks) ->
    code_elements (fst (render_loop blocks i rest st))
    = map (fun b => (startLine b, b))
        (List.filter (fun b => (startLine b <? i + length rest)%nat) blocks).
Proof.
  intros H. induction rest as [| line rest IH]; intros i st Hst.
  - cbn. rewrite Nat.add_0_r. exact Hst.
  - cbn [render_loop length]. rewrite Nat.add_succ_r, <- Nat.add_succ_l.
    apply IH. rewrite (render_visit_codes _ _ _ _ _ _ H), Hst.
    rewrite (started_before_next i blocks lo hi H), map_app. f_equal.
    unfold keyed. clear. induction blocks as [| b blocks IH]; [reflexivity |].
    cbn. destruct (startLine b =? i)%nat eqn:E; [| exact IH].
    apply Nat.eqb_eq in E. cbn. rewrite IH, E. reflexivity.
Qed.

(** X26. [renderContentWithCode] shows every block that [extractCodeBlocks]
    finds once, in the order of the content and under the key of its first
    line; a content without a block is handed to the Markdown renderer as
    it is. *)
Theorem every_code_block_rendered_once (content : string) :
  match renderContentWithCode content with
  | ReactMarkdown shown =>
      shown = content /\ extractCodeBlocks content = []
  | mixed_content elements =>
      code_elements elements
      = map (fun b => (startLine b, b)) (extractCodeBlocks content)
      /\ extractCodeBlocks content <> []
  end.
Proof.
  unfold renderContentWithCode.
  destruct (length (extractCodeBlocks content) =? 0)%nat eqn:E.
  - apply Nat.eqb_eq in E. split; [reflexivity |].
    destruct (extractCodeBlocks content); [reflexivity | discriminate E].
  - pose proof (code_blocks_ordered content) as H.
    assert (H0 : code_elements (fst (@nil Element, @nil string))
                 = map (fun b => (startLine b, b))
                     (List.filter (fun b => (startLine b <? 0)%nat)
                        (extractCodeBlocks content))).
    { rewrite filter_none; [reflexivity |]. apply Forall_forall.
      intros b _. reflexivity. }
    pose proof (render_loop_codes _ _ _ H (JSString.split "010"%char content)
                  0 ([], []) H0) as Hloop.
    destruct (render_loop _ _ _ _) as [elements text]. cbn [fst] in Hloop.
    split.
    + rewrite code_elements_flush, Hloop. cbn [Nat.add].
      rewrite (started_before_end _ _ _ H). reflexivity.
    + intros Hnone. rewrite Hnone in E. discriminate E.
Qed.

End CodeBlocks.

(** ** The prompts of the question-answering routes *)

Section PromptFacts.

Import OpenAI.

Local Open Scope string_scope.

Variable TypeError_message : string.
Variable create : Prompts -> Error + string.

Lemma includes_empty (s : string) : JS.includes "" s = true.
Proof. destruct s; reflexivity. Qed.

Lemma first_word_of_padded (query : string) :
  query = "" \/ (exists rest, query = String " "%char rest) ->
  JSString.first_part " "%char (JSString.toLowerCase query) = "".
Proof. intros [-> | [rest ->]]; reflexivity. Qed.

Lemma mentions_class_padded (transcript query : string) :
  query = "" \/ (exists rest, query = String " "%char rest) ->
  mentions_class transcript query = true.
Proof.
  intros H. unfold mentions_class.
  rewrite (first_word_of_padded _ H), includes_empty. apply orb_true_r.
Qed.

(** X27. [POST /api/openai/query] with a transcript, the query type
    "question" and no query answers 500, "Failed to process request
    with OpenAI": the request passes the test for a missing transcript and
    query, and [buildOpenAIPrompts] throws before the completion service is
    asked. *)
Theorem question_without_query_is_answered_500 (transcript : string) :
  JS.truthy transcript = true ->
  post_query TypeError_message create
    (mkBody (Some transcript) None (Some "question"))
  = (500%Z, [("error", JS.VString "Failed to process request with OpenAI");
             ("details", JS.VString TypeError_message)]).
Proof.
  intros H. unfold post_query. cbn [OpenAI.transcript OpenAI.query queryType].
  cbn [truthy]. rewrite H. cbn [negb andb].
  unfold buildOpenAIPrompts. rewrite H. reflexivity.
Qed.

(** X28. A question that is empty or begins with a space counts as a
    question about the class whatever it asks: its first word is the empty
    string, which every transcript includes; so [buildOpenAIPrompts] quotes
    the transcript, when it is not blank. *)
Theorem padded_question_quotes_the_transcript (transcript query : string) :
  JS.truthy (JSString.trim transcript) = true ->
  query = "" \/ (exists rest, query = String " "%char rest) ->
  buildOpenAIPrompts TypeError_message
    (Some transcript) (Some query) (Some "question")
  = inr (mkPrompts transcript_system
           (Some ("Class transcript:" ++ newline ++ newline ++ transcript
                  ++ newline ++ newline ++ "Question: " ++ query))).
Proof.
  intros Ht Hq. unfold buildOpenAIPrompts.
  assert (Htruthy : JS.truthy transcript = true).
  { destruct transcript; [discriminate Ht | reflexivity]. }
  rewrite Htruthy, (mentions_class_padded _ _ Hq), Ht. reflexivity.
Qed.

(** X29. [buildOpenAIPrompts] never quotes a blank transcript in answer to a
    question: when the transcript is white space only, the user prompt is
    the query alone, under the system prompt of a direct answer, whatever
    the query mentions. *)
Theorem blank_transcript_is_not_quoted (transcript query : string) :
  JSString.trim transcript = "" ->
  buildOpenAIPrompts TypeError_message
    (Some transcript) (Some query) (Some "question")
  = inr (mkPrompts direct_system (Some query)).
Proof.
  intros Ht. unfold buildOpenAIPrompts. rewrite Ht.
  destruct (JS.truthy transcript); [| reflexivity].
  rewrite andb_false_r. reflexivity.
Qed.

End PromptFacts.

Lemma question_without_query_is_answered_500_witness :
  JS.truthy "Homework is due Friday." = true
  /\ OpenAI.post_query "Cannot read properties of undefined"
       (fun _ => inr "unused")
       (OpenAI.mkBody (Some "Homework is due Friday.") None (Some "question"))
     = (500%Z, [("error", JS.VString "Failed to process request with OpenAI");
                ("details", JS.VString "Cannot read properties of undefined")]).
Proof.
  split; [reflexivity |].
  apply (question_without_query_is_answered_500
           "Cannot read properties of undefined" (fun _ => inr "unused")
           "Homework is due Friday.").
  reflexivity.
Defined.

Lemma padded_question_quotes_the_transcript_witness :
  JS.truthy (JSString.trim "Homework is due Friday.") = true
  /\ (" why?" = "" \/ (exists rest, " why?" = String " "%char rest))
  /\ OpenAI.buildOpenAIPrompts "Cannot read properties of undefined"
       (Some "Homework is due Friday.") (Some " why?") (Some "question")
     = inr (OpenAI.mkPrompts OpenAI.transcript_system
              (Some ("Class transcript:" ++ OpenAI.newline ++ OpenAI.newline
                     ++ "Homework is due Friday."
                     ++ OpenAI.newline ++ OpenAI.newline
                     ++ "Question: " ++ " why?")%string)).
Proof.
  split; [reflexivity |].
  split; [right; exists "why?"; reflexivity |].
  apply (padded_question_quotes_the_transcript
           "Cannot read properties of undefined"
           "Homework is due Friday." " why?").
  - reflexivity.
  - right. exists "why?". reflexivity.
Defined.

Lemma blank_transcript_is_not_quoted_witness :
  JSString.trim "   " = ""
  /\ OpenAI.buildOpenAIPrompts "Cannot read properties of undefined"
       (Some "   ") (Some "What did the class cover?") (Some "question")
     = inr (OpenAI.mkPrompts OpenAI.direct_system
              (Some "What did the class cover?")).
Proof.
  split; [reflexivity |].
  apply (blank_transcript_is_not_quoted
           "Cannot read properties of undefined"
           "   " "What did the class cover?").
  reflexivity.
Defined.

(** ** The application and the relay *)

Section AppFacts.

Import Node.

Local Open Scope string_scope.

Lemma close_report_is_expected (rest : string) :
  App.expected_close ("AssemblyAI connection closed: " ++ rest) = true.
Proof.
  unfold App.expected_close.
  replace (JS.includes "connection closed"
             ("AssemblyAI connection closed: " ++ rest)) with true
    by reflexivity.
  rewrite orb_true_r. reflexivity.
Qed.

(** X30. When the transcription service closes the connection with a code
    other than 4001 and 4105, the relay reports "AssemblyAI connection
    closed" with the code and the reason, and the application discards
    that report: its state, the error it shows included, is as before,
    whatever the code and the reason are. *)
Theorem close_report_never_shown (w : World) (code : Z) (reason : string)
    (st : App.State) :
  code <> 4001%Z -> code <> 4105%Z ->
  exists obj data,
    outbox (snd (Server.onClose code reason w)) = (outbox w ++ [obj])%list
    /\ App.received obj = Some data
    /\ App.error data
       = Some ("AssemblyAI connection closed: " ++ pretty code ++ " - " ++ reason)
    /\ App.message_handler data st = st.
Proof.
  intros H1 H2.
  exists (Server.error ("AssemblyAI connection closed: " ++ pretty code
                        ++ " - " ++ reason)).
  eexists. split; [| split; [reflexivity | split; [reflexivity |]]].
  - unfold Server.onClose, Server.try_send, client_send. unfold_m.
    apply Z.eqb_neq in H1, H2. rewrite H1, H2. world_simpl.
    destruct (client_send_throws (env w)); reflexivity.
  - unfold App.message_handler. cbn [App.error App.truthy].
    rewrite close_report_is_expected. reflexivity.
Qed.

End AppFacts.

Lemma close_report_never_shown_witness :
  let w := Server.connection (Some "key")
             (Node.mkEnv false None false false) in
  let st := App.mkState "Hello." "" "" true true 0 in
  1006%Z <> 4001%Z /\ 1006%Z <> 4105%Z
  /\ exists obj data,
       Node.outbox (snd (Server.onClose 1006 "Abnormal closure" w))
       = (Node.outbox w ++ [obj])%list
       /\ App.received obj = Some data
       /\ App.error data
          = Some ("AssemblyAI connection closed: " ++ pretty 1006%Z ++ " - "
                  ++ "Abnormal closure")%string
       /\ App.message_handler data st = st.
Proof.
  intros w st. split; [lia |]. split; [lia |].
  apply (close_report_never_shown w 1006 "Abnormal closure" st); lia.
Defined.
